(** * ColorHash: colour derivation, swatch parsing and image matching

    A shallow embedding of the colour utilities ([lib/color-utils]), the
    provider adapters and palette builders ([lib/image-api]), the
    [/api/search-images] route and the palette page's role assignment,
    together with the properties the design document states about them.

    Numbers: JavaScript numbers are modelled by exact arithmetic, integers
    as [Z], fractional quantities as [Q], and the WCAG luminance (which
    needs a real power) as [R]; where a double would round differently
    from the exact value, the model follows the exact value.  The
    distance test [Math.sqrt(d2) <= threshold] is modelled on the double:
    [Math.sqrt] of the integer [d2] is the correctly rounded double
    ([mathSqrt]).  Where distances are only compared with each other (the
    ranking), a distance is carried as its integer radicand [d2], which
    orders the same way ([mathSqrt_lt]).  Strings are [string]. *)

From Stdlib Require Import ZArith QArith Qround Qabs List String Ascii Bool Lia.
From Stdlib Require Import Sorting.Sorted Sorting.Permutation.
From Stdlib Require Import Numbers.DecimalString.
From Stdlib Require Import Reals Psatz Qreals.
Import ListNotations.

#[local] Open Scope string_scope.
#[local] Open Scope Z_scope.

(* ------------------------------------------------------------------ *)
(** ** Characters and hexadecimal digits *)

Module Hex.

(** [[0-9A-Fa-f]], also what [[a-f\d]] means under the [i] flag. *)
Definition is_hex_digit (c : ascii) : bool :=
  let n := nat_of_ascii c in
  ((48 <=? n) && (n <=? 57) || (65 <=? n) && (n <=? 70)
   || (97 <=? n) && (n <=? 102))%nat.

(** Value of one hexadecimal digit, as [parseInt(_, 16)] reads it. *)
Definition digit_value (c : ascii) : Z :=
  let n := Z.of_nat (nat_of_ascii c) in
  if (48 <=? n) && (n <=? 57) then n - 48
  else if (65 <=? n) && (n <=? 70) then n - 55
  else if (97 <=? n) && (n <=? 102) then n - 87
  else 0.

(** [parseInt(s, 16)] on a string of hexadecimal digits. *)
Fixpoint parse_from (acc : Z) (s : string) : Z :=
  match s with
  | EmptyString => acc
  | String c tl => parse_from (16 * acc + digit_value c) tl
  end.

Definition parseInt16 (s : string) : Z := parse_from 0 s.

Fixpoint all_hex (s : string) : bool :=
  match s with
  | EmptyString => true
  | String c tl => is_hex_digit c && all_hex tl
  end.

(** Lower-case digit of a value below 16, as [Number.toString(16)] prints. *)
Definition digit_char (d : Z) : ascii :=
  if d <? 10 then ascii_of_nat (Z.to_nat (48 + d))
  else ascii_of_nat (Z.to_nat (87 + d)).

Fixpoint to_string_fuel (fuel : nat) (n : Z) (acc : string) : string :=
  match fuel with
  | O => acc
  | S k =>
      let acc' := String (digit_char (n mod 16)) acc in
      if n / 16 =? 0 then acc' else to_string_fuel k (n / 16) acc'
  end.

(** [n.toString(16)] for a non-negative integer. *)
Definition toString16 (n : Z) : string :=
  to_string_fuel (S (Z.to_nat (Z.log2 n))) n "".

(** [s.slice(1)]. *)
Definition slice1 (s : string) : string :=
  match s with
  | EmptyString => EmptyString
  | String _ tl => tl
  end.

(** [s.replace(/^#/, '')]; also the optional [#] of an anchored regex. *)
Definition stripHash (s : string) : string :=
  match s with
  | String "#" tl => tl
  | _ => s
  end.

(** tinycolor's [pad2]: a one-character string gets a leading zero. *)
Definition pad2 (s : string) : string :=
  match s with
  | String c EmptyString => String "0" (String c EmptyString)
  | _ => s
  end.

End Hex.

(** [Math.round]: the nearest integer, halves rounded up. *)
Definition mathRound (q : Q) : Z := Qfloor (q + (1 # 2)).

(** [Math.sqrt] of a non-negative integer below [2^52]: the correctly
    rounded double, i.e. the number with a 53-bit significand nearest to
    the square root.  With [4^k <= n < 4^(k+1)] the root lies in
    [[2^k, 2^(k+1))], where doubles are the multiples of [2^(k-52)]; the
    significand [m] is the integer nearest to [sqrt (n * 4^(52-k))], which
    is never a tie. *)
Definition mathSqrt (n : Z) : Q :=
  if n <=? 0 then 0%Q
  else
    let j := 52 - Z.log2 n / 2 in
    let N := n * 4 ^ j in
    let s := Z.sqrt N in
    let m := if s <? N - s * s then s + 1 else s in
    Qdiv (inject_Z m) (inject_Z (2 ^ j)).

Definition Qmax (a b : Q) : Q := if Qle_bool a b then b else a.
Definition Qmin (a b : Q) : Q := if Qle_bool a b then a else b.
Definition Qltb (a b : Q) : bool := negb (Qle_bool b a).

Record ColorRGB : Type := mkRGB { r : Z; g : Z; b : Z }.

(** JavaScript truthiness of an optional string field: [undefined] and the
    empty string are falsy. *)
Definition or_default (s : option string) (d : string) : string :=
  match s with
  | Some (String c tl) => String c tl
  | _ => d
  end.

(* ------------------------------------------------------------------ *)
(** ** lib/image-api: palette derivation from a single HEX colour *)

Module ImageApi.

Record DominantColors : Type := mkDominant {
  vibrant : string;
  darkVibrant : string;
  lightVibrant : string;
  muted : string;
  darkMuted : string;
  lightMuted : string;
  complementary : string;
  analogous1 : string;
  analogous2 : string
}.

(** [Object.values(dominantColors)], in insertion order. *)
Definition values (d : DominantColors) : list string :=
  [ vibrant d; darkVibrant d; lightVibrant d; muted d; darkMuted d;
    lightMuted d; complementary d; analogous1 d; analogous2 d ].

(** The module-local [hexToRgb]:
    [/^#?([a-f\d]{2})([a-f\d]{2})([a-f\d]{2})$/i], black when the string
    does not match. *)
Definition hexToRgb (hex : string) : ColorRGB :=
  let body := Hex.stripHash hex in
  match body with
  | String r1 (String r2 (String g1 (String g2 (String b1 (String b2
      EmptyString))))) =>
      if Hex.all_hex body then
        mkRGB (Hex.parseInt16 (String r1 (String r2 "")))
              (Hex.parseInt16 (String g1 (String g2 "")))
              (Hex.parseInt16 (String b1 (String b2 "")))
      else mkRGB 0 0 0
  | _ => mkRGB 0 0 0
  end.

(** ['#' + ((1 << 24) + (r << 16) + (g << 8) + b).toString(16).slice(1)];
    every caller passes channels in [0, 255], so no 32-bit wrap occurs. *)
Definition rgbToHex (r g b : Z) : string :=
  String "#"
    (Hex.slice1
       (Hex.toString16
          (Z.shiftl 1 24 + Z.shiftl r 16 + Z.shiftl g 8 + b))).

Definition clamp255 (q : Q) : Q := Qmax 0 (Qmin 255 q).

Definition adjustBrightness (hex : string) (percent : Z) : string :=
  let rgb := hexToRgb hex in
  let adjust (val : Z) : Q :=
    clamp255 (inject_Z val + (inject_Z val * inject_Z percent) / 100)%Q in
  rgbToHex (mathRound (adjust (r rgb))) (mathRound (adjust (g rgb)))
           (mathRound (adjust (b rgb))).

Definition adjustSaturation (hex : string) (percent : Z) : string :=
  let rgb := hexToRgb hex in
  let gray := (inject_Z (r rgb + g rgb + b rgb) / 3)%Q in
  let adjust (val : Z) : Q :=
    let diff := (inject_Z val - gray)%Q in
    clamp255 (gray + diff * (1 + inject_Z percent / 100))%Q in
  rgbToHex (mathRound (adjust (r rgb))) (mathRound (adjust (g rgb)))
           (mathRound (adjust (b rgb))).

Definition getComplementaryColor (hex : string) : string :=
  let rgb := hexToRgb hex in
  rgbToHex (255 - r rgb) (255 - g rgb) (255 - b rgb).

Definition getAnalogousColors (hex : string) : string * string :=
  (adjustBrightness hex 15, adjustBrightness hex (-15)).

Definition buildDerivedPalette (primaryColor : string) : DominantColors :=
  let complementary := getComplementaryColor primaryColor in
  let analogous := getAnalogousColors primaryColor in
  {| vibrant := primaryColor;
     darkVibrant := adjustBrightness primaryColor (-30);
     lightVibrant := adjustBrightness primaryColor 30;
     muted := adjustSaturation primaryColor (-30);
     darkMuted := adjustBrightness (adjustSaturation primaryColor (-30)) (-30);
     lightMuted := adjustBrightness (adjustSaturation primaryColor (-30)) 30;
     complementary := complementary;
     analogous1 := fst analogous;
     analogous2 := snd analogous |}.

(** Provider records.  Presentation-only fields (URL sets, attribution)
    are carried as they arrive. *)
Record UnsplashImage : Type := mkUnsplash {
  u_id : string;
  u_urls : list string;
  u_user : string;
  u_description : option string;
  u_color : option string
}.

Record PexelsImage : Type := mkPexels {
  p_id : Z;
  p_src : list string;
  p_photographer : string;
  p_avg_color : option string
}.

Record PixabayImage : Type := mkPixabay {
  x_id : Z;
  x_pageURL : string;
  x_tags : string;
  x_user : string
}.

(** [buildDerivedPalette] cannot throw on a string, so the [catch] arm
    (which would return [null]) is never taken. *)
Definition buildDominantColorsFromUnsplash (image : UnsplashImage)
  : option DominantColors :=
  let primaryColor := or_default (u_color image) "#000000" in
  Some (buildDerivedPalette primaryColor).

Definition buildDominantColorsFromPexels (image : PexelsImage)
  : option DominantColors :=
  let primaryColor := or_default (p_avg_color image) "#000000" in
  Some (buildDerivedPalette primaryColor).

Definition buildDominantColorsFromPixabay (image : PixabayImage)
  : option DominantColors := None.

End ImageApi.

(* ------------------------------------------------------------------ *)
(** ** tinycolor2, the colour library [lib/color-utils] is written against

    The part of tinycolor2 the repository calls, with JavaScript doubles
    replaced by exact rationals.  String input is modelled for the
    hexadecimal notations (3, 4, 6 and 8 digits, optional [#]); colour
    names and functional notations ([rgb(...)], [hsl(...)]) are read as
    unrecognised input, i.e. black, like any other non-hex text. *)

Module TinyColor.

#[local] Open Scope Q_scope.

Record t : Type := mk { _r : Q; _g : Q; _b : Q }.

Definition is_space (c : ascii) : bool :=
  let n := nat_of_ascii c in
  ((n =? 32) || (9 <=? n) && (n <=? 13))%nat.

Fixpoint trimLeft (s : string) : string :=
  match s with
  | String c tl => if is_space c then trimLeft tl else s
  | EmptyString => EmptyString
  end.

Definition rev_string (s : string) : string :=
  string_of_list_ascii (List.rev (list_ascii_of_string s)).

Definition trim (s : string) : string :=
  rev_string (trimLeft (rev_string (trimLeft s))).

(** A CSS unit as tinycolor passes it around: a number, or the string
    ["q%"] produced by [convertToPercentage]. *)
Inductive CssNum : Type :=
| Num (q : Q)
| Pct (q : Q).

Definition convertToPercentage (n : Q) : CssNum :=
  if Qle_bool n 1 then Pct (n * 100) else Num n.

(** [n % m] on non-negative operands. *)
Definition Qfmod (n m : Q) : Q := n - m * inject_Z (Qfloor (n / m)).

Definition bound01 (n : CssNum) (max : Q) : Q :=
  let processPercent := match n with Pct _ => true | Num _ => false end in
  let v := match n with Pct q => q | Num q => q end in
  let n1 := Qmin max (Qmax 0 v) in
  let n2 := if processPercent
            then inject_Z (Qfloor (n1 * max)) / 100 (* parseInt(n * max, 10) / 100 *)
            else n1 in
  if Qltb (Qabs (n2 - max)) (1 # 1000000) then 1
  else Qfmod n2 max / max.

Definition clamp01 (v : Q) : Q := Qmin 1 (Qmax 0 v).

Definition max3 (a b c : Q) : Q := Qmax (Qmax a b) c.
Definition min3 (a b c : Q) : Q := Qmin (Qmin a b) c.

Definition Qeqb (a b : Q) : bool := Qle_bool a b && Qle_bool b a.

(** [rgbToHsl]: hue, saturation and lightness, each in [0, 1]. *)
Definition rgbToHsl (r0 g0 b0 : Q) : Q * Q * Q :=
  let r := bound01 (Num r0) 255 in
  let g := bound01 (Num g0) 255 in
  let b := bound01 (Num b0) 255 in
  let max := max3 r g b in
  let min := min3 r g b in
  let l := (max + min) / 2 in
  if Qeqb max min then (0, 0, l)
  else
    let d := max - min in
    let s := if Qltb (1 # 2) l then d / (2 - max - min) else d / (max + min) in
    let h := if Qeqb max r then (g - b) / d + (if Qltb g b then 6 else 0)
             else if Qeqb max g then (b - r) / d + 2
             else (r - g) / d + 4 in
    (h / 6, s, l).

Definition hue2rgb (p q t0 : Q) : Q :=
  let t1 := if Qltb t0 0 then t0 + 1 else t0 in
  let t := if Qltb 1 t1 then t1 - 1 else t1 in
  if Qltb t (1 # 6) then p + (q - p) * 6 * t
  else if Qltb t (1 # 2) then q
  else if Qltb t (2 # 3) then p + (q - p) * ((2 # 3) - t) * 6
  else p.

Definition hslToRgb (h0 : Q) (s0 l0 : CssNum) : Q * Q * Q :=
  let h := bound01 (Num h0) 360 in
  let s := bound01 s0 100 in
  let l := bound01 l0 100 in
  if Qeqb s 0 then (l * 255, l * 255, l * 255)
  else
    let q := if Qltb l (1 # 2) then l * (1 + s) else l + s - l * s in
    let p := 2 * l - q in
    (hue2rgb p q (h + (1 # 3)) * 255, hue2rgb p q h * 255,
     hue2rgb p q (h - (1 # 3)) * 255).

(** The constructor's tail: [inputToRGB] clamps each channel to
    [0, 255], and a channel below 1 is rounded. *)
Definition settle (c : Q) : Q :=
  let c1 := Qmin 255 (Qmax c 0) in
  if Qltb c1 1 then inject_Z (mathRound c1) else c1.

Definition of_channels (rgb : Q * Q * Q) : t :=
  let '(r, g, b) := rgb in mk (settle r) (settle g) (settle b).

(** [tinycolor({ h, s, l })]. *)
Definition of_hsl (h s l : Q) : t :=
  of_channels (hslToRgb h (convertToPercentage s) (convertToPercentage l)).

(** [rgbToRgb]. *)
Definition of_rgb (r g b : Z) : t :=
  of_channels (bound01 (Num (inject_Z r)) 255 * 255,
               bound01 (Num (inject_Z g)) 255 * 255,
               bound01 (Num (inject_Z b)) 255 * 255).

Definition twice (c : ascii) : string := String c (String c EmptyString).

(** [stringInputToObject] restricted to the hex matchers; an alpha
    component (hex8, hex4) is read and dropped, since nothing the
    repository calls looks at it. *)
Definition parse_hex (s : string) : option (Z * Z * Z) :=
  let cleaned := trim s in
  let body := Hex.stripHash cleaned in
  if Hex.all_hex body then
    match body with
    | String r1 (String r2 (String g1 (String g2 (String b1 (String b2
        (String _ (String _ EmptyString))))))) (* hex8 *)
    | String r1 (String r2 (String g1 (String g2 (String b1 (String b2
        EmptyString))))) (* hex6 *) =>
        Some (Hex.parseInt16 (String r1 (String r2 "")),
              Hex.parseInt16 (String g1 (String g2 "")),
              Hex.parseInt16 (String b1 (String b2 "")))
    | String r1 (String g1 (String b1 (String _ EmptyString))) (* hex4 *)
    | String r1 (String g1 (String b1 EmptyString)) (* hex3 *) =>
        Some (Hex.parseInt16 (twice r1), Hex.parseInt16 (twice g1),
              Hex.parseInt16 (twice b1))
    | _ => None
    end
  else None.

(** [tinycolor(str)]; unrecognised input is black. *)
Definition of_string (s : string) : t :=
  match parse_hex s with
  | Some (r, g, b) => of_rgb r g b
  | None => of_channels (0, 0, 0)
  end.

(** [tinycolor(undefined)] behaves as [tinycolor('')]. *)
Definition of_input (s : option string) : t :=
  of_string (match s with Some v => v | None => "" end).

Definition toRgb (c : t) : ColorRGB :=
  mkRGB (mathRound (_r c)) (mathRound (_g c)) (mathRound (_b c)).

Definition toHsl (c : t) : Q * Q * Q :=
  let '(h, s, l) := rgbToHsl (_r c) (_g c) (_b c) in (h * 360, s, l).

Definition toHexString (c : t) : string :=
  let hex (q : Q) := Hex.pad2 (Hex.toString16 (mathRound q)) in
  String "#" (hex (_r c) ++ hex (_g c) ++ hex (_b c)).

(** [clone]: [tinycolor(this.toString())]; a colour read from a hex
    string prints as a hex string. *)
Definition clone (c : t) : t := of_string (toHexString c).

Definition lighten (c : t) (amount : Q) : t :=
  let '(h, s, l) := toHsl c in of_hsl h s (clamp01 (l + amount / 100)).

Definition darken (c : t) (amount : Q) : t :=
  let '(h, s, l) := toHsl c in of_hsl h s (clamp01 (l - amount / 100)).

Definition saturate (c : t) (amount : Q) : t :=
  let '(h, s, l) := toHsl c in of_hsl h (clamp01 (s + amount / 100)) l.

Definition desaturate (c : t) (amount : Q) : t :=
  let '(h, s, l) := toHsl c in of_hsl h (clamp01 (s - amount / 100)) l.

Definition complement (c : t) : t :=
  let '(h, s, l) := toHsl c in of_hsl (Qfmod (h + 180) 360) s l.

Definition triad (c : t) : list t :=
  let '(h, s, l) := toHsl c in
  [ c; of_hsl (Qfmod (h + 120) 360) s l; of_hsl (Qfmod (h + 240) 360) s l ].

Definition getBrightness (c : t) : Q :=
  let rgb := toRgb c in
  (inject_Z (r rgb) * 299 + inject_Z (g rgb) * 587 + inject_Z (b rgb) * 114)
  / 1000.

Definition isDark (c : t) : bool := Qltb (getBrightness c) 128.

(** *** Luminance and readability (WCAG 2.0), over the reals *)

#[local] Open Scope R_scope.

Definition linearize (c : Z) : R :=
  let x := IZR c / 255 in
  if Rle_dec x 0.03928 then x / 12.92
  else Rpower ((x + 0.055) / 1.055) 2.4.

Definition getLuminance (c : t) : R :=
  let rgb := toRgb c in
  0.2126 * linearize (r rgb) + 0.7152 * linearize (g rgb)
  + 0.0722 * linearize (b rgb).

(** [tinycolor.readability(color1, color2)]. *)
Definition readability (color1 color2 : string) : R :=
  let c1 := of_string color1 in
  let c2 := of_string color2 in
  (Rmax (getLuminance c1) (getLuminance c2) + 0.05)
  / (Rmin (getLuminance c1) (getLuminance c2) + 0.05).

End TinyColor.

(* ------------------------------------------------------------------ *)
(** ** lib/color-utils *)

Module ColorUtils.

(** [normalizeHex]: [#RGB] and [#RRGGBB], with or without the [#]. *)
Definition normalizeHex (hex : string) : option string :=
  let trimmed := TinyColor.trim hex in
  let cleaned := Hex.stripHash trimmed in
  if Hex.all_hex cleaned && (String.length cleaned =? 3)%nat then
    Some (String "#"
            (String.concat "" (List.map TinyColor.twice
                                 (list_ascii_of_string cleaned))))
  else if Hex.all_hex cleaned && (String.length cleaned =? 6)%nat then
    Some (String "#" cleaned)
  else None.

(** Up to [n] leading hexadecimal digits of [s] (the greedy
    [[0-9A-Fa-f]{3,6}] takes six when it can). *)
Fixpoint take_hex (n : nat) (s : string) : string :=
  match n, s with
  | S k, String c tl =>
      if Hex.is_hex_digit c then String c (take_hex k tl) else EmptyString
  | _, _ => EmptyString
  end.

(** One attempt of [/#?[0-9A-Fa-f]{3,6}/] at the head of [s]. *)
Definition match_at (s : string) : option string :=
  match s with
  | String "#" tl =>
      let ds := take_hex 6 tl in
      if (3 <=? String.length ds)%nat then Some (String "#" ds) else None
  | _ =>
      let ds := take_hex 6 s in
      if (3 <=? String.length ds)%nat then Some ds else None
  end.

(** [input.match(/.../g)]: leftmost matches, each search resuming
    after the previous match; [skip] counts the characters of the
    current match still to be stepped over. *)
Fixpoint scan (skip : nat) (s : string) : list string :=
  match s with
  | EmptyString => []
  | String c tl =>
      match skip with
      | S k => scan k tl
      | O =>
          match match_at s with
          | Some tok => tok :: scan (String.length tok - 1) tl
          | None => scan 0 tl
          end
      end
  end.

Definition match_all (input : string) : list string := scan 0 input.

Fixpoint filter_some {A : Type} (l : list (option A)) : list A :=
  match l with
  | [] => []
  | Some x :: tl => x :: filter_some tl
  | None :: tl => filter_some tl
  end.

Definition parseHexColors (input : string) : list string :=
  filter_some (List.map normalizeHex (match_all input)).

(** [hexToRgb]: through tinycolor, so every notation tinycolor reads. *)
Definition hexToRgb (hex : option string) : ColorRGB :=
  TinyColor.toRgb (TinyColor.of_input hex).

Definition sq (z : Z) : Z := z * z.

(** The argument of [Math.sqrt] in [colorDistance]; an integer, at most
    [3 * 255^2] for channels in [0, 255]. *)
Definition colorDistanceSq (color1 color2 : ColorRGB) : Z :=
  sq (r color1 - r color2) + sq (g color1 - g color2)
  + sq (b color1 - b color2).

(** Euclidean distance in RGB space, as the double [Math.sqrt] returns. *)
Definition colorDistance (color1 color2 : ColorRGB) : Q :=
  mathSqrt (colorDistanceSq color1 color2).

(** [colorDistance(targetColor, imageColor) <= threshold]. *)
Definition isColorMatch (targetColor imageColor : ColorRGB) (threshold : Q)
  : bool :=
  Qle_bool (colorDistance targetColor imageColor) threshold.

Definition getContrastRatio (fg bg : string) : R :=
  TinyColor.readability fg bg.

(** *** ensureContrast *)

Record LoopState : Type := mkLoop {
  result : TinyColor.t;
  iterations : nat
}.

(** The [while] guard:
    [readability(result.toHexString(), bg) < targetRatio && iterations < 100]. *)
Definition loop_cond (bg : string) (targetRatio : R) (st : LoopState) : bool :=
  (if Rlt_dec (TinyColor.readability (TinyColor.toHexString (result st)) bg)
              targetRatio
   then true else false)
  && (iterations st <? 100)%nat.

(** The [while] body, with [step = 1]. *)
Definition loop_body (isBgDark : bool) (st : LoopState) : LoopState :=
  {| result := if isBgDark then TinyColor.lighten (result st) 1
               else TinyColor.darken (result st) 1;
     iterations := S (iterations st) |}.

(** A [while] loop; [None] when the fuel does not suffice. *)
Fixpoint while {S : Type} (fuel : nat) (cond : S -> bool) (body : S -> S)
  (st : S) : option S :=
  match fuel with
  | O => None
  | Datatypes.S k => if cond st then while k cond body (body st) else Some st
  end.

(** [ensureContrast] with the number of loop iterations it performed. *)
Definition ensureContrast_run (fuel : nat) (fg bg : string) (targetRatio : R)
  : option (string * nat) :=
  let fgColor := TinyColor.of_string fg in
  let bgColor := TinyColor.of_string bg in
  if Rge_dec (TinyColor.readability fg bg) targetRatio then Some (fg, O)
  else
    let isBgDark := TinyColor.isDark bgColor in
    match while fuel (loop_cond bg targetRatio) (loop_body isBgDark)
                (mkLoop (TinyColor.clone fgColor) O) with
    | Some st => Some (TinyColor.toHexString (result st), iterations st)
    | None => None
    end.

(** [ensureContrast]: the guard is evaluated at most 101 times, so this
    much fuel always suffices. *)
Definition ensureContrast (fg bg : string) (targetRatio : R) : string :=
  match ensureContrast_run 101 fg bg targetRatio with
  | Some (s, _) => s
  | None => fg
  end.

(** *** Harmonies, vibes, ramps *)

Record Harmony : Type := mkHarmony {
  h_complementary : string;
  h_triadic : list string
}.

(** [generateHarmony], the two harmonies the role assignment reads. *)
Definition generateHarmony (baseHex : string) : Harmony :=
  let color := TinyColor.of_string baseHex in
  {| h_complementary := TinyColor.toHexString (TinyColor.complement color);
     h_triadic := List.map TinyColor.toHexString (TinyColor.triad color) |}.

Inductive Vibe : Type :=
| minimal | vibrant | playful | serious | editorial | retro.

Definition vibe_shifts (vibe : Vibe) : Z * Z :=
  match vibe with
  | minimal => (-20, 10)
  | vibrant => (30, 5)
  | playful => (15, 10)
  | serious => (-10, -10)
  | editorial => (-5, 0)
  | retro => (-10, -5)
  end.

(** [applyVibeToPalette(hex, vibe).base]. *)
Definition applyVibeToPalette (hex : string) (vibe : Vibe) : string :=
  let color := TinyColor.of_string hex in
  let '(saturationShift, brightnessShift) := vibe_shifts vibe in
  let adjusted := TinyColor.clone color in
  let adjusted1 :=
    if 0 <? saturationShift
    then TinyColor.saturate adjusted (inject_Z saturationShift)
    else TinyColor.desaturate adjusted (inject_Z (Z.abs saturationShift)) in
  let adjusted2 :=
    if 0 <? brightnessShift
    then TinyColor.lighten adjusted1 (inject_Z brightnessShift)
    else TinyColor.darken adjusted1 (inject_Z (Z.abs brightnessShift)) in
  TinyColor.toHexString adjusted2.

Definition getColorName (hex : string) : string :=
  let '(h, s, l) := TinyColor.toHsl (TinyColor.of_string hex) in
  if Qltb l (15 # 100) then "black"
  else if Qltb (85 # 100) l then "white"
  else if Qltb s (15 # 100) then "gray"
  else if Qltb h 30 then "red"
  else if Qltb h 60 then "orange"
  else if Qltb h 90 then "yellow"
  else if Qltb h 150 then "green"
  else if Qltb h 210 then "teal"
  else if Qltb h 270 then "blue"
  else if Qltb h 300 then "purple"
  else if Qltb h 330 then "pink"
  else "red".

Definition getUnsplashColorParam (hex : string) : option string :=
  let name := getColorName hex in
  let supported := ["black"; "white"; "yellow"; "orange"; "red"; "purple";
                    "magenta"; "green"; "teal"; "blue"] in
  if String.eqb name "pink" then Some "magenta"
  else if List.existsb (String.eqb name) supported then Some name
  else None.

Definition generateShades (baseHex : string) (count : nat) : list string :=
  List.map (fun i => TinyColor.toHexString
                       (TinyColor.darken (TinyColor.of_string baseHex)
                                         (inject_Z (Z.of_nat i * 12))))
           (List.seq 1 count).

Definition generateTints (baseHex : string) (count : nat) : list string :=
  List.map (fun i => TinyColor.toHexString
                       (TinyColor.lighten (TinyColor.of_string baseHex)
                                          (inject_Z (Z.of_nat i * 12))))
           (List.seq 1 count).

End ColorUtils.

(* ------------------------------------------------------------------ *)
(** ** lib/image-api: the three provider adapters *)

Module Adapters.

Import ImageApi.

(** What [axios.get] hands back: a rejection (network error, non-2xx
    status such as a refused credential), or a response whose [data] is
    missing, lacks the list field the adapter reads, or carries it. *)
Inductive HttpData (A : Type) : Type :=
| DataAbsent
| FieldAbsent
| FieldList (items : list A).

Inductive HttpResult (A : Type) : Type :=
| Rejected
| Resolved (data : HttpData A).

Arguments DataAbsent {A}.
Arguments FieldAbsent {A}.
Arguments FieldList {A} items.
Arguments Rejected {A}.
Arguments Resolved {A} data.

(** The outside world of one request. *)
Record Env : Type := mkEnv {
  PIXABAY_API_KEY : option string;
  get_unsplash : string -> Z -> Z -> option string -> HttpResult UnsplashImage;
  get_pexels : string -> Z -> Z -> HttpResult PexelsImage;
  get_pixabay : string -> string -> Z -> Z -> HttpResult PixabayImage
}.

Definition startsWithHash (s : string) : bool :=
  match s with
  | String "#" _ => true
  | _ => false
  end.

(** An adapter's value: [None] is JavaScript's [undefined], which
    [response.data.results] evaluates to when the field is not there. *)
Definition searchUnsplash (env : Env) (query : string) (page perPage : Z)
  (color : option string) : option (list UnsplashImage) :=
  let colorParam :=
    match color with
    | Some (String c tl) => Some (String c tl)
    | _ => if startsWithHash query then None else Some query
    end in
  match get_unsplash env query page perPage colorParam with
  | Rejected => Some []                 (* catch *)
  | Resolved DataAbsent => Some []      (* reading [.results] throws; catch *)
  | Resolved FieldAbsent => None
  | Resolved (FieldList items) => Some items
  end.

Definition searchPexels (env : Env) (query : string) (page perPage : Z)
  : option (list PexelsImage) :=
  match get_pexels env query page perPage with
  | Rejected => Some []
  | Resolved DataAbsent => Some []
  | Resolved FieldAbsent => None
  | Resolved (FieldList items) => Some items
  end.

Definition searchPixabay (env : Env) (query : string) (page perPage : Z)
  : option (list PixabayImage) :=
  match PIXABAY_API_KEY env with
  | Some (String c tl) =>
      match get_pixabay env (String c tl) query page perPage with
      | Rejected => Some []
      | Resolved DataAbsent => Some []
      | Resolved FieldAbsent => Some []   (* [response.data.hits ?? []] *)
      | Resolved (FieldList items) => Some items
      end
  | _ => Some []                          (* key not configured *)
  end.

End Adapters.

(* ------------------------------------------------------------------ *)
(** ** /api/search-images *)

Module SearchRoute.

Import ImageApi Adapters.

Inductive Source : Type := unsplash | pexels | pixabay.

Definition Source_eqb (a b : Source) : bool :=
  match a, b with
  | unsplash, unsplash | pexels, pexels | pixabay, pixabay => true
  | _, _ => false
  end.

Record ColorSearchResultImage : Type := mkImage {
  id : string;
  urls : list string;
  user : string;
  description : option string;
  color : option string;
  dominantColors : DominantColors;
  source : Source
}.

Record SearchImagesRequestBody : Type := mkRequest {
  hexColors : string;
  page : option Z;
  threshold : option Q
}.

Record Sources : Type := mkSources {
  n_unsplash : nat;
  n_pexels : nat;
  n_pixabay : nat
}.

Record SearchImagesResponseBody : Type := mkBody {
  images : list ColorSearchResultImage;
  resp_page : Z;
  total : nat;
  sources : Sources
}.

Inductive Response : Type :=
| Json (body : SearchImagesResponseBody)
| Error (status : Z) (message : string).

(** One invocation of a provider adapter, with its arguments. *)
Inductive AdapterCall : Type :=
| CallUnsplash (query : string) (page perPage : Z) (color : option string)
| CallPexels (query : string) (page perPage : Z)
| CallPixabay (query : string) (page perPage : Z).

(** The [hasMatch] test of the three loops. *)
Definition hasMatch (targetRgbColors : list ColorRGB) (threshold : Q)
  (dominantColors : DominantColors) : bool :=
  List.existsb
    (fun imageHex =>
       let imageRgb := ColorUtils.hexToRgb (Some imageHex) in
       List.existsb
         (fun targetRgb => ColorUtils.isColorMatch targetRgb imageRgb threshold)
         targetRgbColors)
    (values dominantColors).

Definition idToString (n : Z) : string := NilZero.string_of_int (Z.to_int n).

Definition fromUnsplash (image : UnsplashImage) (d : DominantColors)
  : ColorSearchResultImage :=
  {| id := u_id image; urls := u_urls image; user := u_user image;
     description := u_description image; color := u_color image;
     dominantColors := d; source := unsplash |}.

Definition fromPexels (image : PexelsImage) (d : DominantColors)
  : ColorSearchResultImage :=
  {| id := idToString (p_id image); urls := p_src image;
     user := p_photographer image; description := None;
     color := p_avg_color image; dominantColors := d; source := pexels |}.

Definition fromPixabay (image : PixabayImage) (d : DominantColors)
  : ColorSearchResultImage :=
  {| id := idToString (x_id image); urls := [x_pageURL image];
     user := x_user image; description := Some (x_tags image);
     color := Some (vibrant d); dominantColors := d; source := pixabay |}.

(** One [for ... of] loop: build the palette, [continue] when there is
    none, push the unified image when a palette colour matches. *)
Definition process {A : Type} (build : A -> option DominantColors)
  (unify : A -> DominantColors -> ColorSearchResultImage)
  (targets : list ColorRGB) (threshold : Q) (provider : list A)
  : list ColorSearchResultImage :=
  List.flat_map
    (fun image =>
       match build image with
       | None => []
       | Some d => if hasMatch targets threshold d then [unify image d] else []
       end)
    provider.

(** A score is the radicand of the distance; [None] is [Infinity], the
    seed of the [reduce].  [Math.sqrt] is strictly increasing on the
    radicands that occur ([mathSqrt_lt]), so [Math.min] and the sign of
    [a.dist - b.dist] are decided by the radicands. *)
Definition Score : Type := option Z.

Definition score_min (a : Score) (d : Z) : Score :=
  match a with
  | None => Some d
  | Some m => Some (Z.min m d)
  end.

Definition score_leb (a c : Score) : bool :=
  match a, c with
  | _, None => true
  | None, Some _ => false
  | Some x, Some y => x <=? y
  end.

(** [dist] of [scoredImages]. *)
Definition score (targets : list ColorRGB) (img : ColorSearchResultImage)
  : Score :=
  let imgRgb := ColorUtils.hexToRgb (color img) in
  List.fold_left
    (fun min target => score_min min (ColorUtils.colorDistanceSq target imgRgb))
    targets None.

(** [Array.prototype.sort((a, b) => a.dist - b.dist)], which is stable. *)
Fixpoint insert (key : ColorSearchResultImage -> Score)
  (x : ColorSearchResultImage) (l : list ColorSearchResultImage)
  : list ColorSearchResultImage :=
  match l with
  | [] => [x]
  | y :: tl => if score_leb (key x) (key y) then x :: l
               else y :: insert key x tl
  end.

Definition sort (key : ColorSearchResultImage -> Score)
  (l : list ColorSearchResultImage) : list ColorSearchResultImage :=
  List.fold_right (insert key) [] l.

(** The order the comparator induces: [a] may stand before [c]. *)
Definition byScore (key : ColorSearchResultImage -> Score)
  (a c : ColorSearchResultImage) : Prop :=
  score_leb (key a) (key c) = true.

Definition count (s : Source) (l : list ColorSearchResultImage) : nat :=
  List.length (List.filter (fun img => Source_eqb (source img) s) l).

(** Destructuring defaults: [page = 1], [threshold = 80]. *)
Definition pageOf (request : SearchImagesRequestBody) : Z :=
  match page request with Some p => p | None => 1 end.

Definition thresholdOf (request : SearchImagesRequestBody) : Q :=
  match threshold request with Some t => t | None => 80%Q end.

(** [parsedColors.map(hexToRgb)]. *)
Definition targetColors (request : SearchImagesRequestBody) : list ColorRGB :=
  List.map (fun h => ColorUtils.hexToRgb (Some h))
           (ColorUtils.parseHexColors (hexColors request)).

(** [matchedImages] after the three loops, in arrival order. *)
Definition matched (targets : list ColorRGB) (threshold : Q)
  (us : list UnsplashImage) (ps : list PexelsImage) (xs : list PixabayImage)
  : list ColorSearchResultImage :=
  (process buildDominantColorsFromUnsplash fromUnsplash targets threshold us
   ++ process buildDominantColorsFromPexels fromPexels targets threshold ps
   ++ process buildDominantColorsFromPixabay fromPixabay targets threshold xs)%list.

(** [POST]: the response, and the adapter calls made on the way. *)
Definition POST (env : Env) (request : SearchImagesRequestBody)
  : Response * list AdapterCall :=
  let page := pageOf request in
  let threshold := thresholdOf request in
  let parsedColors := ColorUtils.parseHexColors (hexColors request) in
  match parsedColors with
  | [] => (Error 400 "No valid HEX colors provided", [])
  | primaryHex :: _ =>
      let colorName := ColorUtils.getColorName primaryHex in
      let unsplashColor := ColorUtils.getUnsplashColorParam primaryHex in
      let searchQuery := (colorName ++ " nature abstract")%string in
      let calls := [ CallUnsplash searchQuery page 20 unsplashColor;
                     CallPexels (colorName ++ " color")%string page 20;
                     CallPixabay colorName page 30 ] in
      let unsplashImages := searchUnsplash env searchQuery page 20 unsplashColor in
      let pexelsImages := searchPexels env (colorName ++ " color")%string page 20 in
      let pixabayImages := searchPixabay env colorName page 30 in
      let targetRgbColors := targetColors request in
      match unsplashImages, pexelsImages, pixabayImages with
      | Some us, Some ps, Some xs =>
          let matchedImages := matched targetRgbColors threshold us ps xs in
          let sorted := sort (score targetRgbColors) matchedImages in
          (Json {| images := sorted;
                   resp_page := page;
                   total := List.length sorted;
                   sources := {| n_unsplash := count unsplash matchedImages;
                                 n_pexels := count pexels matchedImages;
                                 n_pixabay := count pixabay matchedImages |} |},
           calls)
      | _, _, _ =>
          (* [for (const image of undefined)] throws; the outer [catch] *)
          (Error 500 "Internal server error", calls)
      end
  end.

End SearchRoute.

(* ------------------------------------------------------------------ *)
(** ** The palette page: role assignment from one base colour *)

Module PalettePage.

Import ColorUtils.

Inductive Brightness : Type := light | dark | mixed.

Record PaletteSlots : Type := mkSlots {
  base : string;
  background : string;
  illustration : string;
  accent : string;
  textHeading : string;
  textBody : string
}.

(** [l[n] || d]. *)
Definition nth_or (l : list string) (n : nat) (d : string) : string :=
  or_default (List.nth_error l n) d.

(** Step 3: the background for a brightness preference. *)
Definition backgroundFor (vibeBase : string) (vibe : Vibe)
  (brightness : Brightness) : string :=
  let '(h, s, _) := TinyColor.toHsl (TinyColor.of_string vibeBase) in
  match brightness with
  | dark =>
      TinyColor.toHexString (TinyColor.of_hsl h (Qmin s (2 # 10)) (8 # 100))
  | mixed =>
      match vibe with
      | retro => "#FDF8F1"
      | minimal => "#F3F4F6"
      | _ => "#F9FAFB"
      end
  | light =>
      TinyColor.toHexString (TinyColor.of_hsl h (Qmin s (1 # 10)) (98 # 100))
  end.

(** The heading and body candidates of step 5, from the 8-step ramps. *)
Definition headingCandidate (vibeBase : string) (isBgDark : bool) : string :=
  if isBgDark then nth_or (generateTints vibeBase 8) 7 "#FFFFFF"
  else nth_or (generateShades vibeBase 8) 7 "#111827".

Definition bodyCandidate (vibeBase : string) (isBgDark : bool) : string :=
  if isBgDark then nth_or (generateTints vibeBase 8) 5 "#E5E7EB"
  else nth_or (generateShades vibeBase 8) 5 "#374151".

Definition applyFromBase (hex : string) (vibe : Vibe)
  (brightness : Brightness) (threshold : R) : PaletteSlots :=
  let vibeBase := applyVibeToPalette hex vibe in
  let harmony := generateHarmony vibeBase in
  let tints := generateTints vibeBase 8 in
  let background := backgroundFor vibeBase vibe brightness in
  let isBgDark := TinyColor.isDark (TinyColor.of_string background) in
  let illustration := if isBgDark then nth_or tints 2 vibeBase else vibeBase in
  let accentCandidate :=
    match vibe with
    | playful => nth_or (h_triadic harmony) 1 (h_complementary harmony)
    | _ => h_complementary harmony
    end in
  let accent := ensureContrast accentCandidate background (Rmax threshold 3) in
  {| base := hex;
     background := background;
     illustration := illustration;
     accent := accent;
     textHeading :=
       ensureContrast (headingCandidate vibeBase isBgDark) background threshold;
     textBody :=
       ensureContrast (bodyCandidate vibeBase isBgDark) background threshold |}.

End PalettePage.

(* ------------------------------------------------------------------ *)
(** ** /api/generate-palette

    The request body's three fields are modelled as optional strings
    ([None]: the field is absent).  The route's own [hexToRgb], [rgbToHex],
    [adjustBrightness] and [adjustSaturation] are textually those of
    [lib/image-api]; the definitions of [ImageApi] stand for both. *)

Module GeneratePalette.

(** tinycolor's [analogous(3)]: with [results = 3] and 30 slices the
    step is 12 degrees and the start is [(3 * 12) >> 1 = 18] degrees back;
    the loop then pushes the hues 6 degrees below and 6 degrees above. *)
Definition analogous3 (c : TinyColor.t) : list TinyColor.t :=
  let '(h, s, l) := TinyColor.toHsl c in
  let h0 := TinyColor.Qfmod (h - 18 + 720)%Q 360 in
  let h1 := TinyColor.Qfmod (h0 + 12)%Q 360 in
  let h2 := TinyColor.Qfmod (h1 + 12)%Q 360 in
  [ c; TinyColor.of_hsl h1 s l; TinyColor.of_hsl h2 s l ].

(** [generateHarmony(baseHex).analogous]. *)
Definition harmonyAnalogous (baseHex : string) : list string :=
  List.map TinyColor.toHexString (analogous3 (TinyColor.of_string baseHex)).

(** The own keys of [industryColors]. *)
Definition industryColors (industry : string) : option (list string) :=
  if String.eqb industry "tech"
  then Some ["#667eea"; "#764ba2"; "#00d4ff"; "#5f72bd"]
  else if String.eqb industry "fashion"
  then Some ["#ff6b9d"; "#c44569"; "#f8b500"; "#3c40c6"]
  else if String.eqb industry "food"
  then Some ["#ff6348"; "#ffa502"; "#26de81"; "#fc5c65"]
  else if String.eqb industry "health"
  then Some ["#45aaf2"; "#4bcffa"; "#20bf6b"; "#0fb9b1"]
  else if String.eqb industry "finance"
  then Some ["#2c3e50"; "#3498db"; "#16a085"; "#2980b9"]
  else if String.eqb industry "education"
  then Some ["#f39c12"; "#e67e22"; "#3498db"; "#9b59b6"]
  else if String.eqb industry "entertainment"
  then Some ["#e74c3c"; "#fd79a8"; "#fdcb6e"; "#6c5ce7"]
  else if String.eqb industry "travel"
  then Some ["#00b894"; "#0984e3"; "#fdcb6e"; "#00cec9"]
  else if String.eqb industry "real-estate"
  then Some ["#2d3436"; "#636e72"; "#b2bec3"; "#74b9ff"]
  else if String.eqb industry "sports"
  then Some ["#00b894"; "#ff7675"; "#fdcb6e"; "#74b9ff"]
  else None.

(** The own keys of [paletteNames]. *)
Definition paletteNames (industry : string) : option (list string) :=
  if String.eqb industry "tech"
  then Some ["Digital Dream"; "Future Forward"; "Cyber Pulse";
             "Innovation Wave"]
  else if String.eqb industry "fashion"
  then Some ["Runway Ready"; "Chic Essence"; "Style Statement";
             "Vogue Vision"]
  else if String.eqb industry "food"
  then Some ["Culinary Delight"; "Taste Sensation"; "Fresh Flavors";
             "Gourmet Palette"]
  else if String.eqb industry "health"
  then Some ["Wellness Wave"; "Vital Energy"; "Health Harmony";
             "Pure Balance"]
  else if String.eqb industry "finance"
  then Some ["Trust Foundation"; "Wealth Wisdom"; "Secure Growth";
             "Financial Focus"]
  else if String.eqb industry "education"
  then Some ["Learning Light"; "Knowledge Path"; "Academic Excellence";
             "Bright Minds"]
  else if String.eqb industry "entertainment"
  then Some ["Show Stopper"; "Entertainment Elite"; "Stage Lights";
             "Creative Spark"]
  else if String.eqb industry "travel"
  then Some ["Wanderlust"; "Journey Colors"; "Adventure Awaits";
             "Globe Trotter"]
  else if String.eqb industry "real-estate"
  then Some ["Property Pride"; "Home Haven"; "Estate Elegance";
             "Foundation Forte"]
  else if String.eqb industry "sports"
  then Some ["Victory Vibe"; "Athletic Energy"; "Championship Colors";
             "Team Spirit"]
  else None.

(** Property names every object literal inherits from [Object.prototype]:
    looked up in [industryColors] they yield a function, not a list, and
    the route's behaviour on them is outside this model. *)
Definition inherited (key : string) : bool :=
  List.existsb (String.eqb key)
    [ "constructor"; "__proto__"; "hasOwnProperty"; "isPrototypeOf";
      "propertyIsEnumerable"; "toLocaleString"; "toString"; "valueOf";
      "__defineGetter__"; "__defineSetter__"; "__lookupGetter__";
      "__lookupSetter__" ].

(** The key an optional field denotes: [obj[undefined]] reads the key
    ["undefined"]. *)
Definition keyOf (field : option string) : string :=
  match field with
  | Some k => k
  | None => "undefined"
  end.

(** [table[industry] || table.tech]. *)
Definition lookupOrTech (table : string -> option (list string))
  (industry : option string) : list string :=
  match table (keyOf industry) with
  | Some l => l
  | None => match table "tech" with Some l => l | None => [] end
  end.

Definition shiftTowardsGreen (hex : string) : string :=
  let rgb := ImageApi.hexToRgb hex in
  ImageApi.rgbToHex (Z.max 0 (r rgb - 10)) (Z.min 255 (g rgb + 20))
                    (Z.max 0 (b rgb - 10)).

(** The [switch (harmony)]: the colours before the vibe is applied.  The
    harmony arrays [analogous] and [triadic] have three entries each, so
    the indexed reads are defined. *)
Definition harmonyColors (harmony : option string) (baseColor : string)
  : list string :=
  let h := ColorUtils.generateHarmony baseColor in
  let analogous := harmonyAnalogous baseColor in
  let triadic := ColorUtils.h_triadic h in
  let chosen (name : string) :=
    match harmony with
    | Some v => String.eqb v name
    | None => false
    end in
  if chosen "complementary" then
    [ baseColor; ColorUtils.h_complementary h;
      List.nth 0 analogous ""; List.nth 0 triadic ""; List.nth 1 triadic "" ]
  else if chosen "analogous" then
    (baseColor :: analogous ++ ColorUtils.generateShades baseColor 2)%list
  else if chosen "triadic" then
    (baseColor :: triadic ++ ColorUtils.generateTints baseColor 2)%list
  else if chosen "tetradic" then
    [ baseColor; ColorUtils.h_complementary h;
      List.nth 0 triadic ""; List.nth 1 triadic ""; List.nth 0 analogous "" ]
  else if chosen "monochromatic" then
    (baseColor :: ColorUtils.generateShades baseColor 2
       ++ ColorUtils.generateTints baseColor 2)%list
  else (baseColor :: ColorUtils.generateShades baseColor 4)%list.

(** The [switch (vibe)] inside [colors.map], guarded by [if (vibe)]: an
    absent or empty vibe changes nothing. *)
Definition applyVibe (vibe : option string) (c : string) : string :=
  match vibe with
  | None => c
  | Some v =>
      if String.eqb v "vintage" then ImageApi.adjustSaturation c (-30)
      else if String.eqb v "playful" then ImageApi.adjustSaturation c 20
      else if String.eqb v "professional"
      then ImageApi.adjustSaturation (ImageApi.adjustBrightness c (-5)) (-20)
      else if String.eqb v "minimalist"
      then ImageApi.adjustSaturation (ImageApi.adjustBrightness c 10) (-40)
      else if String.eqb v "bold" then ImageApi.adjustSaturation c 40
      else if String.eqb v "luxury"
      then ImageApi.adjustBrightness (ImageApi.adjustSaturation c (-10)) (-15)
      else if String.eqb v "eco" then shiftTowardsGreen c
      else c
  end.

Record Palette : Type := mkPalette {
  id : string;
  name : string;
  colors : list string;
  industry : option string;
  vibe : option string;
  harmony : option string
}.

Record Request : Type := mkRequest {
  req_industry : option string;
  req_vibe : option string;
  req_harmony : option string
}.

(** One turn of the loop, for [i] in 0..3; [now] is the clock reading
    [Date.now()] gives in that turn.  Both tables hold four entries per
    key, so [i % length] is [i]. *)
Definition paletteAt (now : nat -> Z) (request : Request) (i : nat) : Palette :=
  let baseColors := lookupOrTech industryColors (req_industry request) in
  let baseColor := List.nth (i mod List.length baseColors) baseColors "" in
  let colors := List.map (applyVibe (req_vibe request))
                         (harmonyColors (req_harmony request) baseColor) in
  let nameList := lookupOrTech paletteNames (req_industry request) in
  {| id := "palette-" ++ SearchRoute.idToString (now i) ++ "-"
           ++ SearchRoute.idToString (Z.of_nat i);
     name := List.nth (i mod List.length nameList) nameList "";
     colors := List.firstn 5 colors;
     industry := req_industry request;
     vibe := req_vibe request;
     harmony := req_harmony request |}.

(** [POST]: the palettes of the 200 response; [None] when the industry
    names an inherited property, which the model does not cover. *)
Definition POST (now : nat -> Z) (request : Request) : option (list Palette) :=
  if inherited (keyOf (req_industry request)) then None
  else Some (List.map (paletteAt now request) (List.seq 0 4)).

End GeneratePalette.

(* ------------------------------------------------------------------ *)
(** ** The design document's vocabulary, for comparison with the code *)

Module Spec.

Import ImageApi.

(** The value of a hexadecimal digit: its place among the sixteen
    digits, in either case. *)
Fixpoint place (c : ascii) (digits : string) (i : Z) : option Z :=
  match digits with
  | EmptyString => None
  | String d tl => if Ascii.eqb c d then Some i else place c tl (i + 1)
  end.

Definition hexValue (c : ascii) : option Z :=
  match place c "0123456789abcdef" 0 with
  | Some v => Some v
  | None => place c "ABCDEF" 10
  end.

(** "Color: a normalized 6-hex-digit RGB value ([#RRGGBB])", read as its
    three components; [None] for any other string. *)
Definition rgbOfHex (s : string) : option ColorRGB :=
  match s with
  | String "#" (String r1 (String r2 (String g1 (String g2 (String b1
      (String b2 EmptyString)))))) =>
      match hexValue r1, hexValue r2, hexValue g1, hexValue g2,
            hexValue b1, hexValue b2 with
      | Some x1, Some x2, Some y1, Some y2, Some z1, Some z2 =>
          Some (mkRGB (16 * x1 + x2) (16 * y1 + y2) (16 * z1 + z2))
      | _, _, _, _, _, _ => None
      end
  | _ => None
  end.

Definition isColor (s : string) : Prop := exists c, rgbOfHex s = Some c.

(** "distance(a, b): Euclidean distance in RGB space", a real number. *)
Definition euclid (a c : ColorRGB) : R :=
  sqrt (Rsqr (IZR (r a) - IZR (r c)) + Rsqr (IZR (g a) - IZR (g c))
        + Rsqr (IZR (b a) - IZR (b c))).

(** "At least one of its derived-palette colours is within [threshold]
    Euclidean RGB distance of at least one requested swatch." *)
Definition paletteWithin (swatches : list string) (threshold : R)
  (d : DominantColors) : Prop :=
  exists p w c s,
    In p (values d) /\ In w swatches
    /\ rgbOfHex p = Some c /\ rgbOfHex w = Some s
    /\ (euclid s c <= threshold)%R.

(** The unit roundoff of double precision, [2^-53]. *)
Definition roundoff : R := (/ IZR (2 ^ 53))%R.

(** "Retained iff a palette colour is within [t] of a swatch", as far as
    a distance computed in double precision can decide it: retained when
    a colour is within [t] less one rounding, within [t] plus one rounding
    when retained, and exactly "iff within [t]" at every integer [t]. *)
Definition retainedIffWithin (swatches : list string) (t : Q)
  (retained : Prop) (d : DominantColors) : Prop :=
  (paletteWithin swatches (Q2R t * (1 - roundoff)) d -> retained)
  /\ (retained -> paletteWithin swatches (Q2R t * (1 + roundoff)) d)
  /\ (forall z : Z, t == inject_Z z ->
        (retained <-> paletteWithin swatches (Q2R t) d)).

(** The minimum Euclidean distance from a colour to the swatches is [x]. *)
Definition nearestSwatch (swatches : list string) (c : ColorRGB) (x : R)
  : Prop :=
  (forall w s, In w swatches -> rgbOfHex w = Some s -> (x <= euclid s c)%R)
  /\ (exists w s, In w swatches /\ rgbOfHex w = Some s /\ x = euclid s c).

(** A hexadecimal-digit character, and a run of them. *)
Definition isHexDigit (c : ascii) : bool :=
  match hexValue c with
  | Some _ => true
  | None => false
  end.

Fixpoint hexRun (s : string) : bool :=
  match s with
  | EmptyString => true
  | String c tl => isHexDigit c && hexRun tl
  end.

(** A separator of tokens: neither a hexadecimal digit nor [#]. *)
Definition separator (c : ascii) : bool :=
  negb (isHexDigit c) && negb (Ascii.eqb c "#").

(** A text before a token: empty, or ending in a separator. *)
Definition endsToken (before : string) : Prop :=
  before = EmptyString
  \/ exists t c, before = (t ++ String c EmptyString)%string
                 /\ separator c = true.

(** A text after a token: empty, or starting with a character that is
    not a hexadecimal digit. *)
Definition startsFresh (after : string) : Prop :=
  match after with
  | EmptyString => True
  | String c _ => isHexDigit c = false
  end.

(** "The minimum distance ... recomputed across all of its palette
    colours against all swatches, taking the global minimum", as a
    radicand; [None] when there is no swatch. *)
Definition paletteScore (swatches : list ColorRGB) (d : DominantColors)
  : SearchRoute.Score :=
  List.fold_left
    (fun acc c =>
       List.fold_left
         (fun acc' s =>
            SearchRoute.score_min acc'
              (ColorUtils.colorDistanceSq s (ColorUtils.hexToRgb (Some c))))
         swatches acc)
    (values d) None.

(** The colour [k] unit steps away from [c]: lightened when the
    background is dark, darkened otherwise. *)
Fixpoint stepped (isBgDark : bool) (k : nat) (c : TinyColor.t) : TinyColor.t :=
  match k with
  | O => c
  | S k' =>
      stepped isBgDark k'
        (if isBgDark then TinyColor.lighten c 1 else TinyColor.darken c 1)
  end.

(** The contrast of colour [c] against [bg] is below the target. *)
Definition below (bg : string) (targetRatio : R) (c : TinyColor.t) : Prop :=
  (TinyColor.readability (TinyColor.toHexString c) bg < targetRatio)%R.

(** The HSL lightness tinycolor computes for a colour. *)
Definition lightness (c : TinyColor.t) : Q := snd (TinyColor.toHsl c).

(** The channels a constructor leaves behind lie in [0, 255]. *)
Definition settled (c : TinyColor.t) : Prop :=
  (0 <= TinyColor._r c <= 255 /\ 0 <= TinyColor._g c <= 255
   /\ 0 <= TinyColor._b c <= 255)%Q.

(** Channel bounds: every channel lies in [[lo, up]], one of them is at
    least [hi], one at most [low]. *)
Definition chanBounds (c : TinyColor.t) (lo up hi low : Q) : Prop :=
  settled c
  /\ (lo <= TinyColor._r c /\ lo <= TinyColor._g c /\ lo <= TinyColor._b c)%Q
  /\ (TinyColor._r c <= up /\ TinyColor._g c <= up /\ TinyColor._b c <= up)%Q
  /\ (hi <= TinyColor._r c \/ hi <= TinyColor._g c \/ hi <= TinyColor._b c)%Q
  /\ (TinyColor._r c <= low \/ TinyColor._g c <= low \/ TinyColor._b c <= low)%Q.

(** What the design document promises of a text slot: the target ratio
    when some colour within 100 unit steps of the candidate (the candidate
    included) reaches it, and otherwise a ratio no lower than that of the
    candidate and of every colour on those 100 steps. *)
Definition bestEffort (isBgDark : bool) (candidate bg : string)
  (targetRatio : R) (slot : string) : Prop :=
  let reached (k : nat) : R :=
    TinyColor.readability
      (TinyColor.toHexString
         (stepped isBgDark k
            (TinyColor.clone (TinyColor.of_string candidate)))) bg in
  let reachable : Prop :=
    (TinyColor.readability candidate bg >= targetRatio)%R
    \/ exists k, (k <= 100)%nat /\ (reached k >= targetRatio)%R in
  (reachable -> (TinyColor.readability slot bg >= targetRatio)%R)
  /\ (~ reachable ->
      (TinyColor.readability candidate bg <= TinyColor.readability slot bg)%R
      /\ forall k, (k <= 100)%nat ->
           (reached k <= TinyColor.readability slot bg)%R).

(** A base Color: the provider's field, validated and normalised. *)
Definition baseColor (field : option string) : option string :=
  match field with
  | Some s => ColorUtils.normalizeHex s
  | None => None
  end.

End Spec.

(* ------------------------------------------------------------------ *)
(** ** Byte-wise checks, decided by evaluation over the 256 channel values *)

Module Checks.

(** The two-digit print of a channel reads back as the channel. *)
Definition hexPairOk (z : Z) : bool :=
  match Hex.pad2 (Hex.toString16 z) with
  | String c1 (String c2 EmptyString) =>
      Hex.is_hex_digit c1 && Hex.is_hex_digit c2
      && (Hex.parseInt16 (String c1 (String c2 "")) =? z)
  | _ => false
  end.

(** The channel tinycolor stores for an integer input, after [rgbToRgb]
    and the constructor. *)
Definition storedChannel (z : Z) : Q :=
  TinyColor.settle (TinyColor.bound01 (TinyColor.Num (inject_Z z)) 255 * 255).

Definition storedChannelOk (z : Z) : bool :=
  Qle_bool (storedChannel z) (inject_Z z)
  && Qle_bool (inject_Z z) (storedChannel z).

Definition channelValues : list Z := List.map Z.of_nat (List.seq 0 256).

End Checks.

(* ------------------------------------------------------------------ *)
(** ** Sample provider data *)

Module Samples.

Import ImageApi Adapters SearchRoute.

Definition cyanImage : UnsplashImage :=
  mkUnsplash "a1" [] "ann" None (Some "#00ffff").

Definition redImage : UnsplashImage :=
  mkUnsplash "b2" [] "bob" None (Some "#ff3030").

Definition colourlessImage : UnsplashImage :=
  mkUnsplash "c3" [] "cy" None None.

Definition pexelsRed : PexelsImage := mkPexels 7 [] "dee" (Some "#f01010").

Definition pixabayAny : PixabayImage := mkPixabay 9 "https://p/9" "sea" "eve".

(** An environment whose providers answer the same way to every query. *)
Definition constEnv (key : option string) (u : HttpResult UnsplashImage)
  (p : HttpResult PexelsImage) (x : HttpResult PixabayImage) : Env :=
  mkEnv key (fun _ _ _ _ => u) (fun _ _ _ => p) (fun _ _ _ _ => x).

Definition request (text : string) : SearchImagesRequestBody :=
  mkRequest text None None.

(** The double nearest to the square root of 4608, which lies just
    below it: 67.88225099390856. *)
Definition boundaryThreshold : Q := 4776788754394329 # 70368744177664.

Definition boundaryRequest : SearchImagesRequestBody :=
  mkRequest "#FF0000" None (Some boundaryThreshold).

(** The body of a response; empty for an error. *)
Definition bodyOf (response : Response) : SearchImagesResponseBody :=
  match response with
  | Json body => body
  | Error _ _ => mkBody [] 0 0 (mkSources 0 0 0)
  end.

(** Unsplash answers 200 with a body that has no [results] field. *)
Definition unsplashMalformedEnv : Env :=
  constEnv (Some "key") (Resolved FieldAbsent)
           (Resolved (FieldList [pexelsRed]))
           (Resolved (FieldList [pixabayAny])).

(** The same malformed body, from Pixabay instead. *)
Definition pixabayMalformedEnv : Env :=
  constEnv (Some "key") (Resolved (FieldList [redImage]))
           (Resolved (FieldList [pexelsRed]))
           (Resolved FieldAbsent).

(** Unsplash fails at the transport level. *)
Definition unsplashDownEnv : Env :=
  constEnv (Some "key") Rejected
           (Resolved (FieldList [pexelsRed]))
           (Resolved (FieldList [pixabayAny])).

(** Only Unsplash answers, with an image that has no colour field. *)
Definition colourlessEnv : Env :=
  constEnv None (Resolved (FieldList [colourlessImage])) Rejected Rejected.

(** Only Unsplash answers, with a cyan and a red image. *)
Definition cyanRedEnv : Env :=
  constEnv None (Resolved (FieldList [cyanImage; redImage])) Rejected Rejected.

(** All three providers answer, each with one image. *)
Definition fullEnv : Env :=
  constEnv (Some "key") (Resolved (FieldList [redImage]))
           (Resolved (FieldList [pexelsRed]))
           (Resolved (FieldList [pixabayAny])).

End Samples.

(* ------------------------------------------------------------------ *)
(** * Properties *)

(** ** Sample evaluations *)

Example rgbToHex_ex : ImageApi.rgbToHex 255 0 10 = "#ff000a".
Proof. reflexivity. Qed.

Example palette_ex :
  ImageApi.values (ImageApi.buildDerivedPalette "#00ffff")
  = ["#00ffff"; "#00b3b3"; "#00ffff"; "#33e6e6"; "#24a1a1"; "#42ffff";
     "#ff0000"; "#00ffff"; "#00d9d9"].
Proof. vm_compute. reflexivity. Qed.

Example tiny_lighten_ex :
  TinyColor.toHexString (TinyColor.lighten (TinyColor.of_string "#8B5CF6") 10)
  = "#ad8cf9".
Proof. vm_compute. reflexivity. Qed.

Example parse_ex1 :
  ColorUtils.parseHexColors "#FF5733 #000 12345 #abcd zz 1234567890"
  = ["#FF5733"; "#000000"; "#123456"].
Proof. vm_compute. reflexivity. Qed.

Example shades_ex :
  ColorUtils.generateTints "#8B5CF6" 3 = ["#b496f9"; "#ded0fc"; "#ffffff"].
Proof. vm_compute. reflexivity. Qed.

Example vibe_ex : ColorUtils.applyVibeToPalette "#8B5CF6" ColorUtils.minimal = "#b298ed".
Proof. vm_compute. reflexivity. Qed.

Example background_ex :
  PalettePage.backgroundFor "#b298ed" ColorUtils.minimal PalettePage.dark = "#131018".
Proof. vm_compute. reflexivity. Qed.

(* ------------------------------------------------------------------ *)
(** ** Swatch parsing *)

Section HexRuns.

Import ColorUtils.

Lemma hex_digit_not_space (c : ascii) :
  Hex.is_hex_digit c = true -> TinyColor.is_space c = false.
Proof.
  destruct c as [[] [] [] [] [] [] [] []]; cbv; intro H;
    first [ reflexivity | discriminate H ].
Qed.

Lemma stripHash_hex (c : ascii) (tl : string) :
  Hex.is_hex_digit c = true -> Hex.stripHash (String c tl) = String c tl.
Proof.
  destruct c as [[] [] [] [] [] [] [] []]; intro H;
    first [ reflexivity | discriminate H ].
Qed.

Lemma stripHash_all_hex (s : string) :
  Hex.all_hex s = true -> Hex.stripHash s = s.
Proof.
  destruct s as [| c tl]; [ reflexivity | ].
  simpl Hex.all_hex. intro H. apply andb_prop in H.
  apply stripHash_hex, H.
Qed.

Lemma match_at_hex (c : ascii) (tl : string) :
  Hex.is_hex_digit c = true ->
  match_at (String c tl)
  = (if (3 <=? String.length (take_hex 6 (String c tl)))%nat
     then Some (take_hex 6 (String c tl)) else None).
Proof.
  destruct c as [[] [] [] [] [] [] [] []]; intro H;
    first [ reflexivity | discriminate H ].
Qed.

Lemma take_hex_all (n : nat) (s : string) :
  Hex.all_hex s = true -> (String.length s <= n)%nat -> take_hex n s = s.
Proof.
  revert s. induction n as [| n IH]; intros [| c tl] Hh Hl; simpl in *;
    try reflexivity; try lia.
  apply andb_prop in Hh. destruct Hh as [Hc Ht].
  rewrite Hc. f_equal. apply IH; [ exact Ht | lia ].
Qed.

Lemma scan_skip_all (k : nat) (s : string) :
  (String.length s <= k)%nat -> scan k s = [].
Proof.
  revert k. induction s as [| c tl IH]; intros k Hl; [ reflexivity | ].
  simpl in Hl. destruct k as [| k]; [ lia | ].
  simpl. apply IH. lia.
Qed.

(** A run of three to six hexadecimal digits is one token. *)
Lemma match_all_run (s : string) :
  Hex.all_hex s = true -> (3 <= String.length s <= 6)%nat ->
  match_all s = [s].
Proof.
  intros Hh Hl. destruct s as [| c tl]; [ simpl in Hl; lia | ].
  unfold match_all. unfold scan; fold scan.
  pose proof Hh as Hh'. simpl Hex.all_hex in Hh'. apply andb_prop in Hh'.
  rewrite (match_at_hex c tl (proj1 Hh')).
  rewrite (take_hex_all 6 (String c tl) Hh) by lia.
  replace (3 <=? String.length (String c tl))%nat with true
    by (symmetry; apply Nat.leb_le; lia).
  f_equal. apply scan_skip_all. simpl. lia.
Qed.

Lemma all_hex_list (s : string) :
  Hex.all_hex s = true <->
  Forall (fun c => Hex.is_hex_digit c = true) (list_ascii_of_string s).
Proof.
  induction s as [| c tl IH]; simpl.
  - split; [ constructor | reflexivity ].
  - rewrite andb_true_iff, IH. split.
    + intros [H1 H2]. constructor; assumption.
    + intro H. inversion H; subst. split; assumption.
Qed.

Lemma trimLeft_all_hex (s : string) :
  Hex.all_hex s = true -> TinyColor.trimLeft s = s.
Proof.
  destruct s as [| c tl]; [ reflexivity | ].
  simpl. intro H. apply andb_prop in H.
  rewrite (hex_digit_not_space c (proj1 H)). reflexivity.
Qed.

Lemma rev_string_all_hex (s : string) :
  Hex.all_hex s = true -> Hex.all_hex (TinyColor.rev_string s) = true.
Proof.
  rewrite !all_hex_list. unfold TinyColor.rev_string.
  rewrite list_ascii_of_string_of_list_ascii. apply Forall_rev.
Qed.

Lemma rev_string_involutive (s : string) :
  TinyColor.rev_string (TinyColor.rev_string s) = s.
Proof.
  unfold TinyColor.rev_string.
  rewrite list_ascii_of_string_of_list_ascii, rev_involutive.
  apply string_of_list_ascii_of_string.
Qed.

Lemma trim_all_hex (s : string) :
  Hex.all_hex s = true -> TinyColor.trim s = s.
Proof.
  intro H. unfold TinyColor.trim.
  rewrite (trimLeft_all_hex s H).
  rewrite (trimLeft_all_hex _ (rev_string_all_hex s H)).
  apply rev_string_involutive.
Qed.

Lemma normalizeHex_run (s : string) :
  Hex.all_hex s = true ->
  normalizeHex s
  = if (String.length s =? 3)%nat
    then Some (String "#" (String.concat ""
                 (List.map TinyColor.twice (list_ascii_of_string s))))
    else if (String.length s =? 6)%nat then Some (String "#" s) else None.
Proof.
  intro H. unfold normalizeHex.
  rewrite (trim_all_hex s H), (stripHash_all_hex s H), H. reflexivity.
Qed.

(** *** Tokens in free text *)

Lemma isHexDigit_eq (c : ascii) : Spec.isHexDigit c = Hex.is_hex_digit c.
Proof. destruct c as [[] [] [] [] [] [] [] []]; reflexivity. Qed.

Lemma hexRun_eq (s : string) : Spec.hexRun s = Hex.all_hex s.
Proof.
  induction s as [| c tl IH]; [ reflexivity | ].
  cbn [Spec.hexRun Hex.all_hex]. rewrite isHexDigit_eq, IH. reflexivity.
Qed.

Lemma separator_spec (c : ascii) :
  Spec.separator c = true ->
  Hex.is_hex_digit c = false /\ forall rest, match_at (String c rest) = None.
Proof.
  destruct c as [[] [] [] [] [] [] [] []]; intro H; cbv in H;
    first [ discriminate H | split; [ reflexivity | intro rest; reflexivity ] ].
Qed.

Lemma append_nil_r (s : string) : (s ++ "")%string = s.
Proof. induction s as [| c tl IH]; [ reflexivity | ]. simpl. rewrite IH. reflexivity. Qed.

Lemma append_assoc (s t u : string) :
  ((s ++ t) ++ u)%string = (s ++ (t ++ u))%string.
Proof. induction s as [| c tl IH]; [ reflexivity | ]. simpl. rewrite IH. reflexivity. Qed.

Lemma take_hex_length (n : nat) (u : string) :
  (String.length (take_hex n u) <= String.length u)%nat.
Proof.
  revert u. induction n as [| n IH]; intros [| c tl];
    cbn [take_hex String.length]; try lia.
  destruct (Hex.is_hex_digit c); cbn [String.length];
    [ specialize (IH tl) | ]; lia.
Qed.

(** A token is at least three characters, all taken from the text. *)
Lemma match_at_length (s tok : string) :
  match_at s = Some tok ->
  (3 <= String.length tok <= String.length s)%nat.
Proof.
  assert (Hb : forall u,
             (if (3 <=? String.length (take_hex 6 u))%nat
              then Some (take_hex 6 u) else None) = Some tok ->
             (3 <= String.length tok <= String.length u)%nat).
  { intros u. destruct (3 <=? String.length (take_hex 6 u))%nat eqn:E;
      [ | discriminate ].
    intro H. assert (Et : tok = take_hex 6 u) by congruence.
    rewrite Et. apply Nat.leb_le in E.
    pose proof (take_hex_length 6 u). lia. }
  destruct s as [| c tl]; [ simpl; discriminate | ].
  destruct (Ascii.eqb c "#") eqn:Ec.
  - apply Ascii.eqb_eq in Ec. subst c. cbn [match_at].
    destruct (3 <=? String.length (take_hex 6 tl))%nat eqn:E; [ | discriminate ].
    intro H. assert (Et : tok = String "#" (take_hex 6 tl)) by congruence.
    rewrite Et. apply Nat.leb_le in E.
    pose proof (take_hex_length 6 tl). cbn [String.length]. lia.
  - intro H. apply Hb.
    rewrite <- H. clear H.
    destruct c as [[] [] [] [] [] [] [] []]; try reflexivity.
    discriminate Ec.
Qed.

(** What follows a character that is not a hexadecimal digit does not
    affect the digits taken before it. *)
Lemma take_hex_app (n : nat) (u rest : string) (c : ascii) :
  Hex.is_hex_digit c = false ->
  take_hex n (u ++ String c rest) = take_hex n u.
Proof.
  intro Hc. revert u. induction n as [| n IH]; intros [| a tl];
    cbn [append take_hex]; try reflexivity.
  - rewrite Hc. reflexivity.
  - rewrite IH. reflexivity.
Qed.

Lemma match_at_app (a : ascii) (tl rest : string) (c : ascii) :
  Hex.is_hex_digit c = false ->
  match_at (String a (tl ++ String c rest)) = match_at (String a tl).
Proof.
  intro Hc.
  pose proof (take_hex_app 6 tl rest c Hc) as E1.
  pose proof (take_hex_app 6 (String a tl) rest c Hc) as E2.
  cbn [append] in E2.
  destruct a as [[] [] [] [] [] [] [] []]; cbn [match_at];
    rewrite ?E1, ?E2; reflexivity.
Qed.

Lemma scan_cons_0 (a : ascii) (s : string) :
  scan 0 (String a s)
  = match match_at (String a s) with
    | Some tok => tok :: scan (String.length tok - 1) s
    | None => scan 0 s
    end.
Proof. reflexivity. Qed.

(** Scanning a text up to a character that is not a hexadecimal digit,
    then from that character on. *)
Lemma scan_app (rest : string) (c : ascii) :
  Hex.is_hex_digit c = false ->
  forall (u : string) (k : nat), (k <= String.length u)%nat ->
    scan k (u ++ String c rest) = (scan k u ++ scan 0 (String c rest))%list.
Proof.
  intro Hc. induction u as [| a tl IH]; intros k Hk.
  - cbn [String.length] in Hk. assert (k = 0%nat) by lia. subst k. reflexivity.
  - cbn [append]. destruct k as [| k].
    + rewrite !scan_cons_0, (match_at_app a tl rest c Hc).
      destruct (match_at (String a tl)) as [tok |] eqn:E.
      * apply match_at_length in E. cbn [String.length] in E.
        rewrite IH by lia. reflexivity.
      * apply IH. lia.
    + cbn [String.length] in Hk. change (scan (S k) (String a (tl ++ String c rest)))
        with (scan k (tl ++ String c rest)).
      change (scan (S k) (String a tl)) with (scan k tl).
      apply IH. lia.
Qed.

Lemma filter_some_app {A : Type} (l1 l2 : list (option A)) :
  filter_some (l1 ++ l2) = (filter_some l1 ++ filter_some l2)%list.
Proof.
  induction l1 as [| [a |] tl IH]; cbn [filter_some app];
    [ reflexivity | rewrite IH; reflexivity | exact IH ].
Qed.

(** A run of three to six hexadecimal digits standing free in a text is
    one token, between the tokens of what precedes and of what follows. *)
Lemma match_all_token (before s after : string) :
  Spec.endsToken before -> Spec.startsFresh after ->
  Hex.all_hex s = true -> (3 <= String.length s <= 6)%nat ->
  match_all (before ++ s ++ after)
  = (match_all before ++ s :: match_all after)%list.
Proof.
  intros Hb Ha Hs Hl. unfold match_all.
  assert (Hrun : scan 0 (s ++ after) = s :: scan 0 after).
  { destruct after as [| c rest].
    - rewrite append_nil_r. apply (match_all_run s Hs Hl).
    - cbn [Spec.startsFresh] in Ha. rewrite isHexDigit_eq in Ha.
      rewrite (scan_app rest c Ha s 0) by lia.
      change (scan 0 s) with (match_all s).
      rewrite (match_all_run s Hs Hl). reflexivity. }
  destruct Hb as [-> | (t & c & -> & Hc)]; [ exact Hrun | ].
  destruct (separator_spec c Hc) as [Hh Hnone].
  rewrite append_assoc. cbn [append].
  rewrite (scan_app _ c Hh t 0) by lia.
  rewrite (scan_app _ c Hh t 0) by lia.
  rewrite !scan_cons_0, !Hnone, Hrun.
  rewrite <- app_assoc. reflexivity.
Qed.


End HexRuns.

(** C10.  The token pattern needs no [#]: the ordinary word "facade" is
    read as the swatch [#facade], alone or inside a sentence; any bare run
    of three to six hexadecimal digits is matched as one token, also when
    it stands in free text between other tokens; a run of exactly four or
    five digits is matched but rejected by [normalizeHex], so nothing is
    returned for it, while a run of six is returned as a swatch. *)
Theorem parseHexColors_bare_hex_runs :
  ColorUtils.parseHexColors "facade" = ["#facade"]
  /\ (forall s : string,
        Hex.all_hex s = true -> (3 <= String.length s <= 6)%nat ->
        ColorUtils.match_all s = [s])
  /\ (forall s : string,
        Hex.all_hex s = true ->
        (String.length s = 4 \/ String.length s = 5)%nat ->
        ColorUtils.normalizeHex s = None /\ ColorUtils.parseHexColors s = [])
  /\ (forall s : string,
        Hex.all_hex s = true -> String.length s = 6%nat ->
        ColorUtils.parseHexColors s = [String "#" s])
  /\ ColorUtils.parseHexColors "the facade was added in a decade"
     = ["#facade"; "#decade"]
  /\ (forall before s after : string,
        Spec.endsToken before -> Spec.startsFresh after ->
        Spec.hexRun s = true -> (3 <= String.length s <= 6)%nat ->
        ColorUtils.match_all (before ++ s ++ after)
        = (ColorUtils.match_all before ++ s :: ColorUtils.match_all after)%list
        /\ ((String.length s = 4 \/ String.length s = 5)%nat ->
            ColorUtils.parseHexColors (before ++ s ++ after)
            = (ColorUtils.parseHexColors before
               ++ ColorUtils.parseHexColors after)%list)
        /\ (String.length s = 6%nat ->
            ColorUtils.parseHexColors (before ++ s ++ after)
            = (ColorUtils.parseHexColors before
               ++ String "#" s :: ColorUtils.parseHexColors after)%list)).
Proof.
  split; [ vm_compute; reflexivity | ].
  split; [ exact match_all_run | ].
  split.
  { intros s Hh Hl.
    assert (Hn : ColorUtils.normalizeHex s = None).
    { rewrite (normalizeHex_run s Hh).
      destruct Hl as [Hl | Hl]; rewrite Hl; reflexivity. }
    split; [ exact Hn | ].
    unfold ColorUtils.parseHexColors.
    rewrite (match_all_run s Hh) by lia.
    simpl. rewrite Hn. reflexivity. }
  split.
  { intros s Hh Hl. unfold ColorUtils.parseHexColors.
    rewrite (match_all_run s Hh) by lia.
    simpl. rewrite (normalizeHex_run s Hh), Hl. reflexivity. }
  split; [ vm_compute; reflexivity | ].
  intros before s after Hb Ha Hs Hl. rewrite hexRun_eq in Hs.
  pose proof (match_all_token before s after Hb Ha Hs Hl) as Hm.
  split; [ exact Hm | ].
  unfold ColorUtils.parseHexColors. rewrite Hm.
  rewrite map_app, filter_some_app. cbn [List.map ColorUtils.filter_some].
  rewrite (normalizeHex_run s Hs).
  split.
  - intros [H | H]; rewrite H; reflexivity.
  - intro H. rewrite H. reflexivity.
Qed.

Lemma parseHexColors_bare_hex_runs_witness :
  ColorUtils.match_all "cafe" = ["cafe"]
  /\ ColorUtils.normalizeHex "cafe" = None
  /\ ColorUtils.parseHexColors "cafe" = []
  /\ ColorUtils.parseHexColors "decade" = ["#decade"]
  /\ ColorUtils.match_all ("see #abc, " ++ "cafe" ++ " or decade")
     = (ColorUtils.match_all "see #abc, "
        ++ "cafe" :: ColorUtils.match_all " or decade")%list
  /\ ColorUtils.parseHexColors ("see #abc, " ++ "cafe" ++ " or decade")
     = (ColorUtils.parseHexColors "see #abc, "
        ++ ColorUtils.parseHexColors " or decade")%list.
Proof.
  destruct parseHexColors_bare_hex_runs as [_ [H1 [H2 [H3 [_ H4]]]]].
  split; [ apply H1; [ reflexivity | simpl; lia ] | ].
  destruct (H2 "cafe" eq_refl (or_introl eq_refl)) as [Ha Hb].
  split; [ exact Ha | ].
  split; [ exact Hb | ].
  split; [ apply (H3 "decade"); reflexivity | ].
  destruct (H4 "see #abc, " "cafe" " or decade") as (Hm & Hp & _).
  - right. exists "see #abc,", " "%char. split; reflexivity.
  - reflexivity.
  - reflexivity.
  - simpl. lia.
  - split; [ exact Hm | ]. apply Hp. left. reflexivity.
Defined.

(* ------------------------------------------------------------------ *)
(** ** The search route *)

Section Route.

Import ImageApi Adapters SearchRoute.

(** What a successful response is made of. *)
Lemma POST_Json (env : Env) (request : SearchImagesRequestBody)
  (body : SearchImagesResponseBody) (calls : list AdapterCall) :
  POST env request = (Json body, calls) ->
  exists q1 q2 q3 c us ps xs,
    calls = [ CallUnsplash q1 (pageOf request) 20 c;
              CallPexels q2 (pageOf request) 20;
              CallPixabay q3 (pageOf request) 30 ]
    /\ searchUnsplash env q1 (pageOf request) 20 c = Some us
    /\ searchPexels env q2 (pageOf request) 20 = Some ps
    /\ searchPixabay env q3 (pageOf request) 30 = Some xs
    /\ targetColors request <> []
    /\ body =
       let m := matched (targetColors request) (thresholdOf request) us ps xs in
       {| images := sort (score (targetColors request)) m;
          resp_page := pageOf request;
          total := List.length (sort (score (targetColors request)) m);
          sources := {| n_unsplash := count unsplash m;
                        n_pexels := count pexels m;
                        n_pixabay := count pixabay m |} |}.
Proof.
  unfold POST, targetColors.
  destruct (ColorUtils.parseHexColors (hexColors request)) as [| primary rest];
    [ intro H; inversion H | ].
  cbv zeta.
  generalize (ColorUtils.getColorName primary) as name.
  generalize (ColorUtils.getUnsplashColorParam primary) as uc.
  intros uc name.
  destruct (searchUnsplash env (name ++ " nature abstract")%string
              (pageOf request) 20 uc) as [us |] eqn:Hu;
    [ | intro H; inversion H ].
  destruct (searchPexels env (name ++ " color")%string (pageOf request) 20)
    as [ps |] eqn:Hp; [ | intro H; inversion H ].
  destruct (searchPixabay env name (pageOf request) 30) as [xs |] eqn:Hx;
    [ | intro H; inversion H ].
  intro H. inversion H; subst.
  exists (name ++ " nature abstract")%string, (name ++ " color")%string, name,
    uc, us, ps, xs.
  repeat split; try assumption. discriminate.
Qed.

Lemma insert_perm key x l : Permutation (insert key x l) (x :: l).
Proof.
  induction l as [| y tl IH]; simpl; [ reflexivity | ].
  destruct (score_leb (key x) (key y)); [ reflexivity | ].
  rewrite IH. apply perm_swap.
Qed.

Lemma sort_perm key l : Permutation (sort key l) l.
Proof.
  induction l as [| x tl IH]; simpl; [ constructor | ].
  rewrite insert_perm. constructor. exact IH.
Qed.

Lemma sort_In key l x : In x (sort key l) <-> In x l.
Proof.
  split; apply Permutation_in; [ | symmetry ]; apply sort_perm.
Qed.

Lemma process_In {A : Type} (build : A -> option DominantColors) unify
  targets t (l : list A) (img : ColorSearchResultImage) :
  In img (process build unify targets t l) <->
  exists image d, In image l /\ build image = Some d
                  /\ hasMatch targets t d = true /\ img = unify image d.
Proof.
  unfold process. rewrite in_flat_map. split.
  - intros [image [Hin H]]. destruct (build image) as [d |] eqn:Hb;
      [ | contradiction ].
    destruct (hasMatch targets t d) eqn:Hm; [ | contradiction ].
    destruct H as [H | []]. exists image, d. auto.
  - intros [image [d [Hin [Hb [Hm He]]]]]. exists image. split; [ exact Hin | ].
    rewrite Hb, Hm. left. symmetry. exact He.
Qed.

Lemma process_pixabay targets t xs :
  process buildDominantColorsFromPixabay fromPixabay targets t xs = [].
Proof. induction xs as [| x tl IH]; [ reflexivity | exact IH ]. Qed.

Lemma matched_In targets t us ps xs img :
  In img (matched targets t us ps xs) <->
  (exists image, In image us
     /\ hasMatch targets t
          (buildDerivedPalette (or_default (u_color image) "#000000")) = true
     /\ img = fromUnsplash image
                (buildDerivedPalette (or_default (u_color image) "#000000")))
  \/ (exists image, In image ps
     /\ hasMatch targets t
          (buildDerivedPalette (or_default (p_avg_color image) "#000000")) = true
     /\ img = fromPexels image
                (buildDerivedPalette (or_default (p_avg_color image) "#000000"))).
Proof.
  unfold matched. rewrite process_pixabay, app_nil_r, in_app_iff.
  rewrite !process_In. split.
  - intros [[image [d [Hin [Hb [Hm He]]]]] | [image [d [Hin [Hb [Hm He]]]]]];
      injection Hb as <-; [ left | right ]; exists image; auto.
  - intros [[image [Hin [Hm He]]] | [image [Hin [Hm He]]]];
      [ left | right ]; exists image; eexists; repeat split; eauto.
Qed.

Lemma count_zero s l :
  (forall img, In img l -> source img <> s) -> count s l = 0%nat.
Proof.
  unfold count. induction l as [| x tl IH]; intro H; [ reflexivity | ].
  simpl. destruct (Source_eqb (source x) s) eqn:E.
  - exfalso. apply (H x (or_introl eq_refl)).
    destruct (source x), s; (reflexivity || discriminate E).
  - apply IH. intros img Hi. apply H. right. exact Hi.
Qed.

End Route.

(** C5.  When the text holds no valid hex token, the route answers with
    the 400 input error and has called none of the three adapters. *)
Theorem POST_no_swatch_input_error :
  forall (env : Adapters.Env) (request : SearchRoute.SearchImagesRequestBody),
    ColorUtils.parseHexColors (SearchRoute.hexColors request) = [] ->
    SearchRoute.POST env request
    = (SearchRoute.Error 400 "No valid HEX colors provided", []).
Proof.
  intros env request H. unfold SearchRoute.POST. rewrite H. reflexivity.
Qed.

Lemma POST_no_swatch_input_error_witness :
  SearchRoute.POST Samples.fullEnv (Samples.request "no colour here: 12 #zz")
  = (SearchRoute.Error 400 "No valid HEX colors provided", []).
Proof.
  apply POST_no_swatch_input_error. vm_compute. reflexivity.
Defined.

(** C9.  No Pixabay image reaches a response: in every successful
    response no image carries the [pixabay] tag and the Pixabay count
    is 0. *)
Theorem POST_never_returns_pixabay :
  forall (env : Adapters.Env) (request : SearchRoute.SearchImagesRequestBody)
         (body : SearchRoute.SearchImagesResponseBody)
         (calls : list SearchRoute.AdapterCall),
    SearchRoute.POST env request = (SearchRoute.Json body, calls) ->
    (forall img, In img (SearchRoute.images body) ->
                 SearchRoute.source img <> SearchRoute.pixabay)
    /\ SearchRoute.n_pixabay (SearchRoute.sources body) = 0%nat.
Proof.
  intros env request body calls H.
  destruct (POST_Json env request body calls H)
    as (q1 & q2 & q3 & c & us & ps & xs & _ & _ & _ & _ & _ & ->).
  cbn zeta. cbn [SearchRoute.images SearchRoute.sources SearchRoute.n_pixabay].
  assert (Hsrc : forall img,
             In img (SearchRoute.matched (SearchRoute.targetColors request)
                       (SearchRoute.thresholdOf request) us ps xs) ->
             SearchRoute.source img <> SearchRoute.pixabay).
  { intros img Hi. apply matched_In in Hi.
    destruct Hi as [[image [_ [_ ->]]] | [image [_ [_ ->]]]]; discriminate. }
  split.
  - intros img Hi. apply Hsrc. apply sort_In in Hi. exact Hi.
  - apply count_zero. exact Hsrc.
Qed.

Lemma POST_never_returns_pixabay_witness :
  exists body calls,
    SearchRoute.POST Samples.fullEnv (Samples.request "#FF0000")
    = (SearchRoute.Json body, calls)
    /\ (forall img, In img (SearchRoute.images body) ->
                    SearchRoute.source img <> SearchRoute.pixabay)
    /\ SearchRoute.n_pixabay (SearchRoute.sources body) = 0%nat.
Proof.
  assert (E : exists body calls,
             SearchRoute.POST Samples.fullEnv (Samples.request "#FF0000")
             = (SearchRoute.Json body, calls)).
  { vm_compute. eexists. eexists. reflexivity. }
  destruct E as [body [calls E]]. exists body, calls.
  split; [ exact E | ].
  exact (POST_never_returns_pixabay _ _ body calls E).
Defined.

(** C6, evaluated.  A transport failure of Unsplash is absorbed: the
    request succeeds with an Unsplash count of 0 and the Pexels image.
    A 200 response without the [results] field is not: [searchUnsplash]
    returns [undefined], the route's loop over it throws, and the whole
    request fails with 500.  The same body from Pixabay, whose adapter
    reads [hits ?? []], is absorbed. *)
Theorem POST_malformed_unsplash_response_fails_request :
  (exists body calls,
      SearchRoute.POST Samples.unsplashDownEnv (Samples.request "#FF0000")
      = (SearchRoute.Json body, calls)
      /\ SearchRoute.n_unsplash (SearchRoute.sources body) = 0%nat
      /\ SearchRoute.n_pexels (SearchRoute.sources body) = 1%nat)
  /\ Adapters.searchUnsplash Samples.unsplashMalformedEnv "red nature abstract"
       1 20 (Some "red") = None
  /\ fst (SearchRoute.POST Samples.unsplashMalformedEnv (Samples.request "#FF0000"))
     = SearchRoute.Error 500 "Internal server error"
  /\ (exists body calls,
      SearchRoute.POST Samples.pixabayMalformedEnv (Samples.request "#FF0000")
      = (SearchRoute.Json body, calls)
      /\ SearchRoute.n_unsplash (SearchRoute.sources body) = 1%nat
      /\ SearchRoute.n_pexels (SearchRoute.sources body) = 1%nat
      /\ SearchRoute.n_pixabay (SearchRoute.sources body) = 0%nat).
Proof.
  split; [ vm_compute; eexists; eexists; repeat split | ].
  split; [ reflexivity | ].
  split; [ vm_compute; reflexivity | ].
  vm_compute. eexists. eexists. repeat split.
Qed.

(** C3, as the claim states it, fails: an Unsplash image without a colour
    field is returned (with the palette of black) when black is searched. *)
Lemma normalizer_keeps_colourless_image :
  ~ (forall env request body calls img,
        SearchRoute.POST env request = (SearchRoute.Json body, calls) ->
        In img (SearchRoute.images body) ->
        Spec.baseColor (SearchRoute.color img) <> None).
Proof.
  intro H.
  assert (E : exists body calls,
             SearchRoute.POST Samples.colourlessEnv (Samples.request "#000000")
             = (SearchRoute.Json body, calls)
             /\ In (SearchRoute.fromUnsplash Samples.colourlessImage
                      (ImageApi.buildDerivedPalette "#000000"))
                   (SearchRoute.images body)).
  { vm_compute. eexists. eexists. split; [ reflexivity | left; reflexivity ]. }
  destruct E as (body & calls & E & Hin).
  apply (H _ _ _ _ _ E Hin). reflexivity.
Qed.

(** C3, amended.  The Unsplash and Pexels palette builders always yield a
    palette: that of the provider's colour field, or of [#000000] when the
    field is absent or empty; the Pixabay builder never yields one.  Every
    image of a successful response comes from Unsplash or Pexels and
    carries the palette derived from its colour field, or from black. *)
Theorem normalizer_palette_from_field_or_black :
  (forall image,
      ImageApi.buildDominantColorsFromUnsplash image
      = Some (ImageApi.buildDerivedPalette
                (or_default (ImageApi.u_color image) "#000000")))
  /\ (forall image,
      ImageApi.buildDominantColorsFromPexels image
      = Some (ImageApi.buildDerivedPalette
                (or_default (ImageApi.p_avg_color image) "#000000")))
  /\ (forall image, ImageApi.buildDominantColorsFromPixabay image = None)
  /\ (forall env request body calls,
      SearchRoute.POST env request = (SearchRoute.Json body, calls) ->
      forall img, In img (SearchRoute.images body) ->
        SearchRoute.source img <> SearchRoute.pixabay
        /\ SearchRoute.dominantColors img
           = ImageApi.buildDerivedPalette
               (or_default (SearchRoute.color img) "#000000")).
Proof.
  repeat split; try reflexivity.
  - destruct (POST_Json env request body calls H)
      as (q1 & q2 & q3 & c & us & ps & xs & _ & _ & _ & _ & _ & ->).
    cbn zeta in H0. cbn [SearchRoute.images] in H0.
    apply sort_In, matched_In in H0.
    destruct H0 as [[image [_ [_ ->]]] | [image [_ [_ ->]]]]; discriminate.
  - destruct (POST_Json env request body calls H)
      as (q1 & q2 & q3 & c & us & ps & xs & _ & _ & _ & _ & _ & ->).
    cbn zeta in H0. cbn [SearchRoute.images] in H0.
    apply sort_In, matched_In in H0.
    destruct H0 as [[image [_ [_ ->]]] | [image [_ [_ ->]]]]; reflexivity.
Qed.

Lemma normalizer_palette_from_field_or_black_witness :
  exists body calls,
    SearchRoute.POST Samples.colourlessEnv (Samples.request "#000000")
    = (SearchRoute.Json body, calls)
    /\ forall img, In img (SearchRoute.images body) ->
        SearchRoute.source img <> SearchRoute.pixabay
        /\ SearchRoute.dominantColors img
           = ImageApi.buildDerivedPalette
               (or_default (SearchRoute.color img) "#000000").
Proof.
  assert (E : exists body calls,
             SearchRoute.POST Samples.colourlessEnv (Samples.request "#000000")
             = (SearchRoute.Json body, calls)).
  { vm_compute. eexists. eexists. reflexivity. }
  destruct E as [body [calls E]]. exists body, calls.
  split; [ exact E | ].
  exact (proj2 (proj2 (proj2 normalizer_palette_from_field_or_black))
           _ _ body calls E).
Defined.

(* ------------------------------------------------------------------ *)
(** ** Distance filter *)

Section Distance.

Import ImageApi Adapters SearchRoute.

Lemma Q2R_inject_Z (z : Z) : Q2R (inject_Z z) = IZR z.
Proof. unfold Q2R, inject_Z; simpl. field. Qed.

Lemma colorDistanceSq_nonneg (a c : ColorRGB) :
  0 <= ColorUtils.colorDistanceSq a c.
Proof.
  unfold ColorUtils.colorDistanceSq, ColorUtils.sq.
  pose proof (Z.square_nonneg (r a - r c)).
  pose proof (Z.square_nonneg (g a - g c)).
  pose proof (Z.square_nonneg (b a - b c)). lia.
Qed.

End Distance.

(* ------------------------------------------------------------------ *)
(** ** Scoring and ranking *)

Section Ranking.

Import ImageApi Adapters SearchRoute.

(** The [reduce] with [Math.min], from a finite seed. *)
Lemma fold_score_min_seed {A : Type} (f : A -> Z) (l : list A) (a : Z) :
  exists m,
    List.fold_left (fun acc x => score_min acc (f x)) l (Some a) = Some m
    /\ m <= a
    /\ (forall x, In x l -> m <= f x)
    /\ (m = a \/ exists x, In x l /\ m = f x).
Proof.
  revert a. induction l as [| y tl IH]; intro a.
  - exists a. simpl. split; [ reflexivity | ]. split; [ lia | ].
    split; [ intros x [] | left; reflexivity ].
  - simpl. destruct (IH (Z.min a (f y))) as (m & Hm & Hle & Hall & Hex).
    exists m. split; [ exact Hm | ].
    split; [ lia | ].
    split.
    + intros x [<- | Hx]; [ lia | exact (Hall x Hx) ].
    + destruct Hex as [-> | [x [Hx He]]].
      * destruct (Z.min_spec a (f y)) as [[_ E] | [_ E]]; rewrite E.
        -- left. reflexivity.
        -- right. exists y. split; [ left; reflexivity | reflexivity ].
      * right. exists x. split; [ right; exact Hx | exact He ].
Qed.

(** From [Infinity], over a non-empty array: the minimum. *)
Lemma fold_score_min {A : Type} (f : A -> Z) (l : list A) :
  l <> [] ->
  exists m,
    List.fold_left (fun acc x => score_min acc (f x)) l None = Some m
    /\ (forall x, In x l -> m <= f x)
    /\ (exists x, In x l /\ m = f x).
Proof.
  destruct l as [| y tl]; [ contradiction | intros _ ].
  simpl. destruct (fold_score_min_seed f tl (f y)) as (m & Hm & Hle & Hall & Hex).
  exists m. split; [ exact Hm | ].
  split.
  - intros x [<- | Hx]; [ exact Hle | exact (Hall x Hx) ].
  - destruct Hex as [-> | [x [Hx He]]].
    + exists y. split; [ left; reflexivity | reflexivity ].
    + exists x. split; [ right; exact Hx | exact He ].
Qed.

Lemma score_leb_total (a c : Score) :
  score_leb a c = false -> score_leb c a = true.
Proof.
  destruct a as [x |], c as [y |]; simpl; try reflexivity; try discriminate.
  rewrite Z.leb_gt. intro H. apply Z.leb_le. lia.
Qed.

Lemma score_leb_trans (a c e : Score) :
  score_leb a c = true -> score_leb c e = true -> score_leb a e = true.
Proof.
  destruct a as [x |], c as [y |], e as [z |]; simpl; try reflexivity;
    try discriminate.
  rewrite !Z.leb_le. lia.
Qed.

Lemma insert_sorted key x l :
  StronglySorted (byScore key) l ->
  StronglySorted (byScore key) (insert key x l).
Proof.
  induction l as [| y tl IH]; intro Hs; simpl.
  - constructor; constructor.
  - destruct (score_leb (key x) (key y)) eqn:E.
    + constructor; [ exact Hs | ].
      constructor; [ exact E | ].
      inversion Hs as [| ? ? _ Hall]; subst.
      eapply Forall_impl; [ | exact Hall ].
      intros z Hz. exact (score_leb_trans _ _ _ E Hz).
    + inversion Hs as [| ? ? Hs' Hall]; subst.
      constructor; [ apply IH; exact Hs' | ].
      apply Forall_forall. intros z Hz.
      apply (Permutation_in _ (insert_perm key x tl)) in Hz.
      destruct Hz as [<- | Hz].
      * apply score_leb_total. exact E.
      * rewrite Forall_forall in Hall. apply Hall. exact Hz.
Qed.

Lemma sort_sorted key l : StronglySorted (byScore key) (sort key l).
Proof.
  induction l as [| x tl IH]; simpl; [ constructor | ].
  apply insert_sorted. exact IH.
Qed.

Lemma StronglySorted_impl {A : Type} (P Q : A -> A -> Prop) (l : list A) :
  (forall a c, P a c -> Q a c) -> StronglySorted P l -> StronglySorted Q l.
Proof.
  intros HPQ Hs. induction Hs as [| a l Hs IH Hall]; constructor.
  - exact IH.
  - eapply Forall_impl; [ | exact Hall ]. intros c. apply HPQ.
Qed.

End Ranking.

(** C1, as the claim states it, fails.  For the swatch [#FF0000] and a
    cyan and a red Unsplash image, both are retained; the cyan image's
    complementary colour is the swatch itself, so its palette minimum is
    0, but its score is the distance of cyan from red (radicand 195075),
    and it is returned after the red image, whose palette minimum is
    larger (radicand 4608). *)
Lemma score_is_not_palette_minimum :
  let request := Samples.request "#FF0000" in
  let S := SearchRoute.targetColors request in
  let red := SearchRoute.fromUnsplash Samples.redImage
               (ImageApi.buildDerivedPalette "#ff3030") in
  let cyan := SearchRoute.fromUnsplash Samples.cyanImage
                (ImageApi.buildDerivedPalette "#00ffff") in
  (exists calls sources,
      SearchRoute.POST Samples.cyanRedEnv request
      = (SearchRoute.Json (SearchRoute.mkBody [red; cyan] 1 2 sources), calls))
  /\ SearchRoute.score S cyan = Some 195075
  /\ Spec.paletteScore S (SearchRoute.dominantColors cyan) = Some 0
  /\ Spec.paletteScore S (SearchRoute.dominantColors red) = Some 4608.
Proof.
  cbv zeta. split; [ | split; [ | split ] ]; vm_compute.
  - eexists. eexists. reflexivity.
  - reflexivity.
  - reflexivity.
  - reflexivity.
Qed.

(* ------------------------------------------------------------------ *)
(** ** Contrast correction *)

Section Contrast.

Import ColorUtils.

Variables (bg : string) (targetRatio : R) (isBgDark : bool).

(** The loop from any state with at most 100 iterations behind it:
    it stops after [n - i] further steps, the first step count at which
    the ratio is no longer below the target, or at the cap. *)
Lemma while_from (rem : nat) :
  forall (c : TinyColor.t) (i : nat),
    (i <= 100)%nat -> (100 - i <= rem)%nat ->
    exists n,
      (i <= n <= 100)%nat
      /\ (forall fuel, (rem < fuel)%nat ->
            while fuel (loop_cond bg targetRatio) (loop_body isBgDark)
                  (mkLoop c i)
            = Some (mkLoop (Spec.stepped isBgDark (n - i) c) n))
      /\ (forall j, (j < n - i)%nat -> Spec.below bg targetRatio (Spec.stepped isBgDark j c))
      /\ ((n < 100)%nat -> ~ Spec.below bg targetRatio (Spec.stepped isBgDark (n - i) c)).
Proof.
  induction rem as [| rem IH]; intros c i Hi Hrem.
  - assert (i = 100%nat) by lia. subst i.
    exists 100%nat. split; [ lia | ]. split; [ | split ].
    + intros [| fuel] Hf; [ lia | ]. simpl.
      unfold loop_cond. simpl iterations.
      rewrite andb_false_r. reflexivity.
    + intros j Hj. lia.
    + intro Hn. lia.
  - destruct (loop_cond bg targetRatio (mkLoop c i)) eqn:Hc.
    + unfold loop_cond in Hc. simpl in Hc. apply andb_prop in Hc.
      destruct Hc as [Hlow Hlt]. apply Nat.ltb_lt in Hlt.
      destruct (Rlt_dec (TinyColor.readability (TinyColor.toHexString c) bg)
                        targetRatio) as [Hl |]; [ | discriminate Hlow ].
      destruct (IH (if isBgDark then TinyColor.lighten c 1
                    else TinyColor.darken c 1) (S i))
        as (n & Hn & Hw & Hbelow & Hstop); [ lia | lia | ].
      exists n. split; [ lia | ].
      replace (n - i)%nat with (S (n - S i)) by lia.
      split; [ | split ].
      * intros [| fuel] Hf; [ lia | ].
        unfold while; fold (@while LoopState).
        replace (loop_cond bg targetRatio (mkLoop c i)) with true.
        -- unfold loop_body at 2. simpl result. simpl iterations.
           apply Hw. lia.
        -- unfold loop_cond. simpl.
           destruct (Rlt_dec _ _); [ | contradiction ].
           symmetry. apply andb_true_iff. split; [ reflexivity | ].
           apply Nat.ltb_lt. exact Hlt.
      * intros [| j] Hj; [ exact Hl | ]. simpl. apply Hbelow. lia.
      * exact Hstop.
    + exists i. split; [ lia | ]. rewrite Nat.sub_diag.
      split; [ | split ].
      * intros [| fuel] Hf; [ lia | ]. simpl. rewrite Hc. reflexivity.
      * intros j Hj. lia.
      * intros Hn Hl. unfold loop_cond in Hc. simpl in Hc.
        destruct (Rlt_dec _ _); [ | contradiction ].
        simpl in Hc. apply Nat.ltb_ge in Hc. lia.
Qed.

(** [ensureContrast_run] in full: the early return, or the loop's
    outcome after [n] steps. *)
Lemma ensureContrast_run_spec (fg : string) :
  isBgDark = TinyColor.isDark (TinyColor.of_string bg) ->
  ((TinyColor.readability fg bg >= targetRatio)%R
   /\ forall fuel, ensureContrast_run fuel fg bg targetRatio = Some (fg, O))
  \/ (~ (TinyColor.readability fg bg >= targetRatio)%R
      /\ exists n,
          (n <= 100)%nat
          /\ (forall fuel, (100 < fuel)%nat ->
                ensureContrast_run fuel fg bg targetRatio
                = Some (TinyColor.toHexString
                          (Spec.stepped isBgDark n
                          (TinyColor.clone (TinyColor.of_string fg))), n))
          /\ (forall j, (j < n)%nat ->
                Spec.below bg targetRatio (Spec.stepped isBgDark j
                   (TinyColor.clone (TinyColor.of_string fg))))
          /\ ((n < 100)%nat ->
              ~ Spec.below bg targetRatio (Spec.stepped isBgDark n
                          (TinyColor.clone (TinyColor.of_string fg))))).
Proof.
  intro Hd. unfold ensureContrast_run.
  destruct (Rge_dec (TinyColor.readability fg bg) targetRatio) as [Hge | Hng].
  - left. split; [ exact Hge | reflexivity ].
  - right. split; [ exact Hng | ].
    destruct (while_from 100 (TinyColor.clone (TinyColor.of_string fg)) O)
      as (n & Hn & Hw & Hbelow & Hstop); [ lia | lia | ].
    rewrite Nat.sub_0_r in *.
    exists n. split; [ lia | ]. split; [ | split ].
    + intros fuel Hf. rewrite <- Hd. rewrite (Hw fuel Hf). reflexivity.
    + exact Hbelow.
    + exact Hstop.
Qed.

End Contrast.

(** C8.  Whatever the foreground, background and target, the correction
    loop of [ensureContrast] runs its body at most 100 times and the call
    returns: with any fuel above 100 the run yields one and the same
    result, after [n <= 100] iterations. *)
Theorem ensureContrast_run_total :
  forall (fg bg : string) (targetRatio : R),
  exists (out : string) (n : nat),
    (n <= 100)%nat
    /\ forall fuel, (100 < fuel)%nat ->
         ColorUtils.ensureContrast_run fuel fg bg targetRatio = Some (out, n).
Proof.
  intros fg bg targetRatio.
  destruct (ensureContrast_run_spec bg targetRatio _ fg eq_refl)
    as [[_ H] | [_ (n & Hn & H & _)]].
  - exists fg, O. split; [ lia | ]. intros fuel _. apply H.
  - eexists. exists n. split; [ exact Hn | exact H ].
Qed.

(* ------------------------------------------------------------------ *)
(** ** Luminance bounds *)

Section Luminance.

#[local] Open Scope R_scope.

Lemma exp_monotone (x y : R) : x <= y -> exp x <= exp y.
Proof.
  intros [H | ->]; [ left; apply exp_increasing; exact H | right; reflexivity ].
Qed.

Lemma ln_nonpos (y : R) : 0 < y <= 1 -> ln y <= 0.
Proof.
  intros [H0 [H1 | ->]].
  - rewrite <- ln_1. left. apply ln_increasing; assumption.
  - rewrite ln_1. right. reflexivity.
Qed.

(** For a base in (0, 1] a larger exponent gives a smaller power. *)
Lemma Rpower_exponent_antitone (y a c : R) :
  0 < y <= 1 -> a <= c -> Rpower y c <= Rpower y a.
Proof.
  intros Hy Hac. unfold Rpower. apply exp_monotone.
  pose proof (ln_nonpos y Hy). nra.
Qed.

Lemma Rpower_2 (y : R) : 0 < y -> Rpower y 2 = y * y.
Proof.
  intro H. replace 2 with (INR 2) by (simpl; lra).
  rewrite Rpower_pow by exact H. ring.
Qed.

Lemma Rpower_3 (y : R) : 0 < y -> Rpower y 3 = y * y * y.
Proof.
  intro H. replace 3 with (INR 3) by (simpl; lra).
  rewrite Rpower_pow by exact H. ring.
Qed.

(** The gamma curve lies between the cube and the square. *)
Lemma Rpower_24_bounds (y : R) :
  0 < y <= 1 -> y * y * y <= Rpower y 2.4 <= y * y.
Proof.
  intro Hy. rewrite <- (Rpower_3 y), <- (Rpower_2 y) by lra.
  split; apply Rpower_exponent_antitone; (exact Hy || lra).
Qed.

(** [linearize] above the linear segment. *)
Lemma linearize_gamma (z : Z) :
  (11 <= z <= 255)%Z ->
  let y := (IZR z / 255 + 0.055) / 1.055 in
  TinyColor.linearize z = Rpower y 2.4 /\ 0 < y <= 1.
Proof.
  intros [Hlo Hhi] y. apply IZR_le in Hlo, Hhi.
  unfold TinyColor.linearize. cbv zeta.
  destruct (Rle_dec (IZR z / 255) 0.03928) as [H | H]; [ lra | ].
  split; [ reflexivity | ]. unfold y. lra.
Qed.

Lemma linearize_range (z : Z) :
  (0 <= z <= 255)%Z -> 0 <= TinyColor.linearize z <= 1.
Proof.
  intros [Hlo Hhi]. destruct (Z_lt_le_dec z 11) as [Hs | Hb].
  - assert (Hz : (z <= 10)%Z) by lia. apply IZR_le in Hlo, Hz.
    unfold TinyColor.linearize. cbv zeta.
    destruct (Rle_dec (IZR z / 255) 0.03928) as [H | H];
      [ lra | exfalso; lra ].
  - destruct (linearize_gamma z (conj Hb Hhi)) as [-> Hy].
    pose proof (Rpower_24_bounds _ Hy) as Hp.
    set (y := (IZR z / 255 + 0.055) / 1.055) in *.
    assert (0 <= y * y) by nra.
    assert (0 <= y * y * y) by nra.
    assert (y * y <= 1) by nra.
    lra.
Qed.

End Luminance.

(* ------------------------------------------------------------------ *)
(** ** Channels stay in range *)

Section Channels.

#[local] Open Scope Q_scope.

Lemma Qle_bool_false (a c : Q) : Qle_bool a c = false -> c < a.
Proof.
  intro E. apply Qnot_le_lt. rewrite <- Qle_bool_iff, E. discriminate.
Qed.

Lemma Qmax_spec (a c : Q) : a <= Qmax a c /\ c <= Qmax a c
                            /\ (Qmax a c == a \/ Qmax a c == c).
Proof.
  unfold Qmax. destruct (Qle_bool a c) eqn:E; cbv iota.
  - apply Qle_bool_iff in E.
    split; [ exact E | split; [ apply Qle_refl | right; reflexivity ] ].
  - apply Qle_bool_false in E.
    split; [ apply Qle_refl | split; [ apply Qlt_le_weak, E | left; reflexivity ] ].
Qed.

Lemma Qmin_spec (a c : Q) : Qmin a c <= a /\ Qmin a c <= c
                            /\ (Qmin a c == a \/ Qmin a c == c).
Proof.
  unfold Qmin. destruct (Qle_bool a c) eqn:E; cbv iota.
  - apply Qle_bool_iff in E.
    split; [ apply Qle_refl | split; [ exact E | left; reflexivity ] ].
  - apply Qle_bool_false in E.
    split; [ apply Qlt_le_weak, E | split; [ apply Qle_refl | right; reflexivity ] ].
Qed.

Lemma Qltb_lt (a c : Q) : Qltb a c = true <-> a < c.
Proof.
  unfold Qltb. rewrite negb_true_iff. split.
  - apply Qle_bool_false.
  - intro H. destruct (Qle_bool c a) eqn:E; [ | reflexivity ].
    apply Qle_bool_iff in E. exfalso. lra.
Qed.

Lemma Qltb_ge (a c : Q) : Qltb a c = false <-> c <= a.
Proof.
  unfold Qltb. rewrite negb_false_iff. apply Qle_bool_iff.
Qed.

Lemma mathRound_range (q : Q) (lo hi : Z) :
  inject_Z lo <= q -> q <= inject_Z hi -> (lo <= mathRound q <= hi)%Z.
Proof.
  intros Hlo Hhi. unfold mathRound. split.
  - rewrite <- (Qfloor_Z lo). apply Qfloor_resp_le. lra.
  - assert (H : (Qfloor (q + (1 # 2)) <= Qfloor (inject_Z hi + (1 # 2)))%Z)
      by (apply Qfloor_resp_le; lra).
    assert (E : Qfloor (inject_Z hi + (1 # 2)) = hi).
    { symmetry. apply Z.le_antisymm.
      - rewrite <- (Qfloor_Z hi) at 1. apply Qfloor_resp_le. lra.
      - assert (Hlt : (Qfloor (inject_Z hi + (1 # 2)) < hi + 1)%Z).
        { rewrite Zlt_Qlt.
          eapply Qle_lt_trans; [ apply Qfloor_le | ].
          rewrite inject_Z_plus. change (inject_Z 1) with (1 # 1). lra. }
        lia. }
    lia.
Qed.

Lemma settle_range (c : Q) : 0 <= TinyColor.settle c <= 255.
Proof.
  unfold TinyColor.settle.
  destruct (Qmax_spec c 0) as (_ & H0 & _).
  destruct (Qmin_spec 255 (Qmax c 0)) as (H255 & _ & Hm).
  assert (Hlow : 0 <= Qmin 255 (Qmax c 0)).
  { destruct Hm as [Hm | Hm]; rewrite Hm; [ lra | exact H0 ]. }
  set (x := Qmin 255 (Qmax c 0)) in *.
  destruct (Qltb x 1) eqn:E; [ | lra ].
  apply Qltb_lt in E.
  assert (Hr : (0 <= mathRound x <= 1)%Z).
  { apply mathRound_range.
    - change (inject_Z 0) with 0. exact Hlow.
    - change (inject_Z 1) with 1. lra. }
  destruct Hr as [Ha Hb]. rewrite Zle_Qle in Ha, Hb.
  change (inject_Z 0) with 0 in Ha. change (inject_Z 1) with 1 in Hb. lra.
Qed.

Lemma toRgb_range (rgb : Q * Q * Q) :
  let c := TinyColor.toRgb (TinyColor.of_channels rgb) in
  (0 <= r c <= 255 /\ 0 <= g c <= 255 /\ 0 <= b c <= 255)%Z.
Proof.
  destruct rgb as [[x y] z]. cbv zeta. unfold TinyColor.toRgb. simpl.
  split; [ | split ]; apply mathRound_range;
    first [ change (inject_Z 0) with 0 | change (inject_Z 255) with 255 ];
    apply settle_range.
Qed.

Lemma of_string_range (s : string) :
  let c := TinyColor.toRgb (TinyColor.of_string s) in
  (0 <= r c <= 255 /\ 0 <= g c <= 255 /\ 0 <= b c <= 255)%Z.
Proof.
  unfold TinyColor.of_string.
  destruct (TinyColor.parse_hex s) as [[[x y] z] |]; apply toRgb_range.
Qed.

End Channels.

(* ------------------------------------------------------------------ *)
(** ** Readability bounds *)

Section Readability.

#[local] Open Scope R_scope.

Lemma getLuminance_range (s : string) :
  0 <= TinyColor.getLuminance (TinyColor.of_string s) <= 1.
Proof.
  unfold TinyColor.getLuminance.
  destruct (of_string_range s) as (Hr & Hg & Hb).
  pose proof (linearize_range _ Hr). pose proof (linearize_range _ Hg).
  pose proof (linearize_range _ Hb). lra.
Qed.

Lemma div_le_num (a c d : R) : 0 < d -> a <= c -> a / d <= c / d.
Proof.
  intros Hd Hac. unfold Rdiv. apply Rmult_le_compat_r; [ | exact Hac ].
  left. apply Rinv_0_lt_compat. exact Hd.
Qed.

Lemma div_le_den (a c d : R) : 0 <= a -> 0 < c -> c <= d -> a / d <= a / c.
Proof.
  intros Ha Hc Hcd. unfold Rdiv. apply Rmult_le_compat_l; [ exact Ha | ].
  apply Rinv_le_contravar; assumption.
Qed.

(** The ratio, by which colour is the lighter one. *)
Lemma readability_cases (fg bg : string) :
  let Lf := TinyColor.getLuminance (TinyColor.of_string fg) in
  let Lb := TinyColor.getLuminance (TinyColor.of_string bg) in
  (Lf <= Lb /\ TinyColor.readability fg bg = (Lb + 0.05) / (Lf + 0.05))
  \/ (Lb <= Lf /\ TinyColor.readability fg bg = (Lf + 0.05) / (Lb + 0.05)).
Proof.
  cbv zeta. unfold TinyColor.readability.
  destruct (Rle_dec (TinyColor.getLuminance (TinyColor.of_string fg))
                    (TinyColor.getLuminance (TinyColor.of_string bg)))
    as [H | H].
  - left. split; [ exact H | ].
    rewrite (Rmax_right _ _ H), (Rmin_left _ _ H). reflexivity.
  - right. assert (H' : TinyColor.getLuminance (TinyColor.of_string bg)
                        <= TinyColor.getLuminance (TinyColor.of_string fg))
      by lra.
    split; [ exact H' | ].
    rewrite (Rmax_left _ _ H'), (Rmin_right _ _ H'). reflexivity.
Qed.

(** No colour contrasts with [bg] more than black or white does. *)
Lemma readability_bound (fg bg : string) (hi : R) :
  let Lb := TinyColor.getLuminance (TinyColor.of_string bg) in
  (Lb + 0.05) / 0.05 <= hi -> 1.05 / (Lb + 0.05) <= hi ->
  TinyColor.readability fg bg <= hi.
Proof.
  intros Lb Hblack Hwhite.
  pose proof (getLuminance_range fg) as Hf.
  pose proof (getLuminance_range bg) as Hb. fold Lb in Hb.
  destruct (readability_cases fg bg) as [[Hle ->] | [Hle ->]]; fold Lb in Hle |- *.
  - eapply Rle_trans; [ | exact Hblack ].
    apply div_le_den; lra.
  - eapply Rle_trans; [ | exact Hwhite ].
    apply div_le_num; lra.
Qed.

Lemma linearize_0 : TinyColor.linearize 0 = 0.
Proof.
  unfold TinyColor.linearize. cbv zeta.
  destruct (Rle_dec (0 / 255) 0.03928); [ lra | exfalso; lra ].
Qed.

Lemma linearize_255 : TinyColor.linearize 255 = 1.
Proof.
  destruct (linearize_gamma 255) as [-> _]; [ lia | ].
  replace ((255 / 255 + 0.055) / 1.055) with 1 by lra.
  unfold Rpower. rewrite ln_1, Rmult_0_r. apply exp_0.
Qed.

End Readability.

(* ------------------------------------------------------------------ *)
(** ** Black text on a mid green, target 7 *)

Section BlackOnGreen.

#[local] Open Scope R_scope.

Lemma div_le_bound (a d h : R) : 0 < d -> a <= h * d -> a / d <= h.
Proof.
  intros Hd H. apply (Rmult_le_reg_r d); [ exact Hd | ].
  unfold Rdiv. rewrite Rmult_assoc, Rinv_l, Rmult_1_r; lra.
Qed.

Lemma div_ge_bound (a d h : R) : 0 < d -> h * d <= a -> h <= a / d.
Proof.
  intros Hd H. apply (Rmult_le_reg_r d); [ exact Hd | ].
  unfold Rdiv. rewrite Rmult_assoc, Rinv_l, Rmult_1_r; lra.
Qed.

Lemma green_luminance :
  0.1869 <= TinyColor.getLuminance (TinyColor.of_string "#009e00") <= 0.2926.
Proof.
  unfold TinyColor.getLuminance.
  replace (TinyColor.toRgb (TinyColor.of_string "#009e00"))
    with (mkRGB 0 158 0) by (vm_compute; reflexivity).
  cbn [r g b]. rewrite linearize_0.
  destruct (linearize_gamma 158) as [-> Hy]; [ lia | ].
  pose proof (Rpower_24_bounds _ Hy) as Hp.
  set (y := (158 / 255 + 0.055) / 1.055) in *.
  assert (Hy1 : 0.6394 <= y <= 0.6395) by (unfold y; lra).
  assert (Hsq : 0.40883 <= y * y <= 0.40897) by nra.
  assert (Hcu : 0.2614 <= y * y * y) by nra.
  lra.
Qed.

Lemma black_luminance :
  TinyColor.getLuminance (TinyColor.of_string "#000000") = 0.
Proof.
  unfold TinyColor.getLuminance.
  replace (TinyColor.toRgb (TinyColor.of_string "#000000"))
    with (mkRGB 0 0 0) by (vm_compute; reflexivity).
  cbn [r g b]. rewrite linearize_0. lra.
Qed.

Lemma white_luminance :
  TinyColor.getLuminance (TinyColor.of_string "#ffffff") = 1.
Proof.
  unfold TinyColor.getLuminance.
  replace (TinyColor.toRgb (TinyColor.of_string "#ffffff"))
    with (mkRGB 255 255 255) by (vm_compute; reflexivity).
  cbn [r g b]. rewrite linearize_255. lra.
Qed.

Lemma black_on_green :
  4.738 <= TinyColor.readability "#000000" "#009e00" <= 6.86.
Proof.
  pose proof green_luminance as Hg.
  destruct (readability_cases "#000000" "#009e00") as [[_ ->] | [Hle ->]];
    rewrite black_luminance in *.
  - split; [ apply div_ge_bound | apply div_le_bound ]; lra.
  - exfalso. lra.
Qed.

Lemma white_on_green : TinyColor.readability "#ffffff" "#009e00" <= 4.44.
Proof.
  pose proof green_luminance as Hg.
  destruct (readability_cases "#ffffff" "#009e00") as [[Hle ->] | [_ ->]];
    rewrite white_luminance in *.
  - exfalso. lra.
  - apply div_le_bound; lra.
Qed.

Lemma any_on_green (fg : string) : TinyColor.readability fg "#009e00" <= 6.86.
Proof.
  pose proof green_luminance as Hg.
  apply readability_bound; apply div_le_bound; lra.
Qed.

(** The loop never meets the target, runs its 100 steps, and ends on
    white. *)
Lemma ensureContrast_black_on_green :
  ColorUtils.ensureContrast "#000000" "#009e00" 7 = "#ffffff".
Proof.
  unfold ColorUtils.ensureContrast.
  destruct (ensureContrast_run_spec "#009e00" 7 true "#000000")
    as [[Hge _] | [_ (n & Hn & Hrun & _ & Hstop)]].
  - vm_compute. reflexivity.
  - pose proof black_on_green. exfalso. lra.
  - rewrite (Hrun 101%nat) by lia.
    assert (n = 100%nat) as ->.
    { destruct (Nat.eq_dec n 100) as [E | E]; [ exact E | exfalso ].
      apply Hstop; [ lia | ]. unfold Spec.below.
      pose proof (any_on_green
                    (TinyColor.toHexString
                       (Spec.stepped true n
                          (TinyColor.clone (TinyColor.of_string "#000000"))))).
      lra. }
    vm_compute. reflexivity.
Qed.

(** The same run, with its iteration count: the cap is reached. *)
Lemma ensureContrast_run_black_on_green :
  ColorUtils.ensureContrast_run 101 "#000000" "#009e00" 7
  = Some ("#ffffff", 100%nat).
Proof.
  destruct (ensureContrast_run_spec "#009e00" 7 true "#000000")
    as [[Hge _] | [_ (n & Hn & Hrun & _ & Hstop)]].
  - vm_compute. reflexivity.
  - pose proof black_on_green. exfalso. lra.
  - rewrite (Hrun 101%nat) by lia.
    assert (n = 100%nat) as ->.
    { destruct (Nat.eq_dec n 100) as [E | E]; [ exact E | exfalso ].
      apply Hstop; [ lia | ]. unfold Spec.below.
      pose proof (any_on_green
                    (TinyColor.toHexString
                       (Spec.stepped true n
                          (TinyColor.clone (TinyColor.of_string "#000000"))))).
      lra. }
    vm_compute. reflexivity.
Qed.

End BlackOnGreen.

(** C2, as the claim states it, fails.  Black on the background [#009e00]
    has a ratio of at least 4.73; asked for 7, [ensureContrast] lightens
    it (the background counts as dark) through all 100 steps and returns
    white, whose ratio is at most 4.44. *)
Lemma ensureContrast_can_lower_contrast :
  ~ (forall (fg bg : string) (r : R),
        (TinyColor.readability (ColorUtils.ensureContrast fg bg r) bg
         >= TinyColor.readability fg bg)%R).
Proof.
  intro H. specialize (H "#000000" "#009e00" 7%R).
  rewrite ensureContrast_black_on_green in H.
  pose proof black_on_green. pose proof white_on_green. lra.
Qed.

(** C2, amended.  [ensureContrast(fg, bg, r)] returns [fg] unchanged when
    the ratio already meets [r].  Otherwise it returns the colour reached
    after [n <= 100] unit steps from [fg] (lighter when [bg] is dark,
    darker otherwise), where every earlier step was below [r]; when the
    loop stopped before the cap, the returned colour meets [r].  At the
    cap the last colour reached is returned, whatever its ratio. *)
Theorem ensureContrast_returns_last_step :
  forall (fg bg : string) (r : R),
    let isBgDark := TinyColor.isDark (TinyColor.of_string bg) in
    ((TinyColor.readability fg bg >= r)%R ->
     ColorUtils.ensureContrast fg bg r = fg)
    /\ (~ (TinyColor.readability fg bg >= r)%R ->
        exists n,
          (n <= 100)%nat
          /\ ColorUtils.ensureContrast fg bg r
             = TinyColor.toHexString
                 (Spec.stepped isBgDark n (TinyColor.clone (TinyColor.of_string fg)))
          /\ (forall j, (j < n)%nat ->
                (TinyColor.readability
                   (TinyColor.toHexString
                      (Spec.stepped isBgDark j
                     (TinyColor.clone (TinyColor.of_string fg)))) bg
                 < r)%R)
          /\ ((n < 100)%nat ->
              (TinyColor.readability (ColorUtils.ensureContrast fg bg r) bg
               >= r)%R)).
Proof.
  intros fg bg r isBgDark. unfold ColorUtils.ensureContrast.
  destruct (ensureContrast_run_spec bg r isBgDark fg eq_refl)
    as [[Hge Hrun] | [Hng (n & Hn & Hrun & Hbelow & Hstop)]].
  - split; [ | contradiction ]. intros _. rewrite Hrun. reflexivity.
  - split; [ contradiction | ]. intros _.
    rewrite (Hrun 101%nat) by lia.
    exists n. split; [ exact Hn | ]. split; [ reflexivity | ].
    split; [ exact Hbelow | ].
    intro Hlt. apply Rnot_lt_ge. exact (Hstop Hlt).
Qed.

Lemma ensureContrast_returns_last_step_witness :
  exists n,
    (n <= 100)%nat
    /\ ColorUtils.ensureContrast "#000000" "#009e00" 7
       = TinyColor.toHexString
           (Spec.stepped (TinyColor.isDark (TinyColor.of_string "#009e00")) n
              (TinyColor.of_string "#000000")).
Proof.
  destruct (proj2 (ensureContrast_returns_last_step "#000000" "#009e00" 7%R))
    as (n & Hn & He & _).
  - pose proof black_on_green. lra.
  - exists n. split; [ exact Hn | exact He ].
Defined.

Lemma ensureContrast_run_total_witness :
  exists (out : string) (n : nat),
    (n <= 100)%nat
    /\ ColorUtils.ensureContrast_run 101 "#000000" "#009e00" 7 = Some (out, n)
    /\ out = "#ffffff" /\ n = 100%nat.
Proof.
  destruct (ensureContrast_run_total "#000000" "#009e00" 7%R)
    as (out & n & Hn & H).
  specialize (H 101%nat ltac:(lia)).
  exists out, n. split; [ exact Hn | ]. split; [ exact H | ].
  rewrite ensureContrast_run_black_on_green in H.
  injection H as <- <-. split; reflexivity.
Defined.

(* ------------------------------------------------------------------ *)
(** ** Printing a colour and reading it back *)

Section HexRoundTrip.

Lemma channelValues_complete (z : Z) :
  0 <= z <= 255 -> In z Checks.channelValues.
Proof.
  intro H. unfold Checks.channelValues. apply in_map_iff.
  exists (Z.to_nat z). split; [ lia | ]. apply in_seq. lia.
Qed.

Lemma hexPairOk_all (z : Z) : 0 <= z <= 255 -> Checks.hexPairOk z = true.
Proof.
  intro H.
  assert (A : forallb Checks.hexPairOk Checks.channelValues = true)
    by (vm_compute; reflexivity).
  rewrite forallb_forall in A. apply A, channelValues_complete, H.
Qed.

Lemma storedChannelOk_all (z : Z) :
  0 <= z <= 255 -> Checks.storedChannelOk z = true.
Proof.
  intro H.
  assert (A : forallb Checks.storedChannelOk Checks.channelValues = true)
    by (vm_compute; reflexivity).
  rewrite forallb_forall in A. apply A, channelValues_complete, H.
Qed.

Lemma storedChannel_eq (z : Z) :
  0 <= z <= 255 -> (Checks.storedChannel z == inject_Z z)%Q.
Proof.
  intro H. pose proof (storedChannelOk_all z H) as E.
  unfold Checks.storedChannelOk in E. apply andb_prop in E.
  destruct E as [E1 E2]. apply Qle_bool_iff in E1, E2.
  apply Qle_antisym; assumption.
Qed.

Lemma hex_pair (z : Z) :
  0 <= z <= 255 ->
  exists c1 c2,
    Hex.pad2 (Hex.toString16 z) = String c1 (String c2 "")
    /\ Hex.is_hex_digit c1 = true /\ Hex.is_hex_digit c2 = true
    /\ Hex.parseInt16 (String c1 (String c2 "")) = z.
Proof.
  intro H. pose proof (hexPairOk_all z H) as E. unfold Checks.hexPairOk in E.
  destruct (Hex.pad2 (Hex.toString16 z)) as [| c1 [| c2 [| c3 tl]]];
    try discriminate E.
  apply andb_prop in E. destruct E as [E E3]. apply andb_prop in E.
  destruct E as [E1 E2]. apply Z.eqb_eq in E3.
  exists c1, c2. auto.
Qed.

Lemma mathRound_inject (z : Z) : mathRound (inject_Z z) = z.
Proof.
  assert (H : z <= mathRound (inject_Z z) <= z)
    by (apply mathRound_range; apply Qle_refl).
  lia.
Qed.

Lemma mathRound_eq (q : Q) (z : Z) : (q == inject_Z z)%Q -> mathRound q = z.
Proof.
  intro E.
  assert (H : z <= mathRound q <= z)
    by (apply mathRound_range; rewrite E; apply Qle_refl).
  lia.
Qed.

(** Six hexadecimal digits after a [#] survive [trim]. *)
Lemma trim_hash6 (c1 c2 c3 c4 c5 c6 : ascii) :
  Hex.is_hex_digit c6 = true ->
  TinyColor.trim
    (String "#" (String c1 (String c2 (String c3 (String c4 (String c5
       (String c6 "")))))))
  = String "#" (String c1 (String c2 (String c3 (String c4 (String c5
       (String c6 "")))))).
Proof.
  intro H6. unfold TinyColor.trim.
  change (TinyColor.trimLeft (String "#" ?x)) with (String "#" x).
  unfold TinyColor.rev_string at 2. simpl.
  rewrite (hex_digit_not_space c6 H6). reflexivity.
Qed.

(** [parse_hex] of a printed colour gives the rounded channels. *)
Lemma parse_hex_toHexString (c : TinyColor.t) :
  (0 <= TinyColor._r c <= 255)%Q -> (0 <= TinyColor._g c <= 255)%Q ->
  (0 <= TinyColor._b c <= 255)%Q ->
  TinyColor.parse_hex (TinyColor.toHexString c)
  = Some (mathRound (TinyColor._r c), mathRound (TinyColor._g c),
          mathRound (TinyColor._b c)).
Proof.
  intros Hr Hg Hb. unfold TinyColor.toHexString.
  destruct (hex_pair (mathRound (TinyColor._r c)))
    as (r1 & r2 & -> & Hr1 & Hr2 & Er);
    [ apply mathRound_range; apply Hr | ].
  destruct (hex_pair (mathRound (TinyColor._g c)))
    as (g1 & g2 & -> & Hg1 & Hg2 & Eg);
    [ apply mathRound_range; apply Hg | ].
  destruct (hex_pair (mathRound (TinyColor._b c)))
    as (b1 & b2 & -> & Hb1 & Hb2 & Eb);
    [ apply mathRound_range; apply Hb | ].
  cbn [String.append]. unfold TinyColor.parse_hex.
  rewrite (trim_hash6 r1 r2 g1 g2 b1 b2 Hb2).
  change (Hex.stripHash (String "#" ?x)) with x.
  cbn [Hex.all_hex]. rewrite Hr1, Hr2, Hg1, Hg2, Hb1, Hb2. cbn [andb].
  rewrite Er, Eg, Eb. reflexivity.
Qed.

(** Reading a printed colour back gives the colour's rounded channels. *)
Lemma toRgb_of_toHexString (c : TinyColor.t) :
  (0 <= TinyColor._r c <= 255)%Q -> (0 <= TinyColor._g c <= 255)%Q ->
  (0 <= TinyColor._b c <= 255)%Q ->
  TinyColor.toRgb (TinyColor.of_string (TinyColor.toHexString c))
  = TinyColor.toRgb c.
Proof.
  intros Hr Hg Hb. unfold TinyColor.of_string.
  rewrite (parse_hex_toHexString c Hr Hg Hb).
  unfold TinyColor.of_rgb, TinyColor.of_channels, TinyColor.toRgb.
  cbn [TinyColor._r TinyColor._g TinyColor._b].
  fold (Checks.storedChannel (mathRound (TinyColor._r c))).
  fold (Checks.storedChannel (mathRound (TinyColor._g c))).
  fold (Checks.storedChannel (mathRound (TinyColor._b c))).
  f_equal; apply mathRound_eq, storedChannel_eq, mathRound_range;
    first [ apply Hr | apply Hg | apply Hb ].
Qed.

End HexRoundTrip.

(* ------------------------------------------------------------------ *)
(** ** Arithmetic of [bound01] *)

(** Division by a literal becomes multiplication by its inverse, which
    linear arithmetic over [Q] reads. *)
Ltac qdiv :=
  unfold Qdiv in *;
  repeat match goal with
    | |- context [Qinv (Qmake ?n ?d)] =>
        let v := eval compute in (Qinv (Qmake n d)) in
        change (Qinv (Qmake n d)) with v
    | H : context [Qinv (Qmake ?n ?d)] |- _ =>
        let v := eval compute in (Qinv (Qmake n d)) in
        change (Qinv (Qmake n d)) with v in H
    end.

Ltac qlra := qdiv; lra.

Section Bound01.

#[local] Open Scope Q_scope.

Lemma Qfloor_unit (y : Q) : 0 <= y -> y < 1 -> Qfloor y = 0%Z.
Proof.
  intros H0 H1.
  pose proof (Qfloor_le y) as Hle. pose proof (Qlt_floor y) as Hlt.
  assert (A : (Qfloor y < 1)%Z).
  { rewrite Zlt_Qlt. eapply Qle_lt_trans; [ exact Hle | exact H1 ]. }
  assert (B : (0 < Qfloor y + 1)%Z).
  { rewrite Zlt_Qlt. eapply Qle_lt_trans; [ exact H0 | exact Hlt ]. }
  lia.
Qed.

Lemma Qfmod_small (n m : Q) : 0 < m -> 0 <= n -> n < m -> TinyColor.Qfmod n m == n.
Proof.
  intros Hm H0 H1. unfold TinyColor.Qfmod.
  rewrite (Qfloor_unit (n / m)).
  - change (inject_Z 0) with 0. ring.
  - apply Qle_shift_div_l; [ exact Hm | ]. lra.
  - apply Qlt_shift_div_r; [ exact Hm | ]. lra.
Qed.

Lemma Qabs_small (x e : Q) : Qltb (Qabs x) e = true <-> - e < x /\ x < e.
Proof. rewrite Qltb_lt. apply Qabs_Qlt_condition. Qed.

Lemma clamp_range (lo hi x : Q) :
  lo <= hi ->
  lo <= Qmin hi (Qmax lo x) <= hi
  /\ (lo <= x -> x <= hi -> Qmin hi (Qmax lo x) == x).
Proof.
  intro H.
  destruct (Qmax_spec lo x) as (A1 & A2 & A3).
  destruct (Qmin_spec hi (Qmax lo x)) as (B1 & B2 & B3).
  split.
  - split; [ | exact B1 ]. destruct B3 as [-> | ->]; lra.
  - intros Hl Hh. destruct B3 as [E | E]; rewrite E;
      destruct A3 as [E' | E']; lra.
Qed.

(** [bound01] of a numeric channel: within one millionth above [x / 255]. *)
Lemma bound01_channel (x lo hi : Q) :
  0 <= lo -> lo <= x -> x <= hi -> hi <= 255 ->
  lo / 255 <= TinyColor.bound01 (TinyColor.Num x) 255
  /\ TinyColor.bound01 (TinyColor.Num x) 255 <= hi / 255 + (1 # 255000000)
  /\ TinyColor.bound01 (TinyColor.Num x) 255 <= 1.
Proof.
  intros H0 Hlo Hhi H255. unfold TinyColor.bound01. cbv beta iota zeta.
  destruct (clamp_range 0 255 x) as [_ E]; [ lra | ].
  specialize (E ltac:(lra) ltac:(lra)).
  set (n1 := Qmin 255 (Qmax 0 x)) in *.
  destruct (Qltb (Qabs (n1 - 255)) (1 # 1000000)) eqn:T.
  - apply Qabs_small in T. destruct T as [T1 T2].
    split; [ | split ]; qlra.
  - assert (Hn : n1 < 255).
    { apply Qltb_ge in T.
      destruct (Qlt_le_dec n1 255) as [L | L]; [ exact L | exfalso ].
      assert (E255 : n1 - 255 == 0) by lra.
      rewrite E255 in T. compute in T. apply T. reflexivity. }
    rewrite (Qfmod_small n1 255) by lra.
    split; [ | split ]; qlra.
Qed.

Lemma bound01_unit (n : TinyColor.CssNum) (m : Q) :
  1 <= m -> 0 <= TinyColor.bound01 n m <= 1.
Proof.
  intro Hm. unfold TinyColor.bound01. cbv zeta.
  set (v := match n with TinyColor.Pct q => q | TinyColor.Num q => q end).
  destruct (clamp_range 0 m v) as [[A1 A2] _]; [ lra | ].
  set (n1 := Qmin m (Qmax 0 v)) in *.
  set (n2 := if match n with TinyColor.Pct _ => true | TinyColor.Num _ => false end
             then inject_Z (Qfloor (n1 * m)) / 100 else n1).
  destruct (Qltb (Qabs (n2 - m)) (1 # 1000000)) eqn:T; [ lra | ].
  unfold TinyColor.Qfmod.
  pose proof (Qfloor_le (n2 / m)) as Hle. pose proof (Qlt_floor (n2 / m)) as Hlt.
  rewrite inject_Z_plus in Hlt. change (inject_Z 1) with 1 in Hlt.
  set (k := inject_Z (Qfloor (n2 / m))) in *.
  assert (E : n2 == n2 / m * m) by (field; lra).
  split.
  - apply Qle_shift_div_l; [ lra | ].
    assert (k * m <= n2 / m * m) by (apply Qmult_le_compat_r; lra). lra.
  - apply Qle_shift_div_r; [ lra | ].
    assert (n2 / m * m <= (k + 1) * m) by (apply Qmult_le_compat_r; lra). lra.
Qed.

(** [bound01] of a percentage string: truncation to four decimals. *)
Lemma bound01_percent (v : Q) :
  0 <= v -> v <= 1 ->
  v - (1 # 10000) <= TinyColor.bound01 (TinyColor.convertToPercentage v) 100
  /\ TinyColor.bound01 (TinyColor.convertToPercentage v) 100 <= v.
Proof.
  intros H0 H1. unfold TinyColor.convertToPercentage.
  replace (Qle_bool v 1) with true by (symmetry; apply Qle_bool_iff; exact H1).
  unfold TinyColor.bound01. cbv beta iota zeta.
  destruct (clamp_range 0 100 (v * 100)) as [_ E]; [ lra | ].
  specialize (E ltac:(lra) ltac:(lra)).
  set (n1 := Qmin 100 (Qmax 0 (v * 100))) in *.
  pose proof (Qfloor_le (n1 * 100)) as Hle.
  pose proof (Qlt_floor (n1 * 100)) as Hlt.
  rewrite inject_Z_plus in Hlt. change (inject_Z 1) with 1 in Hlt.
  set (k := Qfloor (n1 * 100)) in *.
  destruct (Qltb (Qabs (inject_Z k / 100 - 100)) (1 # 1000000)) eqn:T.
  - apply Qabs_small in T. destruct T as [T1 _].
    assert (Hk : (10000 <= k)%Z).
    { destruct (Z_lt_le_dec k 10000) as [L | L]; [ exfalso | exact L ].
      assert (L' : (k <= 9999)%Z) by lia.
      rewrite Zle_Qle in L'. change (inject_Z 9999) with 9999 in L'. qlra. }
    rewrite Zle_Qle in Hk. change (inject_Z 10000) with 10000 in Hk.
    split; lra.
  - assert (Hk0 : (0 <= k)%Z).
    { destruct (Z_lt_le_dec k 0) as [L | L]; [ exfalso | exact L ].
      assert (L' : (k + 1 <= 0)%Z) by lia.
      rewrite Zle_Qle, inject_Z_plus in L'.
      change (inject_Z 1) with 1 in L'. change (inject_Z 0) with 0 in L'. lra. }
    rewrite Zle_Qle in Hk0. change (inject_Z 0) with 0 in Hk0.
    apply Qltb_ge in T.
    assert (Hn2 : inject_Z k / 100 < 100).
    { destruct (Qlt_le_dec (inject_Z k / 100) 100) as [L | L];
        [ exact L | exfalso ].
      assert (E0 : inject_Z k / 100 - 100 == 0) by qlra.
      rewrite E0 in T. compute in T. apply T. reflexivity. }
    rewrite (Qfmod_small (inject_Z k / 100) 100); [ | lra | qlra | exact Hn2 ].
    split; qlra.
Qed.

End Bound01.

(* ------------------------------------------------------------------ *)
(** ** From hue, saturation and lightness to channels *)

Ltac qcases :=
  repeat match goal with
    | |- context [Qltb ?a ?c] =>
        let E := fresh "E" in
        destruct (Qltb a c) eqn:E;
        [ apply Qltb_lt in E | apply Qltb_ge in E ]
    end.

Ltac qcase a c :=
  let E := fresh "E" in
  destruct (Qltb a c) eqn:E; [ apply Qltb_lt in E | apply Qltb_ge in E ].

Section Hue.

#[local] Open Scope Q_scope.

Lemma hue2rgb_range (p q t0 : Q) :
  p <= q -> -1 <= t0 -> t0 <= 2 ->
  p <= TinyColor.hue2rgb p q t0 <= q.
Proof.
  intros Hpq Hlo Hhi. unfold TinyColor.hue2rgb. cbv beta zeta.
  set (t1 := if Qltb t0 0 then t0 + 1 else t0).
  set (t := if Qltb 1 t1 then t1 - 1 else t1).
  assert (Ht : 0 <= t <= 1).
  { unfold t, t1. qcase t0 0; [ qcase 1 (t0 + 1) | qcase 1 t0 ]; split; lra. }
  clearbody t. clear t1 Hlo Hhi. destruct Ht as [Ht0 Ht1].
  set (d := q - p). assert (Hd : 0 <= d) by (unfold d; lra).
  assert (Eq : q == p + d) by (unfold d; ring).
  qcases; rewrite Eq.
  - assert (0 <= d * t) by (apply Qmult_le_0_compat; lra).
    assert (0 <= d * ((1 # 6) - t)) by (apply Qmult_le_0_compat; lra).
    split; lra.
  - split; lra.
  - assert (0 <= d * ((2 # 3) - t)) by (apply Qmult_le_0_compat; lra).
    assert (0 <= d * (t - (1 # 2))) by (apply Qmult_le_0_compat; lra).
    split; lra.
  - split; lra.
Qed.

(** A third of the hue circle gives the top value [q] ... *)
Lemma hue2rgb_top (p q t0 : Q) :
  p <= q ->
  ((1 # 6) <= t0 /\ t0 < (1 # 2)) \/ ((7 # 6) <= t0 /\ t0 < (3 # 2)) ->
  q <= TinyColor.hue2rgb p q t0.
Proof.
  intros Hpq Ht. unfold TinyColor.hue2rgb. cbv beta zeta.
  set (t1 := if Qltb t0 0 then t0 + 1 else t0).
  set (t := if Qltb 1 t1 then t1 - 1 else t1).
  assert (Ht' : (1 # 6) <= t /\ t < (1 # 2)).
  { unfold t, t1. destruct Ht as [[Ha Hb] | [Ha Hb]];
      (qcase t0 0; [ qcase 1 (t0 + 1) | qcase 1 t0 ]); split; lra. }
  clearbody t. clear t1 Ht. destruct Ht' as [Ha Hb].
  qcase t (1 # 6); [ exfalso; lra | ].
  qcase t (1 # 2); [ lra | exfalso; lra ].
Qed.

(** ... and another third gives the bottom value [p]. *)
Lemma hue2rgb_bottom (p q t0 : Q) :
  p <= q ->
  ((2 # 3) <= t0 /\ t0 <= 1) \/ (- (1 # 3) <= t0 /\ t0 < 0) ->
  TinyColor.hue2rgb p q t0 <= p.
Proof.
  intros Hpq Ht. unfold TinyColor.hue2rgb. cbv beta zeta.
  set (t1 := if Qltb t0 0 then t0 + 1 else t0).
  set (t := if Qltb 1 t1 then t1 - 1 else t1).
  assert (Ht' : (2 # 3) <= t /\ t <= 1).
  { unfold t, t1. destruct Ht as [[Ha Hb] | [Ha Hb]];
      (qcase t0 0; [ qcase 1 (t0 + 1) | qcase 1 t0 ]); split; lra. }
  clearbody t. clear t1 Ht. destruct Ht' as [Ha Hb].
  qcase t (1 # 6); [ exfalso; lra | ].
  qcase t (1 # 2); [ exfalso; lra | ].
  qcase t (2 # 3); [ exfalso; lra | lra ].
Qed.

End Hue.

Section Channels01.

#[local] Open Scope Q_scope.

Lemma Qeqb_true (a c : Q) : TinyColor.Qeqb a c = true -> a == c.
Proof.
  unfold TinyColor.Qeqb. intro H. apply andb_prop in H. destruct H as [H1 H2].
  apply Qle_bool_iff in H1, H2. apply Qle_antisym; assumption.
Qed.

(** The channels [hslToRgb] computes lie between [p] and [q] (times 255),
    one of them is the top, one the bottom. *)
Lemma hslToRgb_channels (h0 : Q) (s0 l0 : TinyColor.CssNum) (R G B : Q) :
  TinyColor.hslToRgb h0 s0 l0 = (R, G, B) ->
  let s := TinyColor.bound01 s0 100 in
  let l := TinyColor.bound01 l0 100 in
  let q := if Qltb l (1 # 2) then l * (1 + s) else l + s - l * s in
  let p := 2 * l - q in
  p <= q
  /\ (p * 255 <= R <= q * 255 /\ p * 255 <= G <= q * 255
      /\ p * 255 <= B <= q * 255)
  /\ (q * 255 <= R \/ q * 255 <= G \/ q * 255 <= B)
  /\ (R <= p * 255 \/ G <= p * 255 \/ B <= p * 255).
Proof.
  unfold TinyColor.hslToRgb. cbv zeta.
  pose proof (bound01_unit (TinyColor.Num h0) 360 ltac:(lra)) as Hh.
  pose proof (bound01_unit s0 100 ltac:(lra)) as Hs.
  pose proof (bound01_unit l0 100 ltac:(lra)) as Hl.
  set (h := TinyColor.bound01 (TinyColor.Num h0) 360) in *.
  set (s := TinyColor.bound01 s0 100) in *.
  set (l := TinyColor.bound01 l0 100) in *.
  set (q := if Qltb l (1 # 2) then l * (1 + s) else l + s - l * s).
  assert (Hls : 0 <= l * s) by (apply Qmult_le_0_compat; lra).
  assert (Hls' : 0 <= (1 - l) * s) by (apply Qmult_le_0_compat; lra).
  assert (Hq : l <= q) by (unfold q; qcase l (1 # 2); lra).
  destruct (TinyColor.Qeqb s 0) eqn:Es.
  - apply Qeqb_true in Es. intro E. injection E as <- <- <-.
    assert (Eq : q == l).
    { unfold q. qcase l (1 # 2); rewrite Es; ring. }
    rewrite Eq. split; [ lra | ]. split; [ lra | ]. split; left; lra.
  - intro E. injection E as <- <- <-.
    assert (Hpq : 2 * l - q <= q) by lra.
    pose proof (hue2rgb_range (2 * l - q) q (h + (1 # 3)) Hpq
                  ltac:(lra) ltac:(lra)) as Hr.
    pose proof (hue2rgb_range (2 * l - q) q h Hpq ltac:(lra) ltac:(lra)) as Hg.
    pose proof (hue2rgb_range (2 * l - q) q (h - (1 # 3)) Hpq
                  ltac:(lra) ltac:(lra)) as Hb.
    split; [ exact Hpq | ]. split; [ lra | ]. split.
    + destruct (Qlt_le_dec h (1 # 6)) as [H1 | H1].
      { left. pose proof (hue2rgb_top (2 * l - q) q (h + (1 # 3)) Hpq
                            ltac:(left; lra)). lra. }
      destruct (Qlt_le_dec h (1 # 2)) as [H2 | H2].
      { right. left. pose proof (hue2rgb_top (2 * l - q) q h Hpq
                                   ltac:(left; lra)). lra. }
      destruct (Qlt_le_dec h (5 # 6)) as [H3 | H3].
      { right. right. pose proof (hue2rgb_top (2 * l - q) q (h - (1 # 3)) Hpq
                                    ltac:(left; lra)). lra. }
      left. pose proof (hue2rgb_top (2 * l - q) q (h + (1 # 3)) Hpq
                          ltac:(right; lra)). lra.
    + destruct (Qlt_le_dec h (1 # 3)) as [H1 | H1].
      { right. right. pose proof (hue2rgb_bottom (2 * l - q) q (h - (1 # 3)) Hpq
                                    ltac:(right; lra)). lra. }
      destruct (Qlt_le_dec h (2 # 3)) as [H2 | H2].
      { left. pose proof (hue2rgb_bottom (2 * l - q) q (h + (1 # 3)) Hpq
                            ltac:(left; lra)). lra. }
      right. left. pose proof (hue2rgb_bottom (2 * l - q) q h Hpq
                                 ltac:(left; lra)). lra.
Qed.

End Channels01.

Section Lightness.

#[local] Open Scope Q_scope.

Lemma max3_spec (a c e : Q) :
  a <= TinyColor.max3 a c e /\ c <= TinyColor.max3 a c e
  /\ e <= TinyColor.max3 a c e
  /\ (forall u, a <= u -> c <= u -> e <= u -> TinyColor.max3 a c e <= u).
Proof.
  unfold TinyColor.max3.
  destruct (Qmax_spec a c) as (A1 & A2 & A3).
  destruct (Qmax_spec (Qmax a c) e) as (B1 & B2 & B3).
  split; [ lra | ]. split; [ lra | ]. split; [ lra | ].
  intros u Ha Hc He. destruct B3 as [-> | ->]; [ | exact He ].
  destruct A3 as [-> | ->]; assumption.
Qed.

Lemma min3_spec (a c e : Q) :
  TinyColor.min3 a c e <= a /\ TinyColor.min3 a c e <= c
  /\ TinyColor.min3 a c e <= e
  /\ (forall u, u <= a -> u <= c -> u <= e -> u <= TinyColor.min3 a c e).
Proof.
  unfold TinyColor.min3.
  destruct (Qmin_spec a c) as (A1 & A2 & A3).
  destruct (Qmin_spec (Qmin a c) e) as (B1 & B2 & B3).
  split; [ lra | ]. split; [ lra | ]. split; [ lra | ].
  intros u Ha Hc He. destruct B3 as [-> | ->]; [ | exact He ].
  destruct A3 as [-> | ->]; assumption.
Qed.

Lemma lightness_eq (c : TinyColor.t) :
  Spec.lightness c
  = (TinyColor.max3 (TinyColor.bound01 (TinyColor.Num (TinyColor._r c)) 255)
       (TinyColor.bound01 (TinyColor.Num (TinyColor._g c)) 255)
       (TinyColor.bound01 (TinyColor.Num (TinyColor._b c)) 255)
     + TinyColor.min3 (TinyColor.bound01 (TinyColor.Num (TinyColor._r c)) 255)
         (TinyColor.bound01 (TinyColor.Num (TinyColor._g c)) 255)
         (TinyColor.bound01 (TinyColor.Num (TinyColor._b c)) 255)) / 2.
Proof.
  unfold Spec.lightness, TinyColor.toHsl, TinyColor.rgbToHsl. cbv zeta.
  destruct (TinyColor.Qeqb _ _); reflexivity.
Qed.

Lemma channel01 (x : Q) :
  0 <= x <= 255 ->
  x * (1 # 255) <= TinyColor.bound01 (TinyColor.Num x) 255
  /\ TinyColor.bound01 (TinyColor.Num x) 255 <= x * (1 # 255) + (1 # 255000000).
Proof.
  intros [H0 H1].
  destruct (bound01_channel x x x H0 (Qle_refl x) (Qle_refl x) H1) as (A & B & _).
  split; qlra.
Qed.

(** Lightness from channel bounds. *)
Lemma lightness_bounds (c : TinyColor.t) (lo up hi low : Q) :
  Spec.chanBounds c lo up hi low ->
  (lo + hi) * (1 # 510) <= Spec.lightness c
  /\ Spec.lightness c <= (up + low) * (1 # 510) + (1 # 255000000).
Proof.
  intros (Hs & (L1 & L2 & L3) & (U1 & U2 & U3) & Hhi & Hlow).
  destruct Hs as (Sr & Sg & Sb).
  rewrite lightness_eq.
  destruct (channel01 _ Sr) as [Ar Br]. destruct (channel01 _ Sg) as [Ag Bg].
  destruct (channel01 _ Sb) as [Ab Bb].
  set (r' := TinyColor.bound01 (TinyColor.Num (TinyColor._r c)) 255) in *.
  set (g' := TinyColor.bound01 (TinyColor.Num (TinyColor._g c)) 255) in *.
  set (b' := TinyColor.bound01 (TinyColor.Num (TinyColor._b c)) 255) in *.
  destruct (max3_spec r' g' b') as (M1 & M2 & M3 & M4).
  destruct (min3_spec r' g' b') as (N1 & N2 & N3 & N4).
  assert (Mlo : hi * (1 # 255) <= TinyColor.max3 r' g' b')
    by (destruct Hhi as [H | [H | H]]; lra).
  assert (Nlo : lo * (1 # 255) <= TinyColor.min3 r' g' b')
    by (apply N4; lra).
  assert (Mup : TinyColor.max3 r' g' b' <= up * (1 # 255) + (1 # 255000000))
    by (apply M4; lra).
  assert (Nup : TinyColor.min3 r' g' b' <= low * (1 # 255) + (1 # 255000000))
    by (destruct Hlow as [H | [H | H]]; lra).
  split; qlra.
Qed.

Lemma settle_near (x : Q) :
  0 <= x <= 255 ->
  x - (1 # 2) <= TinyColor.settle x <= x + (1 # 2)
  /\ (1 <= x -> TinyColor.settle x == x).
Proof.
  intros [H0 H1]. unfold TinyColor.settle.
  destruct (Qmax_spec x 0) as (A1 & A2 & A3).
  destruct (Qmin_spec 255 (Qmax x 0)) as (B1 & B2 & B3).
  assert (E : Qmin 255 (Qmax x 0) == x).
  { destruct B3 as [E | E]; rewrite E; destruct A3 as [E' | E']; lra. }
  set (c1 := Qmin 255 (Qmax x 0)) in *.
  qcase c1 1.
  - split; [ | intro; exfalso; lra ].
    unfold mathRound.
    pose proof (Qfloor_le (c1 + (1 # 2))) as Hle.
    pose proof (Qlt_floor (c1 + (1 # 2))) as Hlt.
    rewrite inject_Z_plus in Hlt. change (inject_Z 1) with 1 in Hlt.
    split; lra.
  - split; [ split; lra | intro; exact E ].
Qed.

(** A colour built from channels within [0, 255] keeps them, up to the
    rounding of a channel below 1. *)
Lemma of_channels_bounds (R G B lo up hi low : Q) :
  0 <= R <= 255 -> 0 <= G <= 255 -> 0 <= B <= 255 ->
  (lo <= R /\ lo <= G /\ lo <= B) ->
  (R <= up /\ G <= up /\ B <= up) ->
  (hi <= R \/ hi <= G \/ hi <= B) ->
  (R <= low \/ G <= low \/ B <= low) ->
  Spec.chanBounds (TinyColor.of_channels (R, G, B))
    (lo - (1 # 2)) (up + (1 # 2)) (hi - (1 # 2)) (low + (1 # 2))
  /\ (1 <= lo -> Spec.chanBounds (TinyColor.of_channels (R, G, B)) lo up hi low).
Proof.
  intros HR HG HB (L1 & L2 & L3) (U1 & U2 & U3) Hhi Hlow.
  destruct (settle_near R HR) as [NR ER]. destruct (settle_near G HG) as [NG EG].
  destruct (settle_near B HB) as [NB EB].
  pose proof (settle_range R) as SR. pose proof (settle_range G) as SG.
  pose proof (settle_range B) as SB.
  unfold Spec.chanBounds, Spec.settled, TinyColor.of_channels.
  cbn [TinyColor._r TinyColor._g TinyColor._b].
  split.
  - split; [ auto | ]. split; [ lra | ]. split; [ lra | ]. split.
    + destruct Hhi as [H | [H | H]]; [ left | right; left | right; right ]; lra.
    + destruct Hlow as [H | [H | H]]; [ left | right; left | right; right ]; lra.
  - intro H1. rewrite (ER ltac:(lra)), (EG ltac:(lra)), (EB ltac:(lra)).
    split; [ auto | ]. split; [ lra | ]. split; [ lra | ]. split; assumption.
Qed.

End Lightness.

Section OfHsl.

#[local] Open Scope Q_scope.

Lemma mathRound_ge (x : Q) (z : Z) :
  inject_Z z - (1 # 2) <= x -> (z <= mathRound x)%Z.
Proof.
  intro H. unfold mathRound. rewrite <- (Qfloor_Z z).
  apply Qfloor_resp_le. lra.
Qed.

Lemma mathRound_le (x : Q) (z : Z) :
  x < inject_Z z + (1 # 2) -> (mathRound x <= z)%Z.
Proof.
  intro H. unfold mathRound.
  pose proof (Qfloor_le (x + (1 # 2))) as Hle.
  assert (A : (Qfloor (x + (1 # 2)) < z + 1)%Z).
  { rewrite Zlt_Qlt, inject_Z_plus. change (inject_Z 1) with 1. lra. }
  lia.
Qed.

Lemma clamp01_spec (v : Q) :
  0 <= TinyColor.clamp01 v <= 1
  /\ (v <= 0 -> TinyColor.clamp01 v == 0)
  /\ (1 <= v -> TinyColor.clamp01 v == 1)
  /\ (0 <= v -> v <= 1 -> TinyColor.clamp01 v == v).
Proof.
  unfold TinyColor.clamp01.
  destruct (Qmax_spec 0 v) as (A1 & A2 & A3).
  destruct (Qmin_spec 1 (Qmax 0 v)) as (B1 & B2 & B3).
  split; [ split; [ destruct B3 as [-> | ->]; lra | lra ] | ].
  split; [ | split ].
  - intro H. destruct B3 as [E | E]; rewrite E; destruct A3 as [E' | E']; lra.
  - intro H. destruct B3 as [E | E]; rewrite E; destruct A3 as [E' | E']; lra.
  - intros H0 H1.
    destruct B3 as [E | E]; rewrite E; destruct A3 as [E' | E']; lra.
Qed.

(** An upper bound survives the percentage round trip, whatever the sign
    of the input. *)
Lemma bound01_percent_upper (v u : Q) :
  v <= u -> 0 <= u -> u <= 1 ->
  TinyColor.bound01 (TinyColor.convertToPercentage v) 100 <= u.
Proof.
  intros Hv H0 H1.
  destruct (Qlt_le_dec v 0) as [Hneg | Hpos].
  - unfold TinyColor.convertToPercentage.
    replace (Qle_bool v 1) with true by (symmetry; apply Qle_bool_iff; lra).
    unfold TinyColor.bound01. cbv beta iota zeta.
    destruct (clamp_range 0 100 (v * 100)) as [[A1 A2] _]; [ lra | ].
    destruct (Qmax_spec 0 (v * 100)) as (M1 & M2 & M3).
    destruct (Qmin_spec 100 (Qmax 0 (v * 100))) as (N1 & N2 & N3).
    assert (E : Qmin 100 (Qmax 0 (v * 100)) == 0).
    { destruct N3 as [E | E]; rewrite E; destruct M3 as [E' | E']; lra. }
    set (n1 := Qmin 100 (Qmax 0 (v * 100))) in *.
    assert (Ek : Qfloor (n1 * 100) = 0%Z) by (apply Qfloor_unit; lra).
    rewrite Ek.
    match goal with
    | |- ?L <= u => assert (E0 : L == 0) by (vm_compute; reflexivity);
                    rewrite E0
    end.
    exact H0.
  - destruct (bound01_percent v Hpos ltac:(lra)) as [_ H]. lra.
Qed.

(** The channels of [tinycolor({h, s, l})]. *)
Lemma of_hsl_bounds (h s l0 : Q) :
  let s' := TinyColor.bound01 (TinyColor.convertToPercentage s) 100 in
  let l' := TinyColor.bound01 (TinyColor.convertToPercentage l0) 100 in
  let q := if Qltb l' (1 # 2) then l' * (1 + s') else l' + s' - l' * s' in
  let p := 2 * l' - q in
  (0 <= p /\ p <= q /\ q <= 1)
  /\ Spec.chanBounds (TinyColor.of_hsl h s l0)
       (p * 255 - (1 # 2)) (q * 255 + (1 # 2))
       (q * 255 - (1 # 2)) (p * 255 + (1 # 2))
  /\ (1 <= p * 255 ->
      Spec.chanBounds (TinyColor.of_hsl h s l0)
        (p * 255) (q * 255) (q * 255) (p * 255)).
Proof.
  cbv zeta. unfold TinyColor.of_hsl.
  destruct (TinyColor.hslToRgb h (TinyColor.convertToPercentage s)
              (TinyColor.convertToPercentage l0)) as [[R G] B] eqn:E.
  pose proof (hslToRgb_channels _ _ _ _ _ _ E) as H. cbv zeta in H.
  pose proof (bound01_unit (TinyColor.convertToPercentage s) 100 ltac:(lra)) as Hs.
  pose proof (bound01_unit (TinyColor.convertToPercentage l0) 100 ltac:(lra)) as Hl.
  set (s' := TinyColor.bound01 (TinyColor.convertToPercentage s) 100) in *.
  set (l' := TinyColor.bound01 (TinyColor.convertToPercentage l0) 100) in *.
  set (q := if Qltb l' (1 # 2) then l' * (1 + s') else l' + s' - l' * s') in *.
  assert (Hls : 0 <= l' * s') by (apply Qmult_le_0_compat; lra).
  assert (Hls1 : 0 <= l' * (1 - s')) by (apply Qmult_le_0_compat; lra).
  assert (Hls2 : 0 <= (1 - l') * (1 - s')) by (apply Qmult_le_0_compat; lra).
  assert (Hq : 0 <= 2 * l' - q /\ q <= 1) by (unfold q; qcase l' (1 # 2); split; lra).
  destruct H as (Hpq & (HR & HG & HB) & Hhi & Hlow).
  split; [ lra | ].
  apply of_channels_bounds; try lra; repeat split; lra.
Qed.

Lemma of_channels_black (R G B : Q) :
  0 <= R -> R < (1 # 2) -> 0 <= G -> G < (1 # 2) -> 0 <= B -> B < (1 # 2) ->
  TinyColor.toRgb (TinyColor.of_channels (R, G, B)) = mkRGB 0 0 0.
Proof.
  intros R0 R1 G0 G1 B0 B1.
  assert (Z0 : forall x, 0 <= x -> x < (1 # 2) -> mathRound (TinyColor.settle x) = 0%Z).
  { intros x H0 H1. unfold TinyColor.settle.
    destruct (Qmax_spec x 0) as (A1 & A2 & A3).
    destruct (Qmin_spec 255 (Qmax x 0)) as (B1' & B2 & B3).
    assert (E : Qmin 255 (Qmax x 0) == x).
    { destruct B3 as [E | E]; rewrite E; destruct A3 as [E' | E']; lra. }
    set (c1 := Qmin 255 (Qmax x 0)) in *.
    qcase c1 1; [ | exfalso; lra ].
    assert (Em : mathRound c1 = 0%Z)
      by (unfold mathRound; apply Qfloor_unit; lra).
    rewrite Em. reflexivity. }
  unfold TinyColor.toRgb, TinyColor.of_channels.
  cbn [TinyColor._r TinyColor._g TinyColor._b].
  rewrite (Z0 R R0 R1), (Z0 G G0 G1), (Z0 B B0 B1). reflexivity.
Qed.

(** Integer channels from channel bounds. *)
Lemma toRgb_bounds (c : TinyColor.t) (lo up hi low : Q) (zlo zup : Z) :
  Spec.chanBounds c lo up hi low ->
  inject_Z zlo - (1 # 2) <= lo -> up < inject_Z zup + (1 # 2) ->
  (zlo <= r (TinyColor.toRgb c) <= zup /\ zlo <= g (TinyColor.toRgb c) <= zup
   /\ zlo <= b (TinyColor.toRgb c) <= zup)%Z.
Proof.
  intros (_ & (L1 & L2 & L3) & (U1 & U2 & U3) & _) Hlo Hup.
  unfold TinyColor.toRgb. cbn [r g b].
  repeat match goal with
         | |- _ /\ _ => split
         | |- (_ <= mathRound _)%Z => apply mathRound_ge; lra
         | |- (mathRound _ <= _)%Z => apply mathRound_le; lra
         end.
Qed.

Lemma toHsl_lightness (c : TinyColor.t) :
  exists h s, TinyColor.toHsl c = (h, s, Spec.lightness c).
Proof.
  unfold Spec.lightness. destruct (TinyColor.toHsl c) as [[h s] l].
  exists h, s. reflexivity.
Qed.

Lemma lighten_eq (c : TinyColor.t) (a : Q) :
  exists h s,
    TinyColor.lighten c a
    = TinyColor.of_hsl h s (TinyColor.clamp01 (Spec.lightness c + a / 100)).
Proof.
  destruct (toHsl_lightness c) as (h & s & E). exists h, s.
  unfold TinyColor.lighten. rewrite E. reflexivity.
Qed.

Lemma darken_eq (c : TinyColor.t) (a : Q) :
  exists h s,
    TinyColor.darken c a
    = TinyColor.of_hsl h s (TinyColor.clamp01 (Spec.lightness c - a / 100)).
Proof.
  destruct (toHsl_lightness c) as (h & s & E). exists h, s.
  unfold TinyColor.darken. rewrite E. reflexivity.
Qed.

End OfHsl.

(* ------------------------------------------------------------------ *)
(** ** Lightening towards white, darkening towards black *)

Section Trajectory.

#[local] Open Scope Q_scope.

Lemma mathRound_near (x : Q) :
  x - (1 # 2) <= inject_Z (mathRound x) <= x + (1 # 2).
Proof.
  unfold mathRound.
  pose proof (Qfloor_le (x + (1 # 2))) as Hle.
  pose proof (Qlt_floor (x + (1 # 2))) as Hlt.
  rewrite inject_Z_plus in Hlt. change (inject_Z 1) with 1 in Hlt.
  split; lra.
Qed.

(** Printing and re-reading a colour moves each channel by at most 1/2. *)
Lemma hex_bounds (c : TinyColor.t) (lo up hi low : Q) :
  Spec.chanBounds c lo up hi low ->
  Spec.chanBounds (TinyColor.of_string (TinyColor.toHexString c))
    (lo - (1 # 2)) (up + (1 # 2)) (hi - (1 # 2)) (low + (1 # 2)).
Proof.
  intros ((Sr & Sg & Sb) & (L1 & L2 & L3) & (U1 & U2 & U3) & Hhi & Hlow).
  unfold TinyColor.of_string.
  rewrite (parse_hex_toHexString c Sr Sg Sb).
  unfold TinyColor.of_rgb, TinyColor.of_channels.
  fold (Checks.storedChannel (mathRound (TinyColor._r c))).
  fold (Checks.storedChannel (mathRound (TinyColor._g c))).
  fold (Checks.storedChannel (mathRound (TinyColor._b c))).
  pose proof (storedChannel_eq _ (mathRound_range _ 0 255 (proj1 Sr) (proj2 Sr))) as Er.
  pose proof (storedChannel_eq _ (mathRound_range _ 0 255 (proj1 Sg) (proj2 Sg))) as Eg.
  pose proof (storedChannel_eq _ (mathRound_range _ 0 255 (proj1 Sb) (proj2 Sb))) as Eb.
  pose proof (mathRound_near (TinyColor._r c)) as Nr.
  pose proof (mathRound_near (TinyColor._g c)) as Ng.
  pose proof (mathRound_near (TinyColor._b c)) as Nb.
  pose proof (settle_range
                (TinyColor.bound01
                   (TinyColor.Num (inject_Z (mathRound (TinyColor._r c)))) 255
                 * 255)) as Rr.
  pose proof (settle_range
                (TinyColor.bound01
                   (TinyColor.Num (inject_Z (mathRound (TinyColor._g c)))) 255
                 * 255)) as Rg.
  pose proof (settle_range
                (TinyColor.bound01
                   (TinyColor.Num (inject_Z (mathRound (TinyColor._b c)))) 255
                 * 255)) as Rb.
  fold (Checks.storedChannel (mathRound (TinyColor._r c))) in Rr.
  fold (Checks.storedChannel (mathRound (TinyColor._g c))) in Rg.
  fold (Checks.storedChannel (mathRound (TinyColor._b c))) in Rb.
  unfold Spec.chanBounds, Spec.settled.
  cbn [TinyColor._r TinyColor._g TinyColor._b].
  split; [ auto | ]. split; [ lra | ]. split; [ lra | ]. split.
  - destruct Hhi as [H | [H | H]]; [ left | right; left | right; right ]; lra.
  - destruct Hlow as [H | [H | H]]; [ left | right; left | right; right ]; lra.
Qed.

(** Lightening by [a]: the channels of the result, when the lightness
    reached is above one half. *)
Lemma lighten_bounds (c : TinyColor.t) (a x y : Q) :
  x <= Spec.lightness c -> 0 <= a ->
  y <= x + a * (1 # 100) - (1 # 10000) -> y <= 9999 # 10000 -> (51 # 100) <= y ->
  exists p q,
    2 * y <= p + q /\ p <= q /\ q <= 1
    /\ Spec.chanBounds (TinyColor.lighten c a) (p * 255) (q * 255) (q * 255) (p * 255).
Proof.
  intros Hx Ha Hy Hy1 Hy0.
  destruct (lighten_eq c a) as (h & s & ->).
  set (lt := TinyColor.clamp01 (Spec.lightness c + a / 100)).
  destruct (clamp01_spec (Spec.lightness c + a / 100)) as (Hr & _ & H1 & Hid).
  fold lt in Hr, H1, Hid.
  assert (Hlt : y + (1 # 10000) <= lt).
  { destruct (Qlt_le_dec (Spec.lightness c + a / 100) 1) as [L | L].
    - rewrite Hid; qlra.
    - rewrite H1; qlra. }
  destruct (bound01_percent lt (proj1 Hr) (proj2 Hr)) as [Hl' _].
  destruct (of_hsl_bounds h s lt) as ((Hp0 & Hpq & Hq1) & _ & Hexact).
  cbv zeta in *.
  set (l' := TinyColor.bound01 (TinyColor.convertToPercentage lt) 100) in *.
  set (s' := TinyColor.bound01 (TinyColor.convertToPercentage s) 100) in *.
  set (q := if Qltb l' (1 # 2) then l' * (1 + s') else l' + s' - l' * s') in *.
  exists (2 * l' - q), q.
  split; [ lra | ]. split; [ exact Hpq | ]. split; [ exact Hq1 | ].
  apply Hexact. lra.
Qed.

(** Darkening by [a]: the channels of the result. *)
Lemma darken_bounds (c : TinyColor.t) (a x y : Q) :
  Spec.lightness c <= x -> 0 <= a ->
  x - a * (1 # 100) <= y -> 0 <= y -> y <= 1 ->
  exists p q,
    p + q <= 2 * y /\ 0 <= p /\ p <= q
    /\ Spec.chanBounds (TinyColor.darken c a)
         (p * 255 - (1 # 2)) (q * 255 + (1 # 2))
         (q * 255 - (1 # 2)) (p * 255 + (1 # 2)).
Proof.
  intros Hx Ha Hy Hy0 Hy1.
  destruct (darken_eq c a) as (h & s & ->).
  set (lt := TinyColor.clamp01 (Spec.lightness c - a / 100)).
  destruct (clamp01_spec (Spec.lightness c - a / 100)) as (Hr & H0 & _ & Hid).
  fold lt in Hr, H0, Hid.
  assert (Hlt : lt <= y).
  { destruct (Qlt_le_dec (Spec.lightness c - a / 100) 0) as [L | L].
    - rewrite H0; qlra.
    - assert (Spec.lightness c - a / 100 <= 1) by qlra.
      rewrite Hid; qlra. }
  pose proof (bound01_percent_upper lt y Hlt Hy0 Hy1) as Hl'.
  destruct (of_hsl_bounds h s lt) as ((Hp0 & Hpq & Hq1) & Hb & _).
  cbv zeta in *.
  set (l' := TinyColor.bound01 (TinyColor.convertToPercentage lt) 100) in *.
  set (s' := TinyColor.bound01 (TinyColor.convertToPercentage s) 100) in *.
  set (q := if Qltb l' (1 # 2) then l' * (1 + s') else l' + s' - l' * s') in *.
  exists (2 * l' - q), q.
  split; [ lra | ]. split; [ exact Hp0 | ]. split; [ exact Hpq | exact Hb ].
Qed.

Lemma of_hsl_black (h s l0 : Q) :
  l0 <= 0 -> TinyColor.toRgb (TinyColor.of_hsl h s l0) = mkRGB 0 0 0.
Proof.
  intro H0. unfold TinyColor.of_hsl.
  destruct (TinyColor.hslToRgb h (TinyColor.convertToPercentage s)
              (TinyColor.convertToPercentage l0)) as [[R G] B] eqn:E.
  pose proof (hslToRgb_channels _ _ _ _ _ _ E) as H. cbv zeta in H.
  pose proof (bound01_unit (TinyColor.convertToPercentage s) 100 ltac:(lra)) as Hs.
  pose proof (bound01_unit (TinyColor.convertToPercentage l0) 100 ltac:(lra)) as Hl.
  pose proof (bound01_percent_upper l0 0 H0 ltac:(lra) ltac:(lra)) as Hl0.
  set (s' := TinyColor.bound01 (TinyColor.convertToPercentage s) 100) in *.
  set (l' := TinyColor.bound01 (TinyColor.convertToPercentage l0) 100) in *.
  set (q := if Qltb l' (1 # 2) then l' * (1 + s') else l' + s' - l' * s') in *.
  assert (El : l' == 0) by lra.
  assert (Eq : q == 0).
  { unfold q. qcase l' (1 # 2); [ rewrite El; ring | exfalso; lra ]. }
  destruct H as (Hpq & (HR & HG & HB) & _).
  apply of_channels_black; lra.
Qed.

Lemma stepped_succ_r (d : bool) (k : nat) (c : TinyColor.t) :
  Spec.stepped d (S k) c
  = if d then TinyColor.lighten (Spec.stepped d k c) 1
    else TinyColor.darken (Spec.stepped d k c) 1.
Proof.
  revert c. induction k as [| k IH]; intro c; [ reflexivity | ].
  change (Spec.stepped d (S (S k)) c)
    with (Spec.stepped d (S k)
            (if d then TinyColor.lighten c 1 else TinyColor.darken c 1)).
  rewrite IH. reflexivity.
Qed.

(** Lightness rises by at least 0.0099 per step, up to 0.9999. *)
Lemma lighten_steps (k : nat) :
  forall (c : TinyColor.t) (x y : Q),
    x <= Spec.lightness c -> (55 # 100) <= x ->
    y <= x + inject_Z (Z.of_nat k) * (99 # 10000) -> y <= 9999 # 10000 ->
    y <= Spec.lightness (Spec.stepped true k c).
Proof.
  induction k as [| k IH]; intros c x y Hx Hx0 Hy Hy1.
  - change (inject_Z (Z.of_nat 0)) with 0 in Hy.
    change (Spec.stepped true 0 c) with c. lra.
  - change (Spec.stepped true (S k) c)
      with (Spec.stepped true k (TinyColor.lighten c 1)).
    rewrite Nat2Z.inj_succ, <- Z.add_1_r, inject_Z_plus in Hy.
    change (inject_Z 1) with 1 in Hy.
    assert (Hk : 0 <= inject_Z (Z.of_nat k)).
    { change 0 with (inject_Z 0). rewrite <- Zle_Qle. lia. }
    destruct (Qlt_le_dec (x + (99 # 10000)) (9999 # 10000)) as [L | L].
    + apply (IH (TinyColor.lighten c 1) (x + (99 # 10000)) y); try lra.
      destruct (lighten_bounds c 1 x (x + (99 # 10000)) Hx)
        as (p & q & Hs & Hpq & Hq & Hb); try lra.
      destruct (lightness_bounds _ _ _ _ _ Hb) as [Hl _]. lra.
    + apply (IH (TinyColor.lighten c 1) (9999 # 10000) y); try lra.
      destruct (lighten_bounds c 1 x (9999 # 10000) Hx)
        as (p & q & Hs & Hpq & Hq & Hb); try lra.
      destruct (lightness_bounds _ _ _ _ _ Hb) as [Hl _]. lra.
Qed.

(** Lightness falls by at least 0.008 per step, down to 0.002. *)
Lemma darken_steps (k : nat) :
  forall (c : TinyColor.t) (x y : Q),
    Spec.lightness c <= x -> x <= 1 ->
    x - inject_Z (Z.of_nat k) * (8 # 1000) <= y -> (2 # 1000) <= y ->
    Spec.lightness (Spec.stepped false k c) <= y.
Proof.
  induction k as [| k IH]; intros c x y Hx Hx1 Hy Hy0.
  - change (inject_Z (Z.of_nat 0)) with 0 in Hy.
    change (Spec.stepped false 0 c) with c. lra.
  - change (Spec.stepped false (S k) c)
      with (Spec.stepped false k (TinyColor.darken c 1)).
    rewrite Nat2Z.inj_succ, <- Z.add_1_r, inject_Z_plus in Hy.
    change (inject_Z 1) with 1 in Hy.
    assert (Hk : 0 <= inject_Z (Z.of_nat k)).
    { change 0 with (inject_Z 0). rewrite <- Zle_Qle. lia. }
    destruct (Qlt_le_dec (x - (8 # 1000)) (2 # 1000)) as [L | L].
    + apply (IH (TinyColor.darken c 1) (2 # 1000) y); try lra.
      destruct (Qlt_le_dec x (1 # 100)) as [L' | L'].
      * destruct (darken_bounds c 1 x 0 Hx)
          as (p & q & Hs & Hp & Hpq & Hb); try lra.
        destruct (lightness_bounds _ _ _ _ _ Hb) as [_ Hl]. lra.
      * exfalso. lra.
    + apply (IH (TinyColor.darken c 1) (x - (8 # 1000)) y); try lra.
      destruct (darken_bounds c 1 x (x - (1 # 100)) Hx)
        as (p & q & Hs & Hp & Hpq & Hb); try lra.
      destruct (lightness_bounds _ _ _ _ _ Hb) as [_ Hl]. lra.
Qed.

(** A hundred lightening steps from a colour of lightness at least 0.55
    end on white. *)
Lemma lighten_100_white (c : TinyColor.t) :
  (55 # 100) <= Spec.lightness c ->
  TinyColor.toRgb (Spec.stepped true 100 c) = mkRGB 255 255 255.
Proof.
  intro H. rewrite stepped_succ_r.
  pose proof (lighten_steps 99 c (55 # 100) (99 # 100) H ltac:(lra)
                ltac:(vm_compute; discriminate) ltac:(lra)) as H99.
  set (c99 := Spec.stepped true 99 c) in *.
  destruct (lighten_bounds c99 1 (99 # 100) (9999 # 10000) H99)
    as (p & q & Hs & Hpq & Hq & Hb); try lra.
  pose proof Hb as ((Sr & Sg & Sb) & _).
  destruct (toRgb_bounds _ _ _ _ _ 255 255 Hb) as (Br & Bg & Bb).
  - change (inject_Z 255) with 255. lra.
  - change (inject_Z 255) with 255. lra.
  - destruct (TinyColor.toRgb (TinyColor.lighten c99 1)) as [r0 g0 b0].
    cbn [r g b] in *. f_equal; lia.
Qed.

(** A hundred darkening steps from a colour of lightness at most 0.8 end
    on black. *)
Lemma darken_100_black (c : TinyColor.t) :
  Spec.lightness c <= (8 # 10) ->
  TinyColor.toRgb (Spec.stepped false 100 c) = mkRGB 0 0 0.
Proof.
  intro H. rewrite stepped_succ_r.
  pose proof (darken_steps 99 c (8 # 10) (1 # 100) H ltac:(lra)
                ltac:(vm_compute; discriminate) ltac:(lra)) as H99.
  set (c99 := Spec.stepped false 99 c) in *.
  destruct (darken_eq c99 1) as (h & s & ->).
  apply of_hsl_black.
  destruct (clamp01_spec (Spec.lightness c99 - 1 / 100)) as (_ & H0 & _).
  rewrite H0; [ lra | qlra ].
Qed.

End Trajectory.

(* ------------------------------------------------------------------ *)
(** ** Ramp candidates and backgrounds of the role assignment *)

Section Roles.

#[local] Open Scope Q_scope.

Import ColorUtils PalettePage.

Lemma Qmult_le_bounds (a c u v : Q) :
  0 <= a -> a <= u -> 0 <= c -> c <= v -> a * c <= u * v.
Proof.
  intros Ha Hu Hc Hv.
  assert (0 <= (u - a) * c) by (apply Qmult_le_0_compat; lra).
  assert (0 <= u * (v - c)) by (apply Qmult_le_0_compat; lra).
  lra.
Qed.

Lemma headingCandidate_eq (vibeBase : string) (isBgDark : bool) :
  headingCandidate vibeBase isBgDark
  = TinyColor.toHexString
      (if isBgDark then TinyColor.lighten (TinyColor.of_string vibeBase) 96
       else TinyColor.darken (TinyColor.of_string vibeBase) 96).
Proof. destruct isBgDark; reflexivity. Qed.

Lemma bodyCandidate_eq (vibeBase : string) (isBgDark : bool) :
  bodyCandidate vibeBase isBgDark
  = TinyColor.toHexString
      (if isBgDark then TinyColor.lighten (TinyColor.of_string vibeBase) 72
       else TinyColor.darken (TinyColor.of_string vibeBase) 72).
Proof. destruct isBgDark; reflexivity. Qed.

Lemma of_string_settled (s : string) : Spec.settled (TinyColor.of_string s).
Proof.
  unfold TinyColor.of_string, TinyColor.of_rgb, TinyColor.of_channels, Spec.settled.
  destruct (TinyColor.parse_hex s) as [[[x y] z] |];
    cbn [TinyColor._r TinyColor._g TinyColor._b];
    repeat split; apply settle_range.
Qed.

Lemma settled_lightness (c : TinyColor.t) :
  Spec.settled c -> 0 <= Spec.lightness c /\ Spec.lightness c <= 101 # 100.
Proof.
  intros (Sr & Sg & Sb).
  assert (Hb : Spec.chanBounds c 0 255 0 255).
  { unfold Spec.chanBounds, Spec.settled.
    repeat split; try lra; left; lra. }
  destruct (lightness_bounds _ _ _ _ _ Hb) as [Hl Hu]. split; lra.
Qed.

(** A tint of index 5 or 7, printed and read back, is light. *)
Lemma tint_lightness (s : string) (a : Q) :
  72 <= a ->
  (55 # 100)
  <= Spec.lightness
       (TinyColor.clone
          (TinyColor.of_string
             (TinyColor.toHexString
                (TinyColor.lighten (TinyColor.of_string s) a)))).
Proof.
  intro Ha.
  destruct (settled_lightness _ (of_string_settled s)) as [H0 _].
  destruct (lighten_bounds (TinyColor.of_string s) a 0 (7 # 10) H0)
    as (p & q & Hs & Hpq & Hq & Hb); try lra.
  apply hex_bounds, hex_bounds in Hb. unfold TinyColor.clone.
  destruct (lightness_bounds _ _ _ _ _ Hb) as [Hl _]. lra.
Qed.

(** A shade of index 5 or 7, printed and read back, is dark. *)
Lemma shade_lightness (s : string) (a : Q) :
  72 <= a ->
  Spec.lightness
    (TinyColor.clone
       (TinyColor.of_string
          (TinyColor.toHexString (TinyColor.darken (TinyColor.of_string s) a))))
  <= 8 # 10.
Proof.
  intro Ha.
  destruct (settled_lightness _ (of_string_settled s)) as [_ H1].
  destruct (darken_bounds (TinyColor.of_string s) a (101 # 100) (3 # 10) H1)
    as (p & q & Hs & Hp & Hpq & Hb); try lra.
  apply hex_bounds, hex_bounds in Hb. unfold TinyColor.clone.
  destruct (lightness_bounds _ _ _ _ _ Hb) as [_ Hu]. lra.
Qed.

(** The "dark" background: every channel is at most 25. *)
Lemma dark_background_channels (h s : Q) :
  let c := TinyColor.of_hsl h (Qmin s (2 # 10)) (8 # 100) in
  Spec.settled c
  /\ (0 <= r (TinyColor.toRgb c) <= 25 /\ 0 <= g (TinyColor.toRgb c) <= 25
      /\ 0 <= b (TinyColor.toRgb c) <= 25)%Z.
Proof.
  cbv zeta.
  destruct (of_hsl_bounds h (Qmin s (2 # 10)) (8 # 100))
    as ((Hp0 & Hpq & Hq1) & Hb & _).
  cbv zeta in *.
  destruct (bound01_percent (8 # 100) ltac:(lra) ltac:(lra)) as [_ Hl].
  pose proof (bound01_unit (TinyColor.convertToPercentage (8 # 100)) 100
                ltac:(lra)) as Hl0.
  destruct (Qmin_spec s (2 # 10)) as (_ & Hm & _).
  pose proof (bound01_percent_upper (Qmin s (2 # 10)) (2 # 10) Hm
                ltac:(lra) ltac:(lra)) as Hs.
  pose proof (bound01_unit (TinyColor.convertToPercentage (Qmin s (2 # 10))) 100
                ltac:(lra)) as Hs0.
  set (l' := TinyColor.bound01 (TinyColor.convertToPercentage (8 # 100)) 100) in *.
  set (s' := TinyColor.bound01
               (TinyColor.convertToPercentage (Qmin s (2 # 10))) 100) in *.
  set (q := if Qltb l' (1 # 2) then l' * (1 + s') else l' + s' - l' * s') in *.
  assert (Hq : q <= 96 # 1000).
  { unfold q. qcase l' (1 # 2); [ | exfalso; lra ].
    assert (l' * s' <= (8 # 100) * (2 # 10))
      by (apply Qmult_le_bounds; lra).
    lra. }
  split; [ exact (proj1 Hb) | ].
  apply (toRgb_bounds _ _ _ _ _ 0 25 Hb).
  - change (inject_Z 0) with 0. lra.
  - change (inject_Z 25) with 25. lra.
Qed.

(** The "light" background: every channel is at least 249. *)
Lemma light_background_channels (h s : Q) :
  let c := TinyColor.of_hsl h (Qmin s (1 # 10)) (98 # 100) in
  Spec.settled c
  /\ (249 <= r (TinyColor.toRgb c) <= 255 /\ 249 <= g (TinyColor.toRgb c) <= 255
      /\ 249 <= b (TinyColor.toRgb c) <= 255)%Z.
Proof.
  cbv zeta.
  destruct (of_hsl_bounds h (Qmin s (1 # 10)) (98 # 100))
    as ((Hp0 & Hpq & Hq1) & _ & Hb).
  cbv zeta in *.
  destruct (bound01_percent (98 # 100) ltac:(lra) ltac:(lra)) as [Hl Hl1].
  destruct (Qmin_spec s (1 # 10)) as (_ & Hm & _).
  pose proof (bound01_percent_upper (Qmin s (1 # 10)) (1 # 10) Hm
                ltac:(lra) ltac:(lra)) as Hs.
  pose proof (bound01_unit (TinyColor.convertToPercentage (Qmin s (1 # 10))) 100
                ltac:(lra)) as Hs0.
  set (l' := TinyColor.bound01 (TinyColor.convertToPercentage (98 # 100)) 100) in *.
  set (s' := TinyColor.bound01
               (TinyColor.convertToPercentage (Qmin s (1 # 10))) 100) in *.
  set (q := if Qltb l' (1 # 2) then l' * (1 + s') else l' + s' - l' * s') in *.
  assert (Hq : q <= l' + (201 # 100000)).
  { unfold q. qcase l' (1 # 2); [ exfalso; lra | ].
    assert (s' * (1 - l') <= (1 # 10) * (201 # 10000))
      by (apply Qmult_le_bounds; lra).
    lra. }
  specialize (Hb ltac:(lra)).
  split; [ exact (proj1 Hb) | ].
  apply (toRgb_bounds _ _ _ _ _ 249 255 Hb).
  - change (inject_Z 249) with 249. lra.
  - change (inject_Z 255) with 255. lra.
Qed.

End Roles.

(* ------------------------------------------------------------------ *)
(** ** Text roles *)

Section TextRoles.

Import ColorUtils PalettePage.

Lemma isDark_low (c : TinyColor.t) :
  (0 <= r (TinyColor.toRgb c) <= 25 /\ 0 <= g (TinyColor.toRgb c) <= 25
   /\ 0 <= b (TinyColor.toRgb c) <= 25)%Z ->
  TinyColor.isDark c = true.
Proof.
  intros (Hr & Hg & Hb). unfold TinyColor.isDark, TinyColor.getBrightness.
  apply Qltb_lt.
  destruct Hr as [Hr0 Hr1]. destruct Hg as [Hg0 Hg1]. destruct Hb as [Hb0 Hb1].
  rewrite Zle_Qle in Hr1, Hg1, Hb1.
  change (inject_Z 25) with 25%Q in *. qlra.
Qed.

Lemma isDark_high (c : TinyColor.t) :
  (241 <= r (TinyColor.toRgb c) /\ 241 <= g (TinyColor.toRgb c)
   /\ 241 <= b (TinyColor.toRgb c))%Z ->
  TinyColor.isDark c = false.
Proof.
  intros (Hr & Hg & Hb). unfold TinyColor.isDark, TinyColor.getBrightness.
  apply Qltb_ge.
  rewrite Zle_Qle in Hr, Hg, Hb.
  change (inject_Z 241) with 241%Q in *. qlra.
Qed.

#[local] Open Scope R_scope.

Lemma linearize_low (z : Z) : (0 <= z <= 25)%Z -> TinyColor.linearize z <= 0.146.
Proof.
  intros [Hlo Hhi]. destruct (Z_lt_le_dec z 11) as [Hs | Hb].
  - assert (Hz : (z <= 10)%Z) by lia. apply IZR_le in Hlo, Hz.
    unfold TinyColor.linearize. cbv zeta.
    destruct (Rle_dec (IZR z / 255) 0.03928) as [H | H];
      [ lra | exfalso; lra ].
  - destruct (linearize_gamma z) as [-> Hy]; [ lia | ].
    pose proof (Rpower_24_bounds _ Hy) as Hp.
    apply IZR_le in Hhi.
    set (y := (IZR z / 255 + 0.055) / 1.055) in *.
    assert (y <= 0.1451) by (unfold y; lra).
    assert (y * y <= y) by nra. lra.
Qed.

Lemma linearize_high (z : Z) :
  (241 <= z <= 255)%Z -> 0.85 <= TinyColor.linearize z.
Proof.
  intros [Hlo Hhi].
  destruct (linearize_gamma z) as [-> Hy]; [ lia | ].
  pose proof (Rpower_24_bounds _ Hy) as Hp.
  apply IZR_le in Hlo.
  set (y := (IZR z / 255 + 0.055) / 1.055) in *.
  assert (Hy1 : 0.9479 <= y) by (unfold y; lra).
  assert (0.8985 <= y * y) by nra.
  assert (0.8516 <= y * y * y) by nra. lra.
Qed.

Lemma luminance_low (c : TinyColor.t) :
  (0 <= r (TinyColor.toRgb c) <= 25 /\ 0 <= g (TinyColor.toRgb c) <= 25
   /\ 0 <= b (TinyColor.toRgb c) <= 25)%Z ->
  TinyColor.getLuminance c <= 0.146.
Proof.
  intros (Hr & Hg & Hb). unfold TinyColor.getLuminance.
  pose proof (linearize_low _ Hr). pose proof (linearize_low _ Hg).
  pose proof (linearize_low _ Hb). lra.
Qed.

Lemma luminance_high (c : TinyColor.t) :
  (241 <= r (TinyColor.toRgb c) <= 255 /\ 241 <= g (TinyColor.toRgb c) <= 255
   /\ 241 <= b (TinyColor.toRgb c) <= 255)%Z ->
  0.85 <= TinyColor.getLuminance c.
Proof.
  intros (Hr & Hg & Hb). unfold TinyColor.getLuminance.
  pose proof (linearize_high _ Hr). pose proof (linearize_high _ Hg).
  pose proof (linearize_high _ Hb). lra.
Qed.

(** Against a background of low luminance nothing beats white. *)
Lemma white_is_best (bg slot : string) :
  TinyColor.getLuminance (TinyColor.of_string bg) <= 0.146 ->
  TinyColor.getLuminance (TinyColor.of_string slot) = 1 ->
  forall s, TinyColor.readability s bg <= TinyColor.readability slot bg.
Proof.
  intros Hb Hs s.
  pose proof (getLuminance_range bg) as Hr.
  assert (E : TinyColor.readability slot bg
              = 1.05 / (TinyColor.getLuminance (TinyColor.of_string bg) + 0.05)).
  { destruct (readability_cases slot bg) as [[Hle ->] | [_ ->]]; rewrite Hs in *.
    - exfalso. lra.
    - f_equal. lra. }
  rewrite E. set (Lb := TinyColor.getLuminance (TinyColor.of_string bg)) in *.
  apply readability_bound; fold Lb; [ | lra ].
  apply div_le_bound; [ lra | ].
  replace (1.05 / (Lb + 0.05) * 0.05) with (1.05 * 0.05 / (Lb + 0.05))
    by (unfold Rdiv; ring).
  apply div_ge_bound; [ lra | ]. nra.
Qed.

(** Against a background of high luminance nothing beats black. *)
Lemma black_is_best (bg slot : string) :
  0.85 <= TinyColor.getLuminance (TinyColor.of_string bg) ->
  TinyColor.getLuminance (TinyColor.of_string slot) = 0 ->
  forall s, TinyColor.readability s bg <= TinyColor.readability slot bg.
Proof.
  intros Hb Hs s.
  pose proof (getLuminance_range bg) as Hr.
  assert (E : TinyColor.readability slot bg
              = (TinyColor.getLuminance (TinyColor.of_string bg) + 0.05) / 0.05).
  { destruct (readability_cases slot bg) as [[_ ->] | [Hle ->]]; rewrite Hs in *.
    - f_equal. lra.
    - exfalso. lra. }
  rewrite E. set (Lb := TinyColor.getLuminance (TinyColor.of_string bg)) in *.
  apply readability_bound; fold Lb; [ lra | ].
  apply div_le_bound; [ lra | ].
  replace ((Lb + 0.05) / 0.05 * (Lb + 0.05))
    with ((Lb + 0.05) * (Lb + 0.05) / 0.05) by (unfold Rdiv; ring).
  apply div_ge_bound; [ lra | ]. nra.
Qed.

Lemma of_hsl_settled (h s l : Q) : Spec.settled (TinyColor.of_hsl h s l).
Proof.
  unfold TinyColor.of_hsl.
  destruct (TinyColor.hslToRgb _ _ _) as [[R G] B].
  unfold TinyColor.of_channels, Spec.settled.
  cbn [TinyColor._r TinyColor._g TinyColor._b].
  repeat split; apply settle_range.
Qed.

Lemma stepped_settled (d : bool) (k : nat) (c : TinyColor.t) :
  Spec.settled c -> Spec.settled (Spec.stepped d k c).
Proof.
  intro H. destruct k as [| k]; [ exact H | ].
  rewrite stepped_succ_r. destruct d.
  - destruct (lighten_eq (Spec.stepped true k c) 1) as (h & s & ->).
    apply of_hsl_settled.
  - destruct (darken_eq (Spec.stepped false k c) 1) as (h & s & ->).
    apply of_hsl_settled.
Qed.

Lemma luminance_of_hex (c : TinyColor.t) (rgb : ColorRGB) :
  Spec.settled c -> TinyColor.toRgb c = rgb ->
  TinyColor.getLuminance (TinyColor.of_string (TinyColor.toHexString c))
  = 0.2126 * TinyColor.linearize (r rgb) + 0.7152 * TinyColor.linearize (g rgb)
    + 0.0722 * TinyColor.linearize (b rgb).
Proof.
  intros (Sr & Sg & Sb) E. unfold TinyColor.getLuminance.
  rewrite (toRgb_of_toHexString c Sr Sg Sb), E. reflexivity.
Qed.

(** One text slot: [ensureContrast] on a light candidate over a dark
    background of low luminance, or on a dark candidate over a light
    background of high luminance. *)
Lemma text_slot (bg cand : string) (t : R) :
  (TinyColor.isDark (TinyColor.of_string bg) = true
   /\ TinyColor.getLuminance (TinyColor.of_string bg) <= 0.146
   /\ (55 # 100
       <= Spec.lightness (TinyColor.clone (TinyColor.of_string cand)))%Q)
  \/ (TinyColor.isDark (TinyColor.of_string bg) = false
      /\ 0.85 <= TinyColor.getLuminance (TinyColor.of_string bg)
      /\ (Spec.lightness (TinyColor.clone (TinyColor.of_string cand))
          <= 8 # 10)%Q) ->
  Spec.bestEffort (TinyColor.isDark (TinyColor.of_string bg)) cand bg t
    (ensureContrast cand bg t).
Proof.
  intro Hcase. unfold Spec.bestEffort. cbv zeta.
  set (d := TinyColor.isDark (TinyColor.of_string bg)) in *.
  assert (Hkeep : (TinyColor.readability cand bg >= t)%R ->
                  ensureContrast cand bg t = cand).
  { intro Hge. unfold ensureContrast.
    destruct (ensureContrast_run_spec bg t d cand eq_refl)
      as [[_ Hrun] | [Hng _]]; [ | contradiction ].
    rewrite Hrun. reflexivity. }
  assert (Hloop :
            ~ (TinyColor.readability cand bg >= t)%R ->
            exists n,
              (n <= 100)%nat
              /\ ensureContrast cand bg t
                 = TinyColor.toHexString
                     (Spec.stepped d n
                        (TinyColor.clone (TinyColor.of_string cand)))
              /\ (forall j, (j < n)%nat ->
                    (TinyColor.readability
                       (TinyColor.toHexString
                          (Spec.stepped d j
                             (TinyColor.clone (TinyColor.of_string cand)))) bg
                     < t)%R)
              /\ ((n < 100)%nat ->
                  (TinyColor.readability (ensureContrast cand bg t) bg
                   >= t)%R)).
  { intro Hng. unfold ensureContrast.
    destruct (ensureContrast_run_spec bg t d cand eq_refl)
      as [[Hge _] | [_ (n & Hn & Hrun & Hbelow & Hstop)]]; [ contradiction | ].
    rewrite (Hrun 101%nat) by lia.
    exists n. split; [ exact Hn | ]. split; [ reflexivity | ].
    split; [ exact Hbelow | ].
    intro Hlt. apply Rnot_lt_ge. exact (Hstop Hlt). }
  destruct (Rge_dec (TinyColor.readability cand bg) t) as [Hge | Hng].
  - rewrite (Hkeep Hge). split; [ intros _; exact Hge | ].
    intro Hn. exfalso. apply Hn. left. exact Hge.
  - destruct (Hloop Hng) as (n & Hn & Eslot & Hbelow & Hstop).
    split.
    + intros [Hge | (k & Hk & Hr)]; [ contradiction | ].
      destruct (Nat.eq_dec n 100) as [E100 | Hlt].
      * subst n. assert (k = 100%nat) as ->.
        { destruct (Nat.eq_dec k 100) as [E | E]; [ exact E | exfalso ].
          specialize (Hbelow k ltac:(lia)). lra. }
        rewrite Eslot. exact Hr.
      * apply Hstop. lia.
    + intro Hnot.
      assert (n = 100%nat) as ->.
      { destruct (Nat.eq_dec n 100) as [E | E]; [ exact E | exfalso ].
        apply Hnot. right. exists n. split; [ lia | ].
        rewrite <- Eslot. apply Hstop. lia. }
      assert (Hbest : forall s, TinyColor.readability s bg
                                <= TinyColor.readability (ensureContrast cand bg t) bg).
      { rewrite Eslot.
        pose proof (stepped_settled d 100 _
                      (of_string_settled
                         (TinyColor.toHexString (TinyColor.of_string cand))))
          as Hset.
        fold (TinyColor.clone (TinyColor.of_string cand)) in Hset.
        destruct Hcase as [(Ed & Hb & Hl) | (Ed & Hb & Hl)];
          fold d in Ed; rewrite Ed in *.
        - apply white_is_best; [ exact Hb | ].
          rewrite (luminance_of_hex _ _ Hset (lighten_100_white _ Hl)).
          cbn [r g b]. rewrite linearize_255. lra.
        - apply black_is_best; [ exact Hb | ].
          rewrite (luminance_of_hex _ _ Hset (darken_100_black _ Hl)).
          cbn [r g b]. rewrite linearize_0. lra. }
      split; [ apply Hbest | intros k _; apply Hbest ].
Qed.

End TextRoles.

(** C7.  For every base colour, vibe, brightness preference and target
    ratio, the heading and body candidates are entries 7 and 5 of the
    tint ramp when the background is dark and of the shade ramp otherwise,
    and each emitted text slot meets the target whenever the candidate, or
    a colour within 100 unit steps of it (lighter on a dark background,
    darker otherwise), does; when none does, the slot's ratio is the
    maximum over the candidate and all those steps. *)
Theorem applyFromBase_text_contrast :
  forall (hex : string) (vibe : ColorUtils.Vibe)
         (brightness : PalettePage.Brightness) (threshold : R),
    let slots := PalettePage.applyFromBase hex vibe brightness threshold in
    let bg := PalettePage.background slots in
    let vibeBase := ColorUtils.applyVibeToPalette hex vibe in
    let isBgDark := TinyColor.isDark (TinyColor.of_string bg) in
    let ramp := if isBgDark then ColorUtils.generateTints vibeBase 8
                else ColorUtils.generateShades vibeBase 8 in
    List.nth_error ramp 7 = Some (PalettePage.headingCandidate vibeBase isBgDark)
    /\ List.nth_error ramp 5 = Some (PalettePage.bodyCandidate vibeBase isBgDark)
    /\ Spec.bestEffort isBgDark (PalettePage.headingCandidate vibeBase isBgDark)
         bg threshold (PalettePage.textHeading slots)
    /\ Spec.bestEffort isBgDark (PalettePage.bodyCandidate vibeBase isBgDark)
         bg threshold (PalettePage.textBody slots).
Proof.
  intros hex vibe brightness threshold.
  unfold PalettePage.applyFromBase.
  cbn [PalettePage.background PalettePage.textHeading PalettePage.textBody].
  set (vibeBase := ColorUtils.applyVibeToPalette hex vibe).
  set (bg := PalettePage.backgroundFor vibeBase vibe brightness).
  cbv zeta.
  assert (Hbg :
    (TinyColor.isDark (TinyColor.of_string bg) = true
     /\ (TinyColor.getLuminance (TinyColor.of_string bg) <= 0.146)%R)
    \/ (TinyColor.isDark (TinyColor.of_string bg) = false
        /\ (0.85 <= TinyColor.getLuminance (TinyColor.of_string bg))%R)).
  { unfold bg, PalettePage.backgroundFor.
    destruct (TinyColor.toHsl (TinyColor.of_string vibeBase)) as [[h s] l].
    destruct brightness.
    - right. destruct (light_background_channels h s) as [(Sr & Sg & Sb) Hc].
      cbv zeta in Hc.
      split.
      + apply isDark_high. rewrite (toRgb_of_toHexString _ Sr Sg Sb). lia.
      + apply luminance_high. rewrite (toRgb_of_toHexString _ Sr Sg Sb). lia.
    - left. destruct (dark_background_channels h s) as [(Sr & Sg & Sb) Hc].
      cbv zeta in Hc.
      split.
      + apply isDark_low. rewrite (toRgb_of_toHexString _ Sr Sg Sb). exact Hc.
      + apply luminance_low. rewrite (toRgb_of_toHexString _ Sr Sg Sb). exact Hc.
    - right. destruct vibe;
        (split; [ vm_compute; reflexivity
                | apply luminance_high;
                  match goal with
                  | |- context [TinyColor.toRgb ?c] =>
                      let v := eval vm_compute in (TinyColor.toRgb c) in
                      change (TinyColor.toRgb c) with v
                  end; cbn [r g b]; lia ]). }
  set (isBgDark := TinyColor.isDark (TinyColor.of_string bg)) in *.
  split; [ destruct isBgDark; reflexivity | ].
  split; [ destruct isBgDark; reflexivity | ].
  rewrite headingCandidate_eq, bodyCandidate_eq.
  split; apply text_slot; fold isBgDark;
    (destruct Hbg as [[Ed Hb] | [Ed Hb]]; rewrite Ed;
     [ left; split; [ reflexivity | split; [ exact Hb | ] ];
       apply tint_lightness; lra
     | right; split; [ reflexivity | split; [ exact Hb | ] ];
       apply shade_lightness; lra ]).
Qed.

(** The design document's third scenario: base [#8B5CF6], vibe "minimal",
    brightness "dark", target 4.5.  Both candidates are white, the
    background is [#131018], and both text slots meet the target. *)
Lemma applyFromBase_text_contrast_witness :
  let slots := PalettePage.applyFromBase "#8B5CF6" ColorUtils.minimal
                 PalettePage.dark 4.5%R in
  PalettePage.background slots = "#131018"
  /\ (TinyColor.readability (PalettePage.textHeading slots)
        (PalettePage.background slots) >= 4.5)%R
  /\ (TinyColor.readability (PalettePage.textBody slots)
        (PalettePage.background slots) >= 4.5)%R.
Proof.
  cbv zeta.
  destruct (applyFromBase_text_contrast "#8B5CF6" ColorUtils.minimal
              PalettePage.dark 4.5%R) as (_ & _ & [Hh _] & [Hb _]).
  cbv zeta in Hh, Hb.
  assert (Ebg : PalettePage.background
                  (PalettePage.applyFromBase "#8B5CF6" ColorUtils.minimal
                     PalettePage.dark 4.5%R) = "#131018").
  { unfold PalettePage.applyFromBase. cbn [PalettePage.background].
    vm_compute. reflexivity. }
  rewrite Ebg in *.
  assert (Edark : TinyColor.isDark (TinyColor.of_string "#131018") = true)
    by (vm_compute; reflexivity).
  rewrite Edark in *.
  assert (Eh : PalettePage.headingCandidate
                 (ColorUtils.applyVibeToPalette "#8B5CF6" ColorUtils.minimal)
                 true = "#ffffff") by (vm_compute; reflexivity).
  assert (Eb : PalettePage.bodyCandidate
                 (ColorUtils.applyVibeToPalette "#8B5CF6" ColorUtils.minimal)
                 true = "#ffffff") by (vm_compute; reflexivity).
  rewrite Eh in Hh. rewrite Eb in Hb.
  assert (Hw : (TinyColor.readability "#ffffff" "#131018" >= 4.5)%R).
  { assert (Hl : (TinyColor.getLuminance (TinyColor.of_string "#131018")
                  <= 0.146)%R).
    { apply luminance_low.
      replace (TinyColor.toRgb (TinyColor.of_string "#131018"))
        with (mkRGB 19 16 24) by (vm_compute; reflexivity).
      cbn [r g b]. lia. }
    pose proof (getLuminance_range "#131018") as Hr.
    destruct (readability_cases "#ffffff" "#131018") as [[Hle ->] | [_ ->]];
      rewrite white_luminance in *.
    - exfalso. lra.
    - apply Rle_ge. apply div_ge_bound; lra. }
  split; [ reflexivity | ].
  split; [ apply Hh | apply Hb ]; left; exact Hw.
Defined.

(* ------------------------------------------------------------------ *)
(** ** [Math.sqrt]: the rounded square root *)

Section DoubleSqrt.

Lemma pow4_split (j : Z) : 0 <= j -> 4 ^ j = 2 ^ j * 2 ^ j.
Proof. intro H. change 4 with (2 * 2). apply Z.pow_mul_l. Qed.

(** The significand and the scale of [mathSqrt n]. *)
Lemma mathSqrt_form (n : Z) :
  1 <= n < 2 ^ 52 ->
  exists m j,
    27 <= j <= 52 /\ 2 ^ 52 <= m <= 2 ^ 53
    /\ mathSqrt n = Qdiv (inject_Z m) (inject_Z (2 ^ j))
    /\ (2 * m - 1) * (2 * m - 1) <= 4 * (n * 4 ^ j)
    /\ 4 * (n * 4 ^ j) <= (2 * m + 1) * (2 * m + 1).
Proof.
  intros [H1 H2]. unfold mathSqrt.
  destruct (Z.leb_spec n 0) as [Hle | _]; [ lia | ].
  set (L := Z.log2 n). set (k := L / 2). set (j := 52 - k).
  destruct (Z.log2_spec n ltac:(lia)) as [HL1 HL2]. fold L in HL1, HL2.
  pose proof (Z.log2_nonneg n) as HL0. fold L in HL0.
  assert (HL52 : L < 52).
  { apply (Z.pow_lt_mono_r_iff 2); lia. }
  assert (Hk : 0 <= k /\ 2 * k <= L <= 2 * k + 1).
  { pose proof (Z.mul_div_le L 2 ltac:(lia)) as Ha.
    pose proof (Z.mul_succ_div_gt L 2 ltac:(lia)) as Hb.
    pose proof (Z.div_pos L 2 HL0 ltac:(lia)) as Hc.
    fold k in Ha, Hb, Hc. lia. }
  assert (Hj : 27 <= j <= 52) by (unfold j; lia).
  assert (H4k : 4 ^ k <= n).
  { change 4 with (2 ^ 2). rewrite <- Z.pow_mul_r by lia.
    apply Z.le_trans with (2 ^ L); [ | exact HL1 ].
    apply Z.pow_le_mono_r; lia. }
  assert (H4k1 : n < 4 ^ (k + 1)).
  { change 4 with (2 ^ 2). rewrite <- Z.pow_mul_r by lia.
    apply Z.lt_le_trans with (2 ^ Z.succ L); [ exact HL2 | ].
    apply Z.pow_le_mono_r; lia. }
  assert (Hpj : 0 < 4 ^ j) by (apply Z.pow_pos_nonneg; lia).
  assert (E52 : 4 ^ k * 4 ^ j = 4 ^ 52).
  { rewrite <- Z.pow_add_r by lia. f_equal. unfold j. lia. }
  assert (E53 : 4 ^ (k + 1) * 4 ^ j = 4 ^ 53).
  { rewrite <- Z.pow_add_r by lia. f_equal. unfold j. lia. }
  set (P := 4 ^ j) in *. set (N := n * P).
  assert (HN : 4 ^ 52 <= N < 4 ^ 53).
  { unfold N. rewrite <- E52, <- E53. split.
    - apply Z.mul_le_mono_nonneg_r; lia.
    - apply Z.mul_lt_mono_pos_r; lia. }
  change (4 ^ 52) with (4503599627370496 * 4503599627370496) in HN.
  change (4 ^ 53) with (9007199254740992 * 9007199254740992) in HN.
  destruct (Z.sqrt_spec N ltac:(lia)) as [Hs1 Hs2].
  set (s := Z.sqrt N) in *. unfold Z.succ in Hs2.
  pose proof (Z.sqrt_nonneg N) as Hs0. fold s in Hs0.
  assert (Hs52 : 4503599627370496 <= s < 9007199254740992) by nia.
  exists (if s <? N - s * s then s + 1 else s), j.
  split; [ exact Hj | ].
  change (2 ^ 52) with 4503599627370496.
  change (2 ^ 53) with 9007199254740992.
  split; [ destruct (s <? N - s * s); lia | ].
  split; [ reflexivity | ].
  destruct (Z.ltb_spec s (N - s * s)) as [Hlt | Hge]; split; nia.
Qed.

Lemma mathSqrt_0 : mathSqrt 0 = 0%Q.
Proof. reflexivity. Qed.

Lemma mathSqrt_nonneg (n : Z) : 0 <= n < 2 ^ 52 -> (0 <= mathSqrt n)%Q.
Proof.
  intros [H0 H1]. destruct (Z.eq_dec n 0) as [-> | Hn].
  - rewrite mathSqrt_0. apply Qle_refl.
  - destruct (mathSqrt_form n ltac:(lia)) as (m & j & Hj & Hm & -> & _).
    change (2 ^ 52) with 4503599627370496 in Hm.
    assert (Hp : 0 < 2 ^ j) by (apply Z.pow_pos_nonneg; lia).
    apply Qle_shift_div_l.
    + change 0%Q with (inject_Z 0). rewrite <- Zlt_Qlt. exact Hp.
    + rewrite Qmult_0_l. change 0%Q with (inject_Z 0). rewrite <- Zle_Qle. lia.
Qed.

(** Against an integer threshold the rounded root compares as the exact
    one. *)
Lemma mathSqrt_int (n z : Z) :
  0 <= n < 2 ^ 52 ->
  ((mathSqrt n <= inject_Z z)%Q <-> 0 <= z /\ n <= z * z).
Proof.
  intros [H0 H1]. destruct (Z.eq_dec n 0) as [-> | Hn].
  - rewrite mathSqrt_0. change 0%Q with (inject_Z 0). rewrite <- Zle_Qle.
    split; [ intro H; split; [ exact H | nia ] | intros [H _]; exact H ].
  - destruct (mathSqrt_form n ltac:(lia)) as (m & j & Hj & Hm & -> & Hlo & Hhi).
    change (2 ^ 52) with 4503599627370496 in Hm, H1.
    change (2 ^ 53) with 9007199254740992 in Hm.
    assert (Hp : 0 < 2 ^ j) by (apply Z.pow_pos_nonneg; lia).
    assert (Hq : (0 < inject_Z (2 ^ j))%Q)
      by (change 0%Q with (inject_Z 0); rewrite <- Zlt_Qlt; exact Hp).
    assert (Hbig : 4503599627370496 <= 2 ^ j * 2 ^ j).
    { rewrite <- pow4_split by lia.
      apply Z.le_trans with (4 ^ 27); [ vm_compute; discriminate | ].
      apply Z.pow_le_mono_r; lia. }
    rewrite (pow4_split j) in Hlo, Hhi by lia.
    set (Q := 2 ^ j) in *.
    assert (Hiff : (Qdiv (inject_Z m) (inject_Z Q) <= inject_Z z)%Q
                   <-> m <= z * Q).
    { split.
      - intro H.
        apply (Qmult_le_compat_r _ _ (inject_Z Q)) in H;
          [ | apply Qlt_le_weak; exact Hq ].
        rewrite (Qmult_comm (Qdiv _ _)), Qmult_div_r in H
          by (intro E; rewrite E in Hq; discriminate Hq).
        rewrite <- inject_Z_mult, <- Zle_Qle in H. exact H.
      - intro H. apply Qle_shift_div_r; [ exact Hq | ].
        rewrite <- inject_Z_mult, <- Zle_Qle. exact H. }
    rewrite Hiff. split.
    + intro Hle. assert (Hz : 0 < z) by nia. split; [ lia | ].
      destruct (Z_le_gt_dec n (z * z)) as [Hok | Hgt]; [ exact Hok | exfalso ].
      assert (HT : n * (Q * Q) <= z * Q * (z * Q) + z * Q) by nia.
      assert (HQ : Q <= z) by nia.
      nia.
    + intros [Hz Hle].
      assert (HN : n * (Q * Q) <= z * Q * (z * Q)) by nia.
      assert (0 <= z * Q) by nia.
      nia.
Qed.

(** The relative error of the rounded root is at most the unit
    roundoff. *)
Lemma mathSqrt_error (n : Z) :
  0 <= n < 2 ^ 52 ->
  (Q2R (mathSqrt n) * (1 - Spec.roundoff) <= sqrt (IZR n)
   /\ sqrt (IZR n) <= Q2R (mathSqrt n) * (1 + Spec.roundoff))%R.
Proof.
  intros [H0 H1]. unfold Spec.roundoff.
  change (2 ^ 53) with 9007199254740992.
  destruct (Z.eq_dec n 0) as [-> | Hn].
  - rewrite mathSqrt_0, RMicromega.Q2R_0, sqrt_0. lra.
  - destruct (mathSqrt_form n ltac:(lia)) as (m & j & Hj & Hm & -> & Hlo & Hhi).
    change (2 ^ 52) with 4503599627370496 in Hm.
    change (2 ^ 53) with 9007199254740992 in Hm.
    assert (Hp : 0 < 2 ^ j) by (apply Z.pow_pos_nonneg; lia).
    rewrite (pow4_split j) in Hlo, Hhi by lia.
    set (Q := 2 ^ j) in *.
    assert (HQ : (0 < IZR Q)%R) by (apply IZR_lt; exact Hp).
    assert (Ed : (Q2R (Qdiv (inject_Z m) (inject_Z Q)) * IZR Q = IZR m)%R).
    { rewrite Q2R_div, !Q2R_inject_Z.
      - field. lra.
      - intro E. unfold Qeq in E. cbn [Qnum Qden inject_Z] in E. lia. }
    set (d := Q2R (Qdiv (inject_Z m) (inject_Z Q))) in *.
    assert (Hn0 : (0 <= IZR n)%R) by (apply IZR_le; lia).
    pose proof (sqrt_pos (IZR n)) as Hx0.
    pose proof (sqrt_sqrt (IZR n) Hn0) as Ex.
    set (x := sqrt (IZR n)) in *.
    apply IZR_le in Hlo, Hhi.
    rewrite !mult_IZR, !minus_IZR, !mult_IZR in Hlo.
    rewrite !mult_IZR, !plus_IZR, !mult_IZR in Hhi.
    rewrite <- Ex in Hlo, Hhi.
    assert (Hm1 : (4503599627370496 <= IZR m)%R) by (apply IZR_le; lia).
    set (M := IZR m) in *. set (q := IZR Q) in *.
    assert (Hy0 : (0 <= 2 * (x * q))%R) by nra.
    assert (Hlo' : (2 * M - 1 <= 2 * (x * q))%R).
    { destruct (Rle_dec (2 * M - 1) (2 * (x * q))) as [H | H]; [ exact H | ].
      exfalso. assert (2 * (x * q) < 2 * M - 1)%R by lra. nra. }
    assert (Hhi' : (2 * (x * q) <= 2 * M + 1)%R).
    { destruct (Rle_dec (2 * (x * q)) (2 * M + 1)) as [H | H]; [ exact H | ].
      exfalso. assert (2 * M + 1 < 2 * (x * q))%R by lra. nra. }
    split.
    + apply Rmult_le_reg_r with q; [ exact HQ | ].
      replace (d * (1 - / 9007199254740992) * q)%R
        with (d * q * (1 - / 9007199254740992))%R by ring.
      rewrite Ed. lra.
    + apply Rmult_le_reg_r with q; [ exact HQ | ].
      replace (d * (1 + / 9007199254740992) * q)%R
        with (d * q * (1 + / 9007199254740992))%R by ring.
      rewrite Ed. lra.
Qed.

(** On the radicands of RGB distances the rounded root is strictly
    increasing: rounding never merges two distances. *)
Lemma mathSqrt_lt (a c : Z) :
  0 <= a -> a < c -> c <= 195075 -> (mathSqrt a < mathSqrt c)%Q.
Proof.
  intros Ha Hac Hc.
  assert (Ra : 0 <= a < 2 ^ 52)
    by (change (2 ^ 52) with 4503599627370496; lia).
  assert (Rc : 0 <= c < 2 ^ 52)
    by (change (2 ^ 52) with 4503599627370496; lia).
  apply Rlt_Qlt.
  destruct (mathSqrt_error a Ra) as [Alo _].
  destruct (mathSqrt_error c Rc) as [_ Chi].
  pose proof (mathSqrt_nonneg a Ra) as Da. apply Qle_Rle in Da.
  rewrite RMicromega.Q2R_0 in Da.
  unfold Spec.roundoff in *. change (2 ^ 53) with 9007199254740992 in *.
  set (u := (/ 9007199254740992)%R) in *.
  assert (Hu : (0 < u <= 1 / 1000000000000000)%R).
  { unfold u. split.
    - apply Rinv_0_lt_compat. lra.
    - apply Rmult_le_reg_r with 9007199254740992%R; [ lra | ].
      rewrite Rinv_l by lra. lra. }
  assert (Hxa : (0 <= IZR a)%R) by (apply IZR_le; lia).
  assert (Hxc : (0 <= IZR c)%R) by (apply IZR_le; lia).
  pose proof (sqrt_pos (IZR a)) as Xa. pose proof (sqrt_pos (IZR c)) as Xc.
  pose proof (sqrt_sqrt (IZR a) Hxa) as Ea.
  pose proof (sqrt_sqrt (IZR c) Hxc) as Ec.
  assert (Hd : (IZR a + 1 <= IZR c)%R).
  { rewrite <- plus_IZR. apply IZR_le. lia. }
  assert (Hb : (IZR c <= 195075)%R) by (apply IZR_le; exact Hc).
  set (xa := sqrt (IZR a)) in *. set (xc := sqrt (IZR c)) in *.
  set (da := Q2R (mathSqrt a)) in *. set (dc := Q2R (mathSqrt c)) in *.
  destruct (Rlt_dec da dc) as [Hlt | Hge]; [ exact Hlt | exfalso ].
  assert (Hle : (dc <= da)%R) by lra.
  assert (H1 : (xc <= da * (1 + u))%R) by nra.
  assert (H2 : (xc * (1 - u) <= xa * (1 + u))%R) by nra.
  assert (H3 : (xa <= xc)%R) by nra.
  assert (H4 : (xc - xa <= u * (xa + xc))%R) by lra.
  assert (H5 : ((xc - xa) * (xa + xc) <= u * (xa + xc) * (xa + xc))%R) by nra.
  assert (H6 : ((xa + xc) * (xa + xc) <= 4 * IZR c)%R).
  { rewrite <- Ec.
    assert (0 <= (xc - xa) * (3 * xc + xa))%R
      by (apply Rmult_le_pos; lra).
    lra. }
  assert (H7 : (u * ((xa + xc) * (xa + xc)) <= u * (4 * IZR c))%R)
    by (apply Rmult_le_compat_l; lra).
  assert (H8 : (u * (4 * IZR c) <= 1 / 1000000000000000 * (4 * 195075))%R).
  { apply Rmult_le_compat; lra. }
  assert (H9 : ((xc - xa) * (xa + xc) = IZR c - IZR a)%R)
    by (rewrite <- Ea, <- Ec; ring).
  lra.
Qed.

End DoubleSqrt.

(* ------------------------------------------------------------------ *)
(** ** Colours: the program's readers against the [#RRGGBB] notation *)

Section Colours.

Lemma hexValue_spec (c : ascii) (v : Z) :
  Spec.hexValue c = Some v ->
  Hex.is_hex_digit c = true /\ Hex.digit_value c = v /\ 0 <= v <= 15.
Proof.
  destruct c as [[] [] [] [] [] [] [] []]; intro H; vm_compute in H;
    first [ discriminate H
          | injection H as <-;
            split; [ reflexivity | split; [ reflexivity | lia ] ] ].
Qed.

Lemma hex_digit_value (c : ascii) :
  Hex.is_hex_digit c = true -> Spec.hexValue c = Some (Hex.digit_value c).
Proof.
  destruct c as [[] [] [] [] [] [] [] []]; intro H; cbv in H;
    first [ discriminate H | reflexivity ].
Qed.

Lemma hexValue_digit_char (v : Z) :
  0 <= v <= 15 -> Spec.hexValue (Hex.digit_char v) = Some v.
Proof.
  intro H.
  assert (E : v = 0 \/ v = 1 \/ v = 2 \/ v = 3 \/ v = 4 \/ v = 5 \/ v = 6
              \/ v = 7 \/ v = 8 \/ v = 9 \/ v = 10 \/ v = 11 \/ v = 12
              \/ v = 13 \/ v = 14 \/ v = 15) by lia.
  repeat (destruct E as [-> | E]; [ reflexivity | ]). subst v. reflexivity.
Qed.

Lemma parseInt16_pair (c1 c2 : ascii) :
  Hex.parseInt16 (String c1 (String c2 ""))
  = 16 * Hex.digit_value c1 + Hex.digit_value c2.
Proof. unfold Hex.parseInt16. cbn [Hex.parse_from]. lia. Qed.

(** A Color is [#] and six hexadecimal digits; its components are the
    digit pairs as [parseInt(_, 16)] reads them. *)
Lemma rgbOfHex_spec (s : string) (c : ColorRGB) :
  Spec.rgbOfHex s = Some c ->
  exists c1 c2 c3 c4 c5 c6,
    s = String "#" (String c1 (String c2 (String c3 (String c4 (String c5
          (String c6 ""))))))
    /\ Hex.is_hex_digit c1 = true /\ Hex.is_hex_digit c2 = true
    /\ Hex.is_hex_digit c3 = true /\ Hex.is_hex_digit c4 = true
    /\ Hex.is_hex_digit c5 = true /\ Hex.is_hex_digit c6 = true
    /\ c = mkRGB (Hex.parseInt16 (String c1 (String c2 "")))
                 (Hex.parseInt16 (String c3 (String c4 "")))
                 (Hex.parseInt16 (String c5 (String c6 "")))
    /\ (0 <= r c <= 255 /\ 0 <= g c <= 255 /\ 0 <= b c <= 255).
Proof.
  destruct s as [| a s1]; [ intro H; discriminate H | ].
  destruct a as [[] [] [] [] [] [] [] []];
    try (intro H; cbn in H; discriminate H).
  destruct s1 as [| c1 [| c2 [| c3 [| c4 [| c5 [| c6 [| x tl]]]]]]];
    try (intro H; cbn in H; discriminate H).
  cbn [Spec.rgbOfHex].
  destruct (Spec.hexValue c1) as [v1 |] eqn:E1; [ | intro H; discriminate H ].
  destruct (Spec.hexValue c2) as [v2 |] eqn:E2; [ | intro H; discriminate H ].
  destruct (Spec.hexValue c3) as [v3 |] eqn:E3; [ | intro H; discriminate H ].
  destruct (Spec.hexValue c4) as [v4 |] eqn:E4; [ | intro H; discriminate H ].
  destruct (Spec.hexValue c5) as [v5 |] eqn:E5; [ | intro H; discriminate H ].
  destruct (Spec.hexValue c6) as [v6 |] eqn:E6; [ | intro H; discriminate H ].
  intro H.
  assert (Ec : c = mkRGB (16 * v1 + v2) (16 * v3 + v4) (16 * v5 + v6))
    by congruence.
  clear H. subst c.
  apply hexValue_spec in E1, E2, E3, E4, E5, E6.
  destruct E1 as (H1 & <- & R1), E2 as (H2 & <- & R2), E3 as (H3 & <- & R3),
           E4 as (H4 & <- & R4), E5 as (H5 & <- & R5), E6 as (H6 & <- & R6).
  exists c1, c2, c3, c4, c5, c6.
  split; [ reflexivity | ].
  do 6 (split; [ assumption | ]).
  rewrite !parseInt16_pair. split; [ reflexivity | ].
  unfold r, g, b. lia.
Qed.

Lemma rgbOfHex_hash6 (c1 c2 c3 c4 c5 c6 : ascii) :
  Hex.is_hex_digit c1 = true -> Hex.is_hex_digit c2 = true ->
  Hex.is_hex_digit c3 = true -> Hex.is_hex_digit c4 = true ->
  Hex.is_hex_digit c5 = true -> Hex.is_hex_digit c6 = true ->
  Spec.rgbOfHex
    (String "#" (String c1 (String c2 (String c3 (String c4 (String c5
       (String c6 "")))))))
  = Some (mkRGB (Hex.parseInt16 (String c1 (String c2 "")))
                (Hex.parseInt16 (String c3 (String c4 "")))
                (Hex.parseInt16 (String c5 (String c6 "")))).
Proof.
  intros H1 H2 H3 H4 H5 H6. cbn [Spec.rgbOfHex].
  rewrite (hex_digit_value c1 H1), (hex_digit_value c2 H2),
    (hex_digit_value c3 H3), (hex_digit_value c4 H4),
    (hex_digit_value c5 H5), (hex_digit_value c6 H6).
  rewrite !parseInt16_pair. reflexivity.
Qed.

(** The palette builder's reader agrees with the notation. *)
Lemma ImageApi_hexToRgb_color (s : string) (c : ColorRGB) :
  Spec.rgbOfHex s = Some c -> ImageApi.hexToRgb s = c.
Proof.
  intro H. destruct (rgbOfHex_spec s c H)
    as (c1 & c2 & c3 & c4 & c5 & c6 & -> & H1 & H2 & H3 & H4 & H5 & H6 & -> & _).
  unfold ImageApi.hexToRgb.
  change (Hex.stripHash (String "#" ?x)) with x.
  cbn [Hex.all_hex]. rewrite H1, H2, H3, H4, H5, H6. reflexivity.
Qed.

Lemma toRgb_of_rgb (x y z : Z) :
  0 <= x <= 255 -> 0 <= y <= 255 -> 0 <= z <= 255 ->
  TinyColor.toRgb (TinyColor.of_rgb x y z) = mkRGB x y z.
Proof.
  intros Hx Hy Hz.
  unfold TinyColor.of_rgb, TinyColor.of_channels, TinyColor.toRgb.
  cbn [TinyColor._r TinyColor._g TinyColor._b].
  fold (Checks.storedChannel x). fold (Checks.storedChannel y).
  fold (Checks.storedChannel z).
  f_equal; apply mathRound_eq, storedChannel_eq; assumption.
Qed.

(** So does tinycolor, through which [color-utils] reads colours. *)
Lemma ColorUtils_hexToRgb_color (s : string) (c : ColorRGB) :
  Spec.rgbOfHex s = Some c -> ColorUtils.hexToRgb (Some s) = c.
Proof.
  intro H. destruct (rgbOfHex_spec s c H)
    as (c1 & c2 & c3 & c4 & c5 & c6 & -> & H1 & H2 & H3 & H4 & H5 & H6 & -> & R).
  cbn [r g b] in R.
  unfold ColorUtils.hexToRgb, TinyColor.of_input, TinyColor.of_string,
    TinyColor.parse_hex.
  rewrite (trim_hash6 c1 c2 c3 c4 c5 c6 H6).
  change (Hex.stripHash (String "#" ?x)) with x.
  cbn [Hex.all_hex]. rewrite H1, H2, H3, H4, H5, H6. cbn [andb].
  apply toRgb_of_rgb; apply R.
Qed.

(** What [normalizeHex] returns is a Color. *)
Lemma normalizeHex_color (s h : string) :
  ColorUtils.normalizeHex s = Some h -> Spec.isColor h.
Proof.
  unfold ColorUtils.normalizeHex.
  set (cleaned := Hex.stripHash (TinyColor.trim s)).
  destruct (Hex.all_hex cleaned) eqn:Hh; cbn [andb]; [ | discriminate ].
  destruct cleaned as [| a [| b0 [| c [| d [| e [| f [| x tl]]]]]]];
    cbn [String.length Nat.eqb]; try discriminate.
  - intro H. injection H as <-.
    simpl in Hh. rewrite !andb_true_iff in Hh.
    destruct Hh as (Ha & Hb & Hc & _).
    eexists. cbn [List.map list_ascii_of_string String.concat TinyColor.twice
                  append].
    apply rgbOfHex_hash6; assumption.
  - intro H. injection H as <-.
    simpl in Hh. rewrite !andb_true_iff in Hh.
    destruct Hh as (Ha & Hb & Hc & Hd & He & Hf & _).
    eexists. apply rgbOfHex_hash6; assumption.
Qed.

Lemma filter_some_In {A : Type} (l : list (option A)) (x : A) :
  In x (ColorUtils.filter_some l) <-> In (Some x) l.
Proof.
  induction l as [| [a |] tl IH]; simpl.
  - tauto.
  - rewrite IH. split; intros [H | H]; auto; left; congruence.
  - rewrite IH. split; [ auto | intros [H | H]; [ discriminate | exact H ] ].
Qed.

(** Every swatch is a Color. *)
Lemma parseHexColors_colors (input w : string) :
  In w (ColorUtils.parseHexColors input) -> Spec.isColor w.
Proof.
  unfold ColorUtils.parseHexColors. intro H.
  apply filter_some_In in H. apply in_map_iff in H.
  destruct H as (tok & Hn & _). exact (normalizeHex_color tok w Hn).
Qed.

(** *** Printing a colour: [rgbToHex] *)

Lemma to_string_fuel_step (fuel : nat) (q d : Z) (acc : string) :
  0 <= d < 16 -> 0 < q ->
  Hex.to_string_fuel (S fuel) (16 * q + d) acc
  = Hex.to_string_fuel fuel q (String (Hex.digit_char d) acc).
Proof.
  intros Hd Hq. cbn [Hex.to_string_fuel].
  assert (Em : (16 * q + d) mod 16 = d)
    by (symmetry; apply (Z.mod_unique _ _ q); lia).
  assert (Ed : (16 * q + d) / 16 = q)
    by (symmetry; apply (Z.div_unique _ _ q d); lia).
  rewrite Em, Ed.
  destruct (Z.eqb_spec q 0) as [E | _]; [ lia | reflexivity ].
Qed.

Lemma to_string_fuel_last (fuel : nat) (d : Z) (acc : string) :
  0 <= d < 16 ->
  Hex.to_string_fuel (S fuel) d acc = String (Hex.digit_char d) acc.
Proof.
  intro Hd. cbn [Hex.to_string_fuel].
  rewrite (Z.mod_small d 16), (Z.div_small d 16) by lia. reflexivity.
Qed.

(** Channels in [0, 255] print as the Color with those components. *)
Lemma rgbToHex_color (x y z : Z) :
  0 <= x <= 255 -> 0 <= y <= 255 -> 0 <= z <= 255 ->
  Spec.rgbOfHex (ImageApi.rgbToHex x y z) = Some (mkRGB x y z).
Proof.
  intros Hx Hy Hz. unfold ImageApi.rgbToHex, Hex.toString16.
  rewrite !Z.shiftl_mul_pow2 by lia.
  change (1 * 2 ^ 24) with 16777216. change (2 ^ 16) with 65536.
  change (2 ^ 8) with 256.
  set (n := 16777216 + x * 65536 + y * 256 + z).
  assert (El : Z.log2 n = 24).
  { apply Z.log2_unique; [ lia | ].
    change (2 ^ 24) with 16777216. change (2 ^ Z.succ 24) with 33554432.
    unfold n. lia. }
  rewrite El. change (S (Z.to_nat 24)) with 25%nat.
  pose proof (Z.div_mod x 16 ltac:(lia)) as Ex.
  pose proof (Z.mod_pos_bound x 16 ltac:(lia)) as Bx.
  pose proof (Z.div_mod y 16 ltac:(lia)) as Ey.
  pose proof (Z.mod_pos_bound y 16 ltac:(lia)) as By.
  pose proof (Z.div_mod z 16 ltac:(lia)) as Ez.
  pose proof (Z.mod_pos_bound z 16 ltac:(lia)) as Bz.
  set (x1 := x / 16) in *. set (x0 := x mod 16) in *.
  set (y1 := y / 16) in *. set (y0 := y mod 16) in *.
  set (z1 := z / 16) in *. set (z0 := z mod 16) in *.
  assert (En : n = 16 * (16 * (16 * (16 * (16 * (16 * 1 + x1) + x0) + y1)
                               + y0) + z1) + z0) by (unfold n; lia).
  rewrite En.
  do 6 (rewrite to_string_fuel_step by lia).
  rewrite to_string_fuel_last by lia.
  cbn [Hex.slice1 Spec.rgbOfHex].
  rewrite !hexValue_digit_char by lia.
  f_equal. f_equal; lia.
Qed.

Lemma clamp255_range (q : Q) : (0 <= ImageApi.clamp255 q <= 255)%Q.
Proof.
  unfold ImageApi.clamp255.
  destruct (Qmax_spec 0 (Qmin 255 q)) as (H1 & H2 & [E | E]);
    destruct (Qmin_spec 255 q) as (H3 & H4 & _); rewrite E; lra.
Qed.

Lemma round_clamp255 (q : Q) : 0 <= mathRound (ImageApi.clamp255 q) <= 255.
Proof.
  destruct (clamp255_range q) as [H1 H2].
  apply mathRound_range; assumption.
Qed.

(** The local reader always yields channels in [0, 255]. *)
Lemma ImageApi_hexToRgb_range (s : string) :
  let c := ImageApi.hexToRgb s in
  0 <= r c <= 255 /\ 0 <= g c <= 255 /\ 0 <= b c <= 255.
Proof.
  unfold ImageApi.hexToRgb.
  destruct (Hex.stripHash s)
    as [| c1 [| c2 [| c3 [| c4 [| c5 [| c6 [| x tl]]]]]]];
    cbn [r g b]; try lia.
  destruct (Hex.all_hex _) eqn:Hh; cbn [r g b]; [ | lia ].
  simpl in Hh. rewrite !andb_true_iff in Hh.
  destruct Hh as (H1 & H2 & H3 & H4 & H5 & H6 & _).
  apply hex_digit_value in H1, H2, H3, H4, H5, H6.
  apply hexValue_spec in H1, H2, H3, H4, H5, H6.
  rewrite !parseInt16_pair. lia.
Qed.

(** Whatever the primary colour, the eight derived slots are Colors; with
    a Color as primary, so are all nine. *)
Lemma palette_colors (primary p : string) :
  Spec.isColor primary ->
  In p (ImageApi.values (ImageApi.buildDerivedPalette primary)) ->
  Spec.isColor p.
Proof.
  intros Hc Hin.
  assert (Hb : forall h n,
             Spec.isColor (ImageApi.adjustBrightness h n)).
  { intros h n. eexists. unfold ImageApi.adjustBrightness.
    apply rgbToHex_color; apply round_clamp255. }
  assert (Hs : forall h n,
             Spec.isColor (ImageApi.adjustSaturation h n)).
  { intros h n. eexists. unfold ImageApi.adjustSaturation.
    apply rgbToHex_color; apply round_clamp255. }
  assert (Hk : forall h, Spec.isColor (ImageApi.getComplementaryColor h)).
  { intro h. eexists. unfold ImageApi.getComplementaryColor.
    destruct (ImageApi_hexToRgb_range h) as (R1 & R2 & R3).
    apply rgbToHex_color; lia. }
  unfold ImageApi.buildDerivedPalette, ImageApi.values,
    ImageApi.getAnalogousColors in Hin.
  cbn [ImageApi.vibrant ImageApi.darkVibrant ImageApi.lightVibrant
       ImageApi.muted ImageApi.darkMuted ImageApi.lightMuted
       ImageApi.complementary ImageApi.analogous1 ImageApi.analogous2
       fst snd] in Hin.
  destruct Hin as [<- | [<- | [<- | [<- | [<- | [<- | [<- | [<- | [<- | []]]]]]]]]];
    auto.
Qed.

End Colours.

(* ------------------------------------------------------------------ *)
(** ** Retention: the threshold test against the Euclidean distance *)

Section Retention.

Import ImageApi Adapters SearchRoute.

Lemma euclid_sq (a c : ColorRGB) :
  Spec.euclid a c = sqrt (IZR (ColorUtils.colorDistanceSq a c)).
Proof.
  unfold Spec.euclid, ColorUtils.colorDistanceSq, ColorUtils.sq, Rsqr.
  rewrite !plus_IZR, !mult_IZR, !minus_IZR. reflexivity.
Qed.

Lemma colorDistanceSq_range (a c : ColorRGB) :
  (0 <= r a <= 255 /\ 0 <= g a <= 255 /\ 0 <= b a <= 255) ->
  (0 <= r c <= 255 /\ 0 <= g c <= 255 /\ 0 <= b c <= 255) ->
  0 <= ColorUtils.colorDistanceSq a c < 2 ^ 52.
Proof.
  intros Ha Hc. change (2 ^ 52) with 4503599627370496.
  unfold ColorUtils.colorDistanceSq, ColorUtils.sq.
  assert (Hs : forall x, -255 <= x <= 255 -> 0 <= x * x <= 65025)
    by (intros x Hx; nia).
  pose proof (Hs (r a - r c) ltac:(lia)).
  pose proof (Hs (g a - g c) ltac:(lia)).
  pose proof (Hs (b a - b c) ltac:(lia)). lia.
Qed.

Lemma sqrt_le_int (n z : Z) :
  0 <= n -> ((sqrt (IZR n) <= IZR z)%R <-> 0 <= z /\ n <= z * z).
Proof.
  intro Hn. pose proof (sqrt_pos (IZR n)) as Hp.
  assert (Hn' : (0 <= IZR n)%R) by (apply IZR_le; exact Hn).
  pose proof (sqrt_sqrt (IZR n) Hn') as E. split.
  - intro H. assert (Hz : (0 <= IZR z)%R) by lra.
    apply le_IZR in Hz. split; [ exact Hz | ].
    apply le_IZR. rewrite mult_IZR. rewrite <- E. nra.
  - intros [Hz H]. apply IZR_le in Hz, H. rewrite mult_IZR in H.
    rewrite <- (sqrt_square (IZR z) Hz). apply sqrt_le_1_alt. exact H.
Qed.

(** The test [colorDistance(a, c) <= t] against the exact distance. *)
Lemma isColorMatch_euclid (a c : ColorRGB) (t : Q) :
  (0 <= r a <= 255 /\ 0 <= g a <= 255 /\ 0 <= b a <= 255) ->
  (0 <= r c <= 255 /\ 0 <= g c <= 255 /\ 0 <= b c <= 255) ->
  ((Spec.euclid a c <= Q2R t * (1 - Spec.roundoff))%R ->
   ColorUtils.isColorMatch a c t = true)
  /\ (ColorUtils.isColorMatch a c t = true ->
      (Spec.euclid a c <= Q2R t * (1 + Spec.roundoff))%R)
  /\ (forall z : Z, (t == inject_Z z)%Q ->
        (ColorUtils.isColorMatch a c t = true
         <-> (Spec.euclid a c <= Q2R t)%R)).
Proof.
  intros Ha Hc. pose proof (colorDistanceSq_range a c Ha Hc) as Hn.
  rewrite euclid_sq. unfold ColorUtils.isColorMatch, ColorUtils.colorDistance.
  set (n := ColorUtils.colorDistanceSq a c) in *.
  destruct (mathSqrt_error n Hn) as [Hlo Hhi].
  pose proof (mathSqrt_nonneg n Hn) as Hd. apply Qle_Rle in Hd.
  rewrite RMicromega.Q2R_0 in Hd.
  assert (Hu : (0 < Spec.roundoff < 1)%R).
  { unfold Spec.roundoff. change (2 ^ 53) with 9007199254740992. split.
    - apply Rinv_0_lt_compat. lra.
    - apply Rmult_lt_reg_r with 9007199254740992%R; [ lra | ].
      rewrite Rinv_l by lra. lra. }
  set (u := Spec.roundoff) in *. set (d := Q2R (mathSqrt n)) in *.
  split; [ | split ].
  - intro H. apply Qle_bool_iff. apply Rle_Qle. fold d.
    assert (d * (1 - u) <= Q2R t * (1 - u))%R by lra.
    apply Rmult_le_reg_r with (1 - u)%R; lra.
  - intro H. apply Qle_bool_iff in H. apply Qle_Rle in H. fold d in H.
    assert (d * (1 + u) <= Q2R t * (1 + u))%R
      by (apply Rmult_le_compat_r; lra).
    lra.
  - intros z Hz. rewrite Qle_bool_iff, Hz, Q2R_inject_Z.
    rewrite (mathSqrt_int n z Hn). symmetry. apply sqrt_le_int. lia.
Qed.

(** The [hasMatch] test, with the palette and the swatches read as
    Colors. *)
Lemma hasMatch_colors (W : list string) (t : Q) (d : DominantColors) :
  (forall w, In w W -> Spec.isColor w) ->
  (forall p, In p (values d) -> Spec.isColor p) ->
  (hasMatch (List.map (fun h => ColorUtils.hexToRgb (Some h)) W) t d = true
   <-> exists p w c s,
         In p (values d) /\ In w W
         /\ Spec.rgbOfHex p = Some c /\ Spec.rgbOfHex w = Some s
         /\ ColorUtils.isColorMatch s c t = true).
Proof.
  intros HW Hd. unfold hasMatch. rewrite existsb_exists. split.
  - intros (p & Hp & H). apply existsb_exists in H.
    destruct H as (s & Hs & H). apply in_map_iff in Hs.
    destruct Hs as (w & <- & Hw).
    destruct (HW w Hw) as [s Es]. destruct (Hd p Hp) as [c Ec].
    rewrite (ColorUtils_hexToRgb_color w s Es) in H.
    rewrite (ColorUtils_hexToRgb_color p c Ec) in H.
    exists p, w, c, s. auto.
  - intros (p & w & c & s & Hp & Hw & Ec & Es & H).
    exists p. split; [ exact Hp | ]. apply existsb_exists.
    exists (ColorUtils.hexToRgb (Some w)). split.
    + exact (in_map (fun h => ColorUtils.hexToRgb (Some h)) W w Hw).
    + rewrite (ColorUtils_hexToRgb_color w s Es).
      rewrite (ColorUtils_hexToRgb_color p c Ec). exact H.
Qed.

Lemma rgbOfHex_range (s : string) (c : ColorRGB) :
  Spec.rgbOfHex s = Some c ->
  0 <= r c <= 255 /\ 0 <= g c <= 255 /\ 0 <= b c <= 255.
Proof.
  intro H. destruct (rgbOfHex_spec s c H)
    as (c1 & c2 & c3 & c4 & c5 & c6 & _ & _ & _ & _ & _ & _ & _ & _ & R).
  exact R.
Qed.

(** Retention of a palette of Colors against swatches that are Colors. *)
Lemma hasMatch_within (W : list string) (t : Q) (d : DominantColors) :
  (forall w, In w W -> Spec.isColor w) ->
  (forall p, In p (values d) -> Spec.isColor p) ->
  Spec.retainedIffWithin W t
    (hasMatch (List.map (fun h => ColorUtils.hexToRgb (Some h)) W) t d = true)
    d.
Proof.
  intros HW Hd. unfold Spec.retainedIffWithin, Spec.paletteWithin.
  rewrite (hasMatch_colors W t d HW Hd).
  split; [ | split ].
  - intros (p & w & c & s & Hp & Hw & Ec & Es & H).
    exists p, w, c, s. do 4 (split; [ assumption | ]).
    apply (isColorMatch_euclid s c t (rgbOfHex_range _ _ Es)
             (rgbOfHex_range _ _ Ec)). exact H.
  - intros (p & w & c & s & Hp & Hw & Ec & Es & H).
    exists p, w, c, s. do 4 (split; [ assumption | ]).
    apply (isColorMatch_euclid s c t (rgbOfHex_range _ _ Es)
             (rgbOfHex_range _ _ Ec)). exact H.
  - intros z Hz. rewrite (hasMatch_colors W t d HW Hd). split.
    + intros (p & w & c & s & Hp & Hw & Ec & Es & H).
      exists p, w, c, s. do 4 (split; [ assumption | ]).
      apply (isColorMatch_euclid s c t (rgbOfHex_range _ _ Es)
               (rgbOfHex_range _ _ Ec)) with (z := z); assumption.
    + intros (p & w & c & s & Hp & Hw & Ec & Es & H).
      exists p, w, c, s. do 4 (split; [ assumption | ]).
      apply (isColorMatch_euclid s c t (rgbOfHex_range _ _ Es)
               (rgbOfHex_range _ _ Ec)) with (z := z); assumption.
Qed.

(** The exact distance against a rational bound, on the squares. *)
Lemma euclid_le_Q (a c : ColorRGB) (t : Q) :
  (0 <= t)%Q ->
  (Spec.euclid a c <= Q2R t)%R ->
  (inject_Z (ColorUtils.colorDistanceSq a c) <= t * t)%Q.
Proof.
  intros Ht H. rewrite euclid_sq in H.
  pose proof (colorDistanceSq_nonneg a c) as Hn. apply IZR_le in Hn.
  set (n := ColorUtils.colorDistanceSq a c) in *.
  pose proof (sqrt_pos (IZR n)) as Hp.
  pose proof (sqrt_sqrt (IZR n) Hn) as E.
  apply Rle_Qle. rewrite Q2R_mult, Q2R_inject_Z. rewrite <- E. nra.
Qed.

End Retention.

Section RetentionRoute.

Import ImageApi Adapters SearchRoute.

Lemma retainedIffWithin_iff (W : list string) (t : Q) (P P' : Prop)
  (d : DominantColors) :
  (P <-> P') -> Spec.retainedIffWithin W t P' d -> Spec.retainedIffWithin W t P d.
Proof.
  unfold Spec.retainedIffWithin. intros E (H1 & H2 & H3).
  split; [ | split ].
  - intro H. apply E, H1, H.
  - intro H. apply H2, E, H.
  - intros z Hz. rewrite E. apply (H3 z Hz).
Qed.

Lemma score_spec (targets : list ColorRGB) (img : ColorSearchResultImage) :
  targets <> [] ->
  exists m,
    score targets img = Some m
    /\ 0 <= m
    /\ (forall s, In s targets ->
          (sqrt (IZR m)
           <= Spec.euclid s (ColorUtils.hexToRgb (color img)))%R)
    /\ (exists s, In s targets /\
          sqrt (IZR m) = Spec.euclid s (ColorUtils.hexToRgb (color img))).
Proof.
  intro Hne. unfold score.
  destruct (fold_score_min
              (fun target => ColorUtils.colorDistanceSq target
                               (ColorUtils.hexToRgb (color img)))
              targets Hne) as (m & Hm & Hall & [s [Hs He]]).
  exists m. split; [ exact Hm | ].
  split; [ rewrite He; apply colorDistanceSq_nonneg | ].
  split.
  - intros s' Hs'. rewrite euclid_sq.
    apply sqrt_le_1_alt, IZR_le, Hall, Hs'.
  - exists s. split; [ exact Hs | ]. rewrite euclid_sq, He. reflexivity.
Qed.

(** The colour the scoring reads from an image's [color] field. *)
Lemma hexToRgb_primary (field : option string) (c : ColorRGB) :
  Spec.rgbOfHex (or_default field "#000000") = Some c ->
  ColorUtils.hexToRgb field = c.
Proof.
  destruct field as [[| a tl] |]; cbn [or_default]; intro H.
  - vm_compute in H. injection H as <-. vm_compute. reflexivity.
  - apply ColorUtils_hexToRgb_color. exact H.
  - vm_compute in H. injection H as <-. vm_compute. reflexivity.
Qed.

End RetentionRoute.

(** C4, as the claim states it, fails: the program compares the distance
    as a double.  With the swatch [#FF0000] and the threshold
    67.88225099390856, the double nearest to the square root of 4608 and
    just below it, the image of colour [#ff3030] is retained, although
    none of its nine palette colours is within that threshold of the
    swatch: the nearest one is at distance exactly the square root of
    4608. *)
Lemma retention_is_by_rounded_distance :
  let request := Samples.boundaryRequest in
  let W := ColorUtils.parseHexColors (SearchRoute.hexColors request) in
  let palette := ImageApi.buildDerivedPalette "#ff3030" in
  let res := SearchRoute.POST Samples.fullEnv request in
  res = (SearchRoute.Json (Samples.bodyOf (fst res)), snd res)
  /\ In (SearchRoute.fromUnsplash Samples.redImage palette)
        (SearchRoute.images (Samples.bodyOf (fst res)))
  /\ ~ Spec.paletteWithin W (Q2R (SearchRoute.thresholdOf request)) palette.
Proof.
  cbv zeta. split; [ vm_compute; reflexivity | ].
  split.
  - vm_compute. repeat (first [ left; reflexivity | right ]).
  - intros (p & w & c & s & Hp & Hw & Ec & Es & Hd).
    vm_compute in Hw. destruct Hw as [<- | []].
    vm_compute in Es. injection Es as <-.
    apply euclid_le_Q in Hd; [ | vm_compute; discriminate ].
    apply Qle_bool_iff in Hd.
    vm_compute in Hp.
    destruct Hp as [<- | [<- | [<- | [<- | [<- | [<- | [<- | [<- | [<- | []]]]]]]]]];
      vm_compute in Ec; injection Ec as <-; vm_compute in Hd; discriminate Hd.
Qed.

(** C4, amended.  In a successful response, with the swatches and the
    palette colours read as [#RRGGBB] Colors and the Euclidean distance
    taken over the reals: every swatch is a Color; every returned image
    whose own colour is a Color has a palette colour within the threshold
    [t] plus one rounding of a swatch; and an image that Unsplash or Pexels
    delivered with a Color (or no colour, read as black) is returned
    whenever a palette colour is within [t] less one rounding of a swatch,
    only if one is within [t] plus one rounding, and, at every integer
    threshold, if and only if one is within [t] (inclusive). *)
Theorem retained_iff_palette_within_threshold :
  forall (env : Adapters.Env) (request : SearchRoute.SearchImagesRequestBody)
         (body : SearchRoute.SearchImagesResponseBody)
         (calls : list SearchRoute.AdapterCall),
    SearchRoute.POST env request = (SearchRoute.Json body, calls) ->
    let W := ColorUtils.parseHexColors (SearchRoute.hexColors request) in
    let t := SearchRoute.thresholdOf request in
    (forall w, In w W -> Spec.isColor w)
    /\ (forall img, In img (SearchRoute.images body) ->
          Spec.isColor (or_default (SearchRoute.color img) "#000000") ->
          Spec.paletteWithin W (Q2R t * (1 + Spec.roundoff))
            (SearchRoute.dominantColors img))
    /\ (forall q p n c us image,
          In (SearchRoute.CallUnsplash q p n c) calls ->
          Adapters.searchUnsplash env q p n c = Some us ->
          In image us ->
          let primary := or_default (ImageApi.u_color image) "#000000" in
          let palette := ImageApi.buildDerivedPalette primary in
          Spec.isColor primary ->
          (forall x, In x (ImageApi.values palette) -> Spec.isColor x)
          /\ Spec.retainedIffWithin W t
               (In (SearchRoute.fromUnsplash image palette)
                   (SearchRoute.images body))
               palette)
    /\ (forall q p n ps image,
          In (SearchRoute.CallPexels q p n) calls ->
          Adapters.searchPexels env q p n = Some ps ->
          In image ps ->
          let primary := or_default (ImageApi.p_avg_color image) "#000000" in
          let palette := ImageApi.buildDerivedPalette primary in
          Spec.isColor primary ->
          (forall x, In x (ImageApi.values palette) -> Spec.isColor x)
          /\ Spec.retainedIffWithin W t
               (In (SearchRoute.fromPexels image palette)
                   (SearchRoute.images body))
               palette).
Proof.
  intros env request body calls H W t.
  destruct (POST_Json env request body calls H)
    as (q1 & q2 & q3 & c1 & us & ps & xs & -> & Hu & Hp & _ & _ & ->).
  cbn zeta. cbn [SearchRoute.images]. fold t.
  change (SearchRoute.targetColors request)
    with (List.map (fun h => ColorUtils.hexToRgb (Some h)) W).
  assert (HW : forall w, In w W -> Spec.isColor w)
    by (intros w Hw; exact (parseHexColors_colors _ w Hw)).
  split; [ exact HW | ]. split; [ | split ].
  - intros img Hi Hc. apply sort_In, matched_In in Hi.
    destruct Hi as [[image [_ [Hm ->]]] | [image [_ [Hm ->]]]];
      cbn [SearchRoute.color SearchRoute.dominantColors
           SearchRoute.fromUnsplash SearchRoute.fromPexels] in Hc |- *;
      apply (hasMatch_within W t _ HW
               (fun x Hx => palette_colors _ x Hc Hx));
      exact Hm.
  - intros q p n c us' image Hc Hs Hin Hcol.
    destruct Hc as [Hc | [Hc | [Hc | []]]]; try discriminate Hc.
    injection Hc as <- <- <- <-. rewrite Hu in Hs. injection Hs as <-.
    assert (Hpal := fun x Hx => palette_colors _ x Hcol Hx).
    split; [ exact Hpal | ].
    refine (retainedIffWithin_iff W t _ _ _ _ (hasMatch_within W t _ HW Hpal)).
    rewrite sort_In, matched_In. split.
    + intros [[image' [_ [Hm He]]] | [image' [_ [_ He]]]]; [ | discriminate He ].
      apply (f_equal SearchRoute.dominantColors) in He. simpl in He.
      rewrite He. exact Hm.
    + intro Hm. left. exists image. auto.
  - intros q p n ps' image Hc Hs Hin Hcol.
    destruct Hc as [Hc | [Hc | [Hc | []]]]; try discriminate Hc.
    injection Hc as <- <- <-. rewrite Hp in Hs. injection Hs as <-.
    assert (Hpal := fun x Hx => palette_colors _ x Hcol Hx).
    split; [ exact Hpal | ].
    refine (retainedIffWithin_iff W t _ _ _ _ (hasMatch_within W t _ HW Hpal)).
    rewrite sort_In, matched_In. split.
    + intros [[image' [_ [_ He]]] | [image' [_ [Hm He]]]]; [ discriminate He | ].
      apply (f_equal SearchRoute.dominantColors) in He. simpl in He.
      rewrite He. exact Hm.
    + intro Hm. right. exists image. auto.
Qed.

Lemma retained_iff_palette_within_threshold_witness :
  let request := Samples.request "#FF0000" in
  let res := SearchRoute.POST Samples.fullEnv request in
  let body := Samples.bodyOf (fst res) in
  let palette := ImageApi.buildDerivedPalette "#ff3030" in
  res = (SearchRoute.Json body, snd res)
  /\ (In (SearchRoute.fromUnsplash Samples.redImage palette)
         (SearchRoute.images body)
      <-> Spec.paletteWithin
            (ColorUtils.parseHexColors (SearchRoute.hexColors request))
            (Q2R (SearchRoute.thresholdOf request)) palette).
Proof.
  intros request res body palette.
  assert (E : res = (SearchRoute.Json body, snd res))
    by (vm_compute; reflexivity).
  split; [ exact E | ].
  destruct (retained_iff_palette_within_threshold _ _ _ _ E) as (_ & _ & H & _).
  destruct (H "red nature abstract" 1 20 (Some "red") [Samples.redImage]
              Samples.redImage) as (_ & _ & _ & Hz).
  - vm_compute. left. reflexivity.
  - reflexivity.
  - left. reflexivity.
  - exists (mkRGB 255 48 48). reflexivity.
  - apply (Hz 80). reflexivity.
Defined.

(** C1, amended.  In a successful response the returned list is a
    rearrangement of the retained images (those the three provider loops
    pushed); each image's score is the minimum Euclidean RGB distance
    between the image's primary colour (its [color] field, as [hexToRgb]
    reads it; for a field that is a [#RRGGBB] Color, or absent and read as
    black, the Color's components) and the requested swatches; and the
    list is sorted ascending by that score. *)
Theorem images_sorted_by_primary_colour_distance :
  forall (env : Adapters.Env) (request : SearchRoute.SearchImagesRequestBody)
         (body : SearchRoute.SearchImagesResponseBody)
         (calls : list SearchRoute.AdapterCall),
    SearchRoute.POST env request = (SearchRoute.Json body, calls) ->
    let S := SearchRoute.targetColors request in
    let W := ColorUtils.parseHexColors (SearchRoute.hexColors request) in
    (exists q1 q2 q3 c us ps xs,
        calls = [ SearchRoute.CallUnsplash q1 (SearchRoute.pageOf request) 20 c;
                  SearchRoute.CallPexels q2 (SearchRoute.pageOf request) 20;
                  SearchRoute.CallPixabay q3 (SearchRoute.pageOf request) 30 ]
        /\ Adapters.searchUnsplash env q1 (SearchRoute.pageOf request) 20 c
           = Some us
        /\ Adapters.searchPexels env q2 (SearchRoute.pageOf request) 20
           = Some ps
        /\ Adapters.searchPixabay env q3 (SearchRoute.pageOf request) 30
           = Some xs
        /\ Permutation (SearchRoute.images body)
             (SearchRoute.matched S (SearchRoute.thresholdOf request)
                us ps xs))
    /\ (forall img,
        exists m,
          SearchRoute.score S img = Some m
          /\ (forall s, In s S ->
                (sqrt (IZR m)
                 <= Spec.euclid s
                      (ColorUtils.hexToRgb (SearchRoute.color img)))%R)
          /\ (exists s, In s S /\
                sqrt (IZR m)
                = Spec.euclid s
                    (ColorUtils.hexToRgb (SearchRoute.color img))))
    /\ (forall img c,
          Spec.rgbOfHex (or_default (SearchRoute.color img) "#000000")
          = Some c ->
          exists m,
            SearchRoute.score S img = Some m
            /\ Spec.nearestSwatch W c (sqrt (IZR m)))
    /\ StronglySorted
         (fun a c => exists x y,
              SearchRoute.score S a = Some x /\ SearchRoute.score S c = Some y
              /\ (sqrt (IZR x) <= sqrt (IZR y))%R)
         (SearchRoute.images body).
Proof.
  intros env request body calls H S W.
  destruct (POST_Json env request body calls H)
    as (q1 & q2 & q3 & c1 & us & ps & xs & Hc & Hu & Hp & Hx & Hne & ->).
  cbn zeta. cbn [SearchRoute.images]. fold S in Hne |- *.
  split; [ | split; [ | split ] ].
  - exists q1, q2, q3, c1, us, ps, xs.
    do 4 (split; [ assumption | ]). apply sort_perm.
  - intro img. destruct (score_spec S img Hne) as (m & Hm & _ & Hall & Hex).
    exists m. auto.
  - intros img c Ec.
    destruct (score_spec S img Hne) as (m & Hm & _ & Hall & Hex).
    rewrite (hexToRgb_primary _ c Ec) in Hall, Hex.
    exists m. split; [ exact Hm | ]. split.
    + intros w s Hw Es. apply Hall. unfold S, SearchRoute.targetColors.
      apply in_map_iff. exists w. split; [ | exact Hw ].
      apply ColorUtils_hexToRgb_color. exact Es.
    + destruct Hex as (s & Hs & E). unfold S, SearchRoute.targetColors in Hs.
      apply in_map_iff in Hs. destruct Hs as (w & Ew & Hw).
      destruct (parseHexColors_colors _ w Hw) as [s' Es'].
      rewrite (ColorUtils_hexToRgb_color w s' Es') in Ew. subst s'.
      exists w, s. auto.
  - eapply StronglySorted_impl; [ | apply sort_sorted ].
    intros a c Hac. unfold SearchRoute.byScore in Hac.
    destruct (score_spec S a Hne) as (x & Hx' & _).
    destruct (score_spec S c Hne) as (y & Hy & _).
    exists x, y. split; [ exact Hx' | ]. split; [ exact Hy | ].
    rewrite Hx', Hy in Hac. simpl in Hac.
    apply sqrt_le_1_alt, IZR_le, Z.leb_le, Hac.
Qed.

Lemma images_sorted_by_primary_colour_distance_witness :
  let request := Samples.request "#FF0000" in
  let res := SearchRoute.POST Samples.cyanRedEnv request in
  let body := Samples.bodyOf (fst res) in
  let S := SearchRoute.targetColors request in
  res = (SearchRoute.Json body, snd res)
  /\ (exists us ps xs,
         Permutation (SearchRoute.images body)
           (SearchRoute.matched S (SearchRoute.thresholdOf request) us ps xs))
  /\ StronglySorted
       (fun a c => exists x y,
            SearchRoute.score S a = Some x /\ SearchRoute.score S c = Some y
            /\ (sqrt (IZR x) <= sqrt (IZR y))%R)
       (SearchRoute.images body).
Proof.
  intros request res body S.
  assert (E : res = (SearchRoute.Json body, snd res))
    by (vm_compute; reflexivity).
  split; [ exact E | ].
  destruct (images_sorted_by_primary_colour_distance _ _ _ _ E)
    as ((q1 & q2 & q3 & c & us & ps & xs & _ & _ & _ & _ & Hperm)
        & _ & _ & Hsorted).
  split; [ exists us, ps, xs; exact Hperm | exact Hsorted ].
Defined.

(* ------------------------------------------------------------------ *)
(** * Further properties of the code *)

(** ** Swatches: normal forms *)

Section SwatchShape.

Import ColorUtils.

Lemma normalizeHex_shape (s h : string) :
  normalizeHex s = Some h ->
  exists c1 c2 c3 c4 c5 c6,
    h = String "#" (String c1 (String c2 (String c3 (String c4 (String c5
          (String c6 ""))))))
    /\ Hex.is_hex_digit c1 = true /\ Hex.is_hex_digit c2 = true
    /\ Hex.is_hex_digit c3 = true /\ Hex.is_hex_digit c4 = true
    /\ Hex.is_hex_digit c5 = true /\ Hex.is_hex_digit c6 = true
    /\ TinyColor.parse_hex s
       = Some (Hex.parseInt16 (String c1 (String c2 "")),
               Hex.parseInt16 (String c3 (String c4 "")),
               Hex.parseInt16 (String c5 (String c6 ""))).
Proof.
  unfold normalizeHex, TinyColor.parse_hex.
  set (cleaned := Hex.stripHash (TinyColor.trim s)).
  destruct (Hex.all_hex cleaned) eqn:Hh; cbn [andb]; [ | discriminate ].
  destruct cleaned as [| a [| b [| c [| d [| e [| f [| x tl]]]]]]];
    cbn [String.length Nat.eqb]; try discriminate.
  - intro H. injection H as <-.
    simpl in Hh. rewrite !andb_true_iff in Hh.
    destruct Hh as (Ha & Hb & Hc & _).
    exists a, a, b, b, c, c. repeat split; assumption || reflexivity.
  - intro H. injection H as <-.
    simpl in Hh. rewrite !andb_true_iff in Hh.
    destruct Hh as (Ha & Hb & Hc & Hd & He & Hf & _).
    exists a, b, c, d, e, f. repeat split; assumption || reflexivity.
Qed.

Lemma normalizeHex_hash6 (c1 c2 c3 c4 c5 c6 : ascii) :
  Hex.is_hex_digit c1 = true -> Hex.is_hex_digit c2 = true ->
  Hex.is_hex_digit c3 = true -> Hex.is_hex_digit c4 = true ->
  Hex.is_hex_digit c5 = true -> Hex.is_hex_digit c6 = true ->
  let h := String "#" (String c1 (String c2 (String c3 (String c4 (String c5
             (String c6 "")))))) in
  normalizeHex h = Some h
  /\ parseHexColors h = [h]
  /\ TinyColor.parse_hex h
     = Some (Hex.parseInt16 (String c1 (String c2 "")),
             Hex.parseInt16 (String c3 (String c4 "")),
             Hex.parseInt16 (String c5 (String c6 ""))).
Proof.
  intros H1 H2 H3 H4 H5 H6 h.
  assert (Hn : normalizeHex h = Some h).
  { unfold normalizeHex, h. rewrite (trim_hash6 _ _ _ _ _ _ H6).
    cbn [Hex.stripHash Hex.all_hex String.length Nat.eqb].
    rewrite H1, H2, H3, H4, H5, H6. reflexivity. }
  split; [ exact Hn | ]. split.
  - unfold parseHexColors, match_all.
    assert (Hs : scan 0 h = [h]).
    { unfold h. unfold scan; fold scan. cbn [match_at take_hex].
      rewrite H1, H2, H3, H4, H5, H6. cbn [String.length Nat.leb Nat.sub].
      f_equal. }
    rewrite Hs. cbn [List.map filter_some]. rewrite Hn. reflexivity.
  - unfold TinyColor.parse_hex, h. rewrite (trim_hash6 _ _ _ _ _ _ H6).
    cbn [Hex.stripHash Hex.all_hex].
    rewrite H1, H2, H3, H4, H5, H6. reflexivity.
Qed.

Lemma scan_bounded (s : string) :
  forall k, (3 * List.length (scan k s) + Nat.min k (String.length s)
             <= String.length s)%nat.
Proof.
  induction s as [| c tl IH]; intro k; [ simpl; lia | ].
  destruct k as [| k].
  - unfold scan; fold scan.
    destruct (match_at (String c tl)) as [tok |] eqn:E.
    + apply match_at_length in E. specialize (IH (String.length tok - 1)%nat).
      simpl in *. lia.
    + specialize (IH 0%nat). simpl in *. lia.
  - specialize (IH k). simpl in *. lia.
Qed.

Lemma filter_some_length {A : Type} (l : list (option A)) :
  (List.length (filter_some l) <= List.length l)%nat.
Proof.
  induction l as [| [a |] tl IH]; simpl; lia.
Qed.

End SwatchShape.

(** X1.  Whatever [normalizeHex] returns is a [#] followed by six
    hexadecimal digits, and [normalizeHex] maps it to itself. *)
Theorem normalizeHex_idempotent :
  forall s h : string,
    ColorUtils.normalizeHex s = Some h ->
    String.length h = 7%nat
    /\ (exists body, h = String "#" body /\ Hex.all_hex body = true)
    /\ ColorUtils.normalizeHex h = Some h.
Proof.
  intros s h H.
  destruct (normalizeHex_shape s h H)
    as (c1 & c2 & c3 & c4 & c5 & c6 & -> & H1 & H2 & H3 & H4 & H5 & H6 & _).
  split; [ reflexivity | ]. split.
  - eexists. split; [ reflexivity | ].
    simpl. rewrite H1, H2, H3, H4, H5, H6. reflexivity.
  - apply (normalizeHex_hash6 c1 c2 c3 c4 c5 c6); assumption.
Qed.

Lemma normalizeHex_idempotent_witness :
  String.length "#aabbcc" = 7%nat
  /\ (exists body, "#aabbcc" = String "#" body /\ Hex.all_hex body = true)
  /\ ColorUtils.normalizeHex "#aabbcc" = Some "#aabbcc".
Proof.
  apply (normalizeHex_idempotent " abc "). vm_compute. reflexivity.
Defined.

(** X2.  Normalising a colour does not change the colour: the string
    [normalizeHex] returns reads, through [hexToRgb], as the same RGB
    triple as the string it was given. *)
Theorem normalizeHex_preserves_colour :
  forall s h : string,
    ColorUtils.normalizeHex s = Some h ->
    ColorUtils.hexToRgb (Some h) = ColorUtils.hexToRgb (Some s).
Proof.
  intros s h H.
  destruct (normalizeHex_shape s h H)
    as (c1 & c2 & c3 & c4 & c5 & c6 & -> & H1 & H2 & H3 & H4 & H5 & H6 & Hp).
  destruct (normalizeHex_hash6 c1 c2 c3 c4 c5 c6 H1 H2 H3 H4 H5 H6)
    as (_ & _ & Hq).
  unfold ColorUtils.hexToRgb, TinyColor.of_input, TinyColor.of_string.
  rewrite Hp, Hq. reflexivity.
Qed.

Lemma normalizeHex_preserves_colour_witness :
  ColorUtils.hexToRgb (Some "#ffaa00") = ColorUtils.hexToRgb (Some "fa0").
Proof.
  apply normalizeHex_preserves_colour. vm_compute. reflexivity.
Defined.

(** X3.  Every swatch [parseHexColors] returns is in normal form: seven
    characters, fixed by [normalizeHex], and parsed back as itself. *)
Theorem parseHexColors_normal_forms :
  forall input h : string,
    In h (ColorUtils.parseHexColors input) ->
    String.length h = 7%nat
    /\ ColorUtils.normalizeHex h = Some h
    /\ ColorUtils.parseHexColors h = [h].
Proof.
  intros input h Hin. unfold ColorUtils.parseHexColors in Hin.
  apply filter_some_In in Hin. apply in_map_iff in Hin.
  destruct Hin as (tok & Hn & _).
  destruct (normalizeHex_shape tok h Hn)
    as (c1 & c2 & c3 & c4 & c5 & c6 & -> & H1 & H2 & H3 & H4 & H5 & H6 & _).
  destruct (normalizeHex_hash6 c1 c2 c3 c4 c5 c6 H1 H2 H3 H4 H5 H6)
    as (Ha & Hb & _).
  split; [ reflexivity | ]. split; assumption.
Qed.

Lemma parseHexColors_normal_forms_witness :
  String.length "#000000" = 7%nat
  /\ ColorUtils.normalizeHex "#000000" = Some "#000000"
  /\ ColorUtils.parseHexColors "#000000" = ["#000000"].
Proof.
  apply (parseHexColors_normal_forms "#FF5733 #000 12345").
  vm_compute. right. left. reflexivity.
Defined.

(** X4.  Each swatch consumes at least three characters of the input:
    [parseHexColors] returns at most a third as many swatches as the
    input has characters. *)
Theorem parseHexColors_count_bounded :
  forall input : string,
    (3 * List.length (ColorUtils.parseHexColors input)
     <= String.length input)%nat.
Proof.
  intro input. unfold ColorUtils.parseHexColors, ColorUtils.match_all.
  pose proof (filter_some_length
                (List.map ColorUtils.normalizeHex (ColorUtils.scan 0 input))) as H1.
  rewrite length_map in H1.
  pose proof (scan_bounded input 0%nat) as H2. simpl in H2. lia.
Qed.

(* ------------------------------------------------------------------ *)
(** ** The distance and the threshold test *)

Section DistanceFacts.

Import ImageApi Adapters SearchRoute.

Lemma colorDistanceSq_sym (a c : ColorRGB) :
  ColorUtils.colorDistanceSq a c = ColorUtils.colorDistanceSq c a.
Proof. unfold ColorUtils.colorDistanceSq, ColorUtils.sq. ring. Qed.

Lemma square_zero (x : Z) : x * x = 0 -> x = 0.
Proof. intro H. apply Z.mul_eq_0 in H. destruct H; assumption. Qed.

Lemma colorDistanceSq_zero (a c : ColorRGB) :
  ColorUtils.colorDistanceSq a c = 0 <-> a = c.
Proof.
  unfold ColorUtils.colorDistanceSq, ColorUtils.sq.
  destruct a as [r1 g1 b1], c as [r2 g2 b2]; cbn [r g b]. split.
  - intro H.
    pose proof (Z.square_nonneg (r1 - r2)) as Hr.
    pose proof (Z.square_nonneg (g1 - g2)) as Hg.
    pose proof (Z.square_nonneg (b1 - b2)) as Hb.
    assert (Er : r1 - r2 = 0) by (apply square_zero; lia).
    assert (Eg : g1 - g2 = 0) by (apply square_zero; lia).
    assert (Eb : b1 - b2 = 0) by (apply square_zero; lia).
    f_equal; lia.
  - intro H. injection H as -> -> ->. ring.
Qed.

Lemma colorDistanceSq_bound (a c : ColorRGB) :
  (0 <= r a <= 255 /\ 0 <= g a <= 255 /\ 0 <= b a <= 255) ->
  (0 <= r c <= 255 /\ 0 <= g c <= 255 /\ 0 <= b c <= 255) ->
  0 <= ColorUtils.colorDistanceSq a c <= 195075.
Proof.
  intros Ha Hc. unfold ColorUtils.colorDistanceSq, ColorUtils.sq.
  assert (Hs : forall x, -255 <= x <= 255 -> 0 <= x * x <= 65025)
    by (intros x Hx; nia).
  pose proof (Hs (r a - r c) ltac:(lia)).
  pose proof (Hs (g a - g c) ltac:(lia)).
  pose proof (Hs (b a - b c) ltac:(lia)). lia.
Qed.

Lemma mathSqrt_pos (n : Z) : 1 <= n < 2 ^ 52 -> (0 < mathSqrt n)%Q.
Proof.
  intro Hn. destruct (mathSqrt_form n Hn) as (m & j & Hj & Hm & -> & _).
  change (2 ^ 52) with 4503599627370496 in Hm.
  assert (Hp : 0 < 2 ^ j) by (apply Z.pow_pos_nonneg; lia).
  apply Qlt_shift_div_l.
  - change 0%Q with (inject_Z 0). rewrite <- Zlt_Qlt. exact Hp.
  - rewrite Qmult_0_l. change 0%Q with (inject_Z 0). rewrite <- Zlt_Qlt. lia.
Qed.

(** [Math.sqrt] never yields a negative number. *)
Lemma mathSqrt_nonneg_all (n : Z) : (0 <= mathSqrt n)%Q.
Proof.
  unfold mathSqrt. destruct (n <=? 0); [ apply Qle_refl | ].
  set (j := 52 - Z.log2 n / 2). set (N := n * 4 ^ j).
  pose proof (Z.sqrt_nonneg N) as Hs.
  set (m := if Z.sqrt N <? N - Z.sqrt N * Z.sqrt N
            then Z.sqrt N + 1 else Z.sqrt N).
  assert (Hm : 0 <= m) by (unfold m; destruct (_ <? _); lia).
  assert (Hp : 0 <= 2 ^ j) by (apply Z.pow_nonneg; lia).
  unfold Qdiv. apply Qmult_le_0_compat.
  - change 0%Q with (inject_Z 0). rewrite <- Zle_Qle. exact Hm.
  - apply Qinv_le_0_compat.
    change 0%Q with (inject_Z 0). rewrite <- Zle_Qle. exact Hp.
Qed.

Lemma isColorMatch_negative (a c : ColorRGB) (t : Q) :
  (t < 0)%Q -> ColorUtils.isColorMatch a c t = false.
Proof.
  intro Ht. unfold ColorUtils.isColorMatch, ColorUtils.colorDistance.
  destruct (Qle_bool _ t) eqn:E; [ | reflexivity ].
  apply Qle_bool_iff in E.
  pose proof (mathSqrt_nonneg_all (ColorUtils.colorDistanceSq a c)) as H.
  exfalso. lra.
Qed.

Lemma isColorMatch_refl (a : ColorRGB) (t : Q) :
  (0 <= t)%Q -> ColorUtils.isColorMatch a a t = true.
Proof.
  intro Ht. unfold ColorUtils.isColorMatch, ColorUtils.colorDistance.
  rewrite (proj2 (colorDistanceSq_zero a a) eq_refl), mathSqrt_0.
  apply Qle_bool_iff. exact Ht.
Qed.

Lemma isColorMatch_monotone (a c : ColorRGB) (t1 t2 : Q) :
  (t1 <= t2)%Q -> ColorUtils.isColorMatch a c t1 = true ->
  ColorUtils.isColorMatch a c t2 = true.
Proof.
  unfold ColorUtils.isColorMatch. intros Ht H.
  apply Qle_bool_iff in H. apply Qle_bool_iff.
  apply Qle_trans with t1; assumption.
Qed.

Lemma hasMatch_monotone (targets : list ColorRGB) (t1 t2 : Q)
  (d : DominantColors) :
  (t1 <= t2)%Q -> hasMatch targets t1 d = true -> hasMatch targets t2 d = true.
Proof.
  intros Ht H. unfold hasMatch in *. apply existsb_exists in H.
  destruct H as (p & Hp & H). apply existsb_exists in H.
  destruct H as (s & Hs & H). apply existsb_exists.
  exists p. split; [ exact Hp | ]. apply existsb_exists.
  exists s. split; [ exact Hs | ].
  exact (isColorMatch_monotone _ _ _ _ Ht H).
Qed.

Lemma hasMatch_negative (targets : list ColorRGB) (t : Q) (d : DominantColors) :
  (t < 0)%Q -> hasMatch targets t d = false.
Proof.
  intro Ht. unfold hasMatch.
  apply not_true_is_false. intro H. apply existsb_exists in H.
  destruct H as (c & _ & H). apply existsb_exists in H.
  destruct H as (s & _ & H). rewrite (isColorMatch_negative _ _ _ Ht) in H.
  discriminate H.
Qed.

Lemma hasMatch_vibrant (targets : list ColorRGB) (t : Q) (col : string) :
  (0 <= t)%Q -> In (ColorUtils.hexToRgb (Some col)) targets ->
  hasMatch targets t (buildDerivedPalette col) = true.
Proof.
  intros Ht Hin. unfold hasMatch. apply existsb_exists.
  exists col. split; [ left; reflexivity | ].
  apply existsb_exists. exists (ColorUtils.hexToRgb (Some col)).
  split; [ exact Hin | ]. apply isColorMatch_refl. exact Ht.
Qed.

End DistanceFacts.

(** X5.  For colours with channels in [0, 255], [colorDistance] is
    symmetric, is zero exactly between equal colours, differs from the
    Euclidean distance by at most one part in [2^53], and orders pairs of
    colours exactly as the Euclidean distance does. *)
Theorem colorDistance_accuracy :
  forall a c a' c' : ColorRGB,
    (0 <= r a <= 255 /\ 0 <= g a <= 255 /\ 0 <= b a <= 255) ->
    (0 <= r c <= 255 /\ 0 <= g c <= 255 /\ 0 <= b c <= 255) ->
    (0 <= r a' <= 255 /\ 0 <= g a' <= 255 /\ 0 <= b a' <= 255) ->
    (0 <= r c' <= 255 /\ 0 <= g c' <= 255 /\ 0 <= b c' <= 255) ->
    ColorUtils.colorDistance a c = ColorUtils.colorDistance c a
    /\ ((ColorUtils.colorDistance a c == 0)%Q <-> a = c)
    /\ (Q2R (ColorUtils.colorDistance a c) * (1 - Spec.roundoff)
        <= Spec.euclid a c
        <= Q2R (ColorUtils.colorDistance a c) * (1 + Spec.roundoff))%R
    /\ ((ColorUtils.colorDistance a c < ColorUtils.colorDistance a' c')%Q
        <-> (Spec.euclid a c < Spec.euclid a' c')%R).
Proof.
  intros a c a' c' Ha Hc Ha' Hc'.
  pose proof (colorDistanceSq_bound a c Ha Hc) as Hn.
  pose proof (colorDistanceSq_bound a' c' Ha' Hc') as Hn'.
  unfold ColorUtils.colorDistance. rewrite !euclid_sq.
  split; [ rewrite colorDistanceSq_sym; reflexivity | ].
  split; [ | split ].
  - rewrite <- colorDistanceSq_zero.
    set (n := ColorUtils.colorDistanceSq a c) in *. split.
    + intro E. destruct (Z.eq_dec n 0) as [E0 | Hne]; [ exact E0 | exfalso ].
      assert (Hp : (0 < mathSqrt n)%Q).
      { apply mathSqrt_pos. change (2 ^ 52) with 4503599627370496. lia. }
      rewrite E in Hp. discriminate Hp.
    + intros ->. rewrite mathSqrt_0. reflexivity.
  - apply mathSqrt_error. change (2 ^ 52) with 4503599627370496. lia.
  - set (n := ColorUtils.colorDistanceSq a c) in *.
    set (n' := ColorUtils.colorDistanceSq a' c') in *.
    assert (Hr : (0 <= IZR n)%R) by (apply IZR_le; lia).
    assert (Hr' : (0 <= IZR n')%R) by (apply IZR_le; lia).
    split.
    + intro Hlt. destruct (Z_lt_le_dec n n') as [H | H].
      * apply sqrt_lt_1_alt. split; [ exact Hr | apply IZR_lt; exact H ].
      * exfalso. destruct (Z.eq_dec n n') as [E | Hne].
        -- rewrite E in Hlt. exact (Qlt_irrefl _ Hlt).
        -- assert (Hgt : (mathSqrt n' < mathSqrt n)%Q)
             by (apply mathSqrt_lt; lia).
           exact (Qlt_irrefl _ (Qlt_trans _ _ _ Hlt Hgt)).
    + intro Hlt. apply mathSqrt_lt; try lia.
      destruct (Z_lt_le_dec n n') as [H | H]; [ exact H | exfalso ].
      apply IZR_le in H. apply sqrt_le_1_alt in H. lra.
Qed.

Lemma colorDistance_accuracy_witness :
  ColorUtils.colorDistance (mkRGB 255 0 0) (mkRGB 255 48 48)
  = ColorUtils.colorDistance (mkRGB 255 48 48) (mkRGB 255 0 0)
  /\ ((ColorUtils.colorDistance (mkRGB 255 0 0) (mkRGB 255 48 48)
       < ColorUtils.colorDistance (mkRGB 255 0 0) (mkRGB 0 255 255))%Q
      <-> (Spec.euclid (mkRGB 255 0 0) (mkRGB 255 48 48)
           < Spec.euclid (mkRGB 255 0 0) (mkRGB 0 255 255))%R).
Proof.
  destruct (colorDistance_accuracy (mkRGB 255 0 0) (mkRGB 255 48 48)
              (mkRGB 255 0 0) (mkRGB 0 255 255))
    as (Hs & _ & _ & Ho); cbn [r g b]; try lia.
  split; [ exact Hs | exact Ho ].
Defined.

(** X6.  A larger threshold never loses a match, a negative threshold
    matches nothing, and a colour matches itself at every threshold from
    zero up. *)
Theorem isColorMatch_threshold :
  forall (a c : ColorRGB) (t1 t2 : Q),
    (t1 <= t2)%Q ->
    (ColorUtils.isColorMatch a c t1 = true ->
     ColorUtils.isColorMatch a c t2 = true)
    /\ ((t2 < 0)%Q -> ColorUtils.isColorMatch a c t1 = false)
    /\ ((0 <= t1)%Q -> ColorUtils.isColorMatch a a t1 = true).
Proof.
  intros a c t1 t2 Ht. split; [ | split ].
  - apply isColorMatch_monotone. exact Ht.
  - intro H. apply isColorMatch_negative. lra.
  - apply isColorMatch_refl.
Qed.

Lemma isColorMatch_threshold_witness :
  (ColorUtils.isColorMatch (mkRGB 255 0 0) (mkRGB 250 10 0) 20 = true ->
   ColorUtils.isColorMatch (mkRGB 255 0 0) (mkRGB 250 10 0) 80 = true)
  /\ ((80 < 0)%Q ->
      ColorUtils.isColorMatch (mkRGB 255 0 0) (mkRGB 250 10 0) 20 = false)
  /\ ((0 <= 20)%Q ->
      ColorUtils.isColorMatch (mkRGB 255 0 0) (mkRGB 255 0 0) 20 = true).
Proof.
  apply (isColorMatch_threshold (mkRGB 255 0 0) (mkRGB 250 10 0) 20 80).
  vm_compute. discriminate.
Defined.

(* ------------------------------------------------------------------ *)
(** ** The search route: response shape, thresholds, ties *)

Section RouteShape.

Import ImageApi Adapters SearchRoute.

Lemma count_partition (l : list ColorSearchResultImage) :
  (count unsplash l + count pexels l + count pixabay l = List.length l)%nat.
Proof.
  unfold count. induction l as [| x tl IH]; [ reflexivity | ].
  cbn [List.filter List.length].
  destruct (source x); cbn [Source_eqb List.length]; lia.
Qed.

Lemma count_perm (s : Source) (l l' : list ColorSearchResultImage) :
  Permutation l l' -> count s l = count s l'.
Proof.
  intro H. unfold count. induction H; cbn [List.filter].
  - reflexivity.
  - destruct (Source_eqb (source x) s); cbn [List.length]; lia.
  - destruct (Source_eqb (source x) s), (Source_eqb (source y) s);
      reflexivity.
  - lia.
Qed.

(** A tie class: the images whose score equals [k]. *)
Lemma insert_tie (key : ColorSearchResultImage -> Score) (k : Score)
  (x : ColorSearchResultImage) (l : list ColorSearchResultImage) :
  let tie := fun y => score_leb (key y) k && score_leb k (key y) in
  List.filter tie (insert key x l) = List.filter tie (x :: l).
Proof.
  intro tie. induction l as [| y tl IH]; [ reflexivity | ].
  cbn [insert]. destruct (score_leb (key x) (key y)) eqn:E; [ reflexivity | ].
  cbn [List.filter] in *. rewrite IH.
  destruct (tie x) eqn:Ex; [ | reflexivity ].
  destruct (tie y) eqn:Ey; [ | reflexivity ].
  exfalso. unfold tie in Ex, Ey.
  apply andb_prop in Ex, Ey. destruct Ex as [Ex1 Ex2], Ey as [Ey1 Ey2].
  rewrite (score_leb_trans _ _ _ Ex1 Ey2) in E. discriminate E.
Qed.

Lemma sort_tie (key : ColorSearchResultImage -> Score) (k : Score)
  (l : list ColorSearchResultImage) :
  let tie := fun y => score_leb (key y) k && score_leb k (key y) in
  List.filter tie (sort key l) = List.filter tie l.
Proof.
  intro tie. induction l as [| x tl IH]; [ reflexivity | ].
  unfold sort in *. cbn [List.fold_right].
  rewrite (insert_tie key k). cbn [List.filter]. fold tie. rewrite IH.
  reflexivity.
Qed.

Lemma matched_negative (targets : list ColorRGB) (t : Q)
  (us : list UnsplashImage) (ps : list PexelsImage) (xs : list PixabayImage) :
  (t < 0)%Q -> matched targets t us ps xs = [].
Proof.
  intro Ht. destruct (matched targets t us ps xs) as [| img tl] eqn:E;
    [ reflexivity | exfalso ].
  assert (Hin : In img (matched targets t us ps xs))
    by (rewrite E; left; reflexivity).
  apply matched_In in Hin.
  destruct Hin as [(image & _ & Hm & _) | (image & _ & Hm & _)];
    rewrite (hasMatch_negative _ _ _ Ht) in Hm; discriminate Hm.
Qed.

(** A successful response, with the queries the route sent. *)
Lemma POST_Json_inv (env : Env) (request : SearchImagesRequestBody)
  (body : SearchImagesResponseBody) (calls : list AdapterCall) :
  POST env request = (Json body, calls) ->
  exists primary rest name uc us ps xs,
    ColorUtils.parseHexColors (hexColors request) = primary :: rest
    /\ name = ColorUtils.getColorName primary
    /\ uc = ColorUtils.getUnsplashColorParam primary
    /\ searchUnsplash env (name ++ " nature abstract") (pageOf request) 20 uc
       = Some us
    /\ searchPexels env (name ++ " color") (pageOf request) 20 = Some ps
    /\ searchPixabay env name (pageOf request) 30 = Some xs
    /\ calls = [ CallUnsplash (name ++ " nature abstract") (pageOf request) 20 uc;
                 CallPexels (name ++ " color") (pageOf request) 20;
                 CallPixabay name (pageOf request) 30 ]
    /\ body =
       let m := matched (targetColors request) (thresholdOf request) us ps xs in
       {| images := sort (score (targetColors request)) m;
          resp_page := pageOf request;
          total := List.length (sort (score (targetColors request)) m);
          sources := {| n_unsplash := count unsplash m;
                        n_pexels := count pexels m;
                        n_pixabay := count pixabay m |} |}.
Proof.
  unfold POST, targetColors.
  destruct (ColorUtils.parseHexColors (hexColors request)) as [| primary rest];
    [ intro H; inversion H | ].
  cbv zeta. intro H. exists primary, rest.
  exists (ColorUtils.getColorName primary),
    (ColorUtils.getUnsplashColorParam primary).
  revert H.
  generalize (ColorUtils.getColorName primary) as name.
  generalize (ColorUtils.getUnsplashColorParam primary) as uc.
  intros uc name.
  destruct (searchUnsplash env (name ++ " nature abstract")%string
              (pageOf request) 20 uc) as [us |] eqn:Hu;
    [ | intro H; inversion H ].
  destruct (searchPexels env (name ++ " color")%string (pageOf request) 20)
    as [ps |] eqn:Hp; [ | intro H; inversion H ].
  destruct (searchPixabay env name (pageOf request) 30) as [xs |] eqn:Hx;
    [ | intro H; inversion H ].
  intro H. inversion H; subst.
  exists us, ps, xs. repeat split; reflexivity.
Qed.

Lemma POST_Json_intro (env : Env) (request : SearchImagesRequestBody)
  (primary : string) (rest : list string) (name : string)
  (uc : option string) us ps xs :
  ColorUtils.parseHexColors (hexColors request) = primary :: rest ->
  name = ColorUtils.getColorName primary ->
  uc = ColorUtils.getUnsplashColorParam primary ->
  searchUnsplash env (name ++ " nature abstract") (pageOf request) 20 uc
  = Some us ->
  searchPexels env (name ++ " color") (pageOf request) 20 = Some ps ->
  searchPixabay env name (pageOf request) 30 = Some xs ->
  POST env request
  = (Json (let m := matched (targetColors request) (thresholdOf request)
                      us ps xs in
           {| images := sort (score (targetColors request)) m;
              resp_page := pageOf request;
              total := List.length (sort (score (targetColors request)) m);
              sources := {| n_unsplash := count unsplash m;
                            n_pexels := count pexels m;
                            n_pixabay := count pixabay m |} |}),
     [ CallUnsplash (name ++ " nature abstract") (pageOf request) 20 uc;
       CallPexels (name ++ " color") (pageOf request) 20;
       CallPixabay name (pageOf request) 30 ]).
Proof.
  intros Hp En Eu Hu Hx Hy. unfold POST, targetColors. rewrite Hp.
  cbv zeta. rewrite <- En, <- Eu. rewrite Hu, Hx, Hy. reflexivity.
Qed.

End RouteShape.

(** X7.  Raising the threshold never drops an image: for the same
    input text and page, every image returned at a threshold is returned
    at any larger one, and the same provider calls are made. *)
Theorem POST_threshold_monotone :
  forall (env : Adapters.Env) (r1 r2 : SearchRoute.SearchImagesRequestBody)
         (body1 : SearchRoute.SearchImagesResponseBody)
         (calls : list SearchRoute.AdapterCall),
    SearchRoute.hexColors r1 = SearchRoute.hexColors r2 ->
    SearchRoute.page r1 = SearchRoute.page r2 ->
    (SearchRoute.thresholdOf r1 <= SearchRoute.thresholdOf r2)%Q ->
    SearchRoute.POST env r1 = (SearchRoute.Json body1, calls) ->
    exists body2,
      SearchRoute.POST env r2 = (SearchRoute.Json body2, calls)
      /\ forall img, In img (SearchRoute.images body1) ->
                     In img (SearchRoute.images body2).
Proof.
  intros env r1 r2 body1 calls Hh Hp Ht H.
  destruct (POST_Json_inv env r1 body1 calls H)
    as (primary & rest & name & uc & us & ps & xs
        & Hs & En & Eu & Hu & Hx & Hy & -> & ->).
  assert (Epage : SearchRoute.pageOf r1 = SearchRoute.pageOf r2)
    by (unfold SearchRoute.pageOf; rewrite Hp; reflexivity).
  assert (Etar : SearchRoute.targetColors r1 = SearchRoute.targetColors r2)
    by (unfold SearchRoute.targetColors; rewrite Hh; reflexivity).
  rewrite Hh in Hs. rewrite Epage in Hu, Hx, Hy |- *.
  eexists. split.
  - exact (POST_Json_intro env r2 primary rest name uc us ps xs
             Hs En Eu Hu Hx Hy).
  - cbv zeta. cbn [SearchRoute.images]. intros img Hi.
    rewrite Etar in Hi.
    apply sort_In. apply sort_In in Hi.
    apply matched_In in Hi. apply matched_In.
    destruct Hi as [(image & Hin & Hm & He) | (image & Hin & Hm & He)];
      [ left | right ]; exists image;
      (split; [ exact Hin | split; [ | exact He ] ]);
      apply (hasMatch_monotone _ _ _ _ Ht); exact Hm.
Qed.

Lemma POST_threshold_monotone_witness :
  let r1 := SearchRoute.mkRequest "#FF0000" None (Some 60%Q) in
  let r2 := SearchRoute.mkRequest "#FF0000" None (Some 90%Q) in
  let res := SearchRoute.POST Samples.fullEnv r1 in
  exists body2,
    SearchRoute.POST Samples.fullEnv r2 = (SearchRoute.Json body2, snd res)
    /\ forall img, In img (SearchRoute.images (Samples.bodyOf (fst res))) ->
                   In img (SearchRoute.images body2).
Proof.
  intros r1 r2 res.
  apply (POST_threshold_monotone Samples.fullEnv r1 r2
           (Samples.bodyOf (fst res)) (snd res)).
  - reflexivity.
  - reflexivity.
  - vm_compute. discriminate.
  - vm_compute. reflexivity.
Defined.

(** X8.  With a threshold of zero or more, an Unsplash or Pexels image
    whose own colour is exactly one of the requested swatches is always
    returned. *)
Theorem POST_returns_exact_matches :
  forall (env : Adapters.Env) (request : SearchRoute.SearchImagesRequestBody)
         (body : SearchRoute.SearchImagesResponseBody)
         (calls : list SearchRoute.AdapterCall),
    SearchRoute.POST env request = (SearchRoute.Json body, calls) ->
    (0 <= SearchRoute.thresholdOf request)%Q ->
    (forall q p n c us image,
        In (SearchRoute.CallUnsplash q p n c) calls ->
        Adapters.searchUnsplash env q p n c = Some us ->
        In image us ->
        In (ColorUtils.hexToRgb
              (Some (or_default (ImageApi.u_color image) "#000000")))
           (SearchRoute.targetColors request) ->
        exists img, In img (SearchRoute.images body)
                    /\ SearchRoute.id img = ImageApi.u_id image
                    /\ SearchRoute.source img = SearchRoute.unsplash)
    /\ (forall q p n ps image,
        In (SearchRoute.CallPexels q p n) calls ->
        Adapters.searchPexels env q p n = Some ps ->
        In image ps ->
        In (ColorUtils.hexToRgb
              (Some (or_default (ImageApi.p_avg_color image) "#000000")))
           (SearchRoute.targetColors request) ->
        exists img, In img (SearchRoute.images body)
                    /\ SearchRoute.color img = ImageApi.p_avg_color image
                    /\ SearchRoute.source img = SearchRoute.pexels).
Proof.
  intros env request body calls H Ht.
  destruct (POST_Json env request body calls H)
    as (q1 & q2 & q3 & c1 & us & ps & xs & -> & Hu & Hp & _ & _ & ->).
  cbn zeta. cbn [SearchRoute.images]. split.
  - intros q p n c us' image Hc Hs Hin Hcol.
    destruct Hc as [Hc | [Hc | [Hc | []]]]; try discriminate Hc.
    injection Hc as <- <- <- <-. rewrite Hu in Hs. injection Hs as <-.
    exists (SearchRoute.fromUnsplash image
              (ImageApi.buildDerivedPalette
                 (or_default (ImageApi.u_color image) "#000000"))).
    split; [ | split; reflexivity ].
    apply sort_In, matched_In. left. exists image.
    split; [ exact Hin | split; [ | reflexivity ] ].
    apply hasMatch_vibrant; assumption.
  - intros q p n ps' image Hc Hs Hin Hcol.
    destruct Hc as [Hc | [Hc | [Hc | []]]]; try discriminate Hc.
    injection Hc as <- <- <-. rewrite Hp in Hs. injection Hs as <-.
    exists (SearchRoute.fromPexels image
              (ImageApi.buildDerivedPalette
                 (or_default (ImageApi.p_avg_color image) "#000000"))).
    split; [ | split; reflexivity ].
    apply sort_In, matched_In. right. exists image.
    split; [ exact Hin | split; [ | reflexivity ] ].
    apply hasMatch_vibrant; assumption.
Qed.

Lemma POST_returns_exact_matches_witness :
  let request := SearchRoute.mkRequest "#f01010" None (Some 0%Q) in
  let res := SearchRoute.POST Samples.fullEnv request in
  exists img, In img (SearchRoute.images (Samples.bodyOf (fst res)))
              /\ SearchRoute.color img = Some "#f01010"
              /\ SearchRoute.source img = SearchRoute.pexels.
Proof.
  intros request res.
  assert (E : res = (SearchRoute.Json (Samples.bodyOf (fst res)), snd res))
    by (vm_compute; reflexivity).
  assert (Ht : (0 <= SearchRoute.thresholdOf request)%Q)
    by (vm_compute; discriminate).
  destruct (POST_returns_exact_matches _ _ _ _ E Ht) as [_ Hp].
  apply (Hp "red color" 1 20 [Samples.pexelsRed] Samples.pexelsRed).
  - vm_compute. right. left. reflexivity.
  - reflexivity.
  - left. reflexivity.
  - vm_compute. left. reflexivity.
Defined.

(** X9.  A negative threshold matches nothing: the route still calls the
    three providers and answers 200, with an empty list and zero
    counts. *)
Theorem POST_negative_threshold_empty :
  forall (env : Adapters.Env) (request : SearchRoute.SearchImagesRequestBody)
         (body : SearchRoute.SearchImagesResponseBody)
         (calls : list SearchRoute.AdapterCall),
    SearchRoute.POST env request = (SearchRoute.Json body, calls) ->
    (SearchRoute.thresholdOf request < 0)%Q ->
    body = SearchRoute.mkBody [] (SearchRoute.pageOf request) 0
             (SearchRoute.mkSources 0 0 0).
Proof.
  intros env request body calls H Ht.
  destruct (POST_Json env request body calls H)
    as (q1 & q2 & q3 & c1 & us & ps & xs & _ & _ & _ & _ & _ & ->).
  cbv zeta. rewrite (matched_negative _ _ us ps xs Ht). reflexivity.
Qed.

Lemma POST_negative_threshold_empty_witness :
  let request := SearchRoute.mkRequest "#FF0000" (Some 3) (Some (-1)%Q) in
  Samples.bodyOf (fst (SearchRoute.POST Samples.fullEnv request))
  = SearchRoute.mkBody [] 3 0 (SearchRoute.mkSources 0 0 0).
Proof.
  intro request.
  apply (POST_negative_threshold_empty Samples.fullEnv request _
           (snd (SearchRoute.POST Samples.fullEnv request))).
  - vm_compute. reflexivity.
  - vm_compute. reflexivity.
Defined.

(** X10.  The numbers of a successful response agree with its list:
    [total] is the length of [images], each provider count is the number
    of returned images from that provider, the counts add up to [total],
    and [page] echoes the request (1 when absent). *)
Theorem POST_counts_consistent :
  forall (env : Adapters.Env) (request : SearchRoute.SearchImagesRequestBody)
         (body : SearchRoute.SearchImagesResponseBody)
         (calls : list SearchRoute.AdapterCall),
    SearchRoute.POST env request = (SearchRoute.Json body, calls) ->
    SearchRoute.total body = List.length (SearchRoute.images body)
    /\ SearchRoute.n_unsplash (SearchRoute.sources body)
       = SearchRoute.count SearchRoute.unsplash (SearchRoute.images body)
    /\ SearchRoute.n_pexels (SearchRoute.sources body)
       = SearchRoute.count SearchRoute.pexels (SearchRoute.images body)
    /\ SearchRoute.n_pixabay (SearchRoute.sources body)
       = SearchRoute.count SearchRoute.pixabay (SearchRoute.images body)
    /\ (SearchRoute.n_unsplash (SearchRoute.sources body)
        + SearchRoute.n_pexels (SearchRoute.sources body)
        + SearchRoute.n_pixabay (SearchRoute.sources body)
        = SearchRoute.total body)%nat
    /\ SearchRoute.resp_page body = SearchRoute.pageOf request.
Proof.
  intros env request body calls H.
  destruct (POST_Json env request body calls H)
    as (q1 & q2 & q3 & c1 & us & ps & xs & _ & _ & _ & _ & _ & ->).
  cbv zeta.
  cbn [SearchRoute.total SearchRoute.images SearchRoute.sources
       SearchRoute.n_unsplash SearchRoute.n_pexels SearchRoute.n_pixabay
       SearchRoute.resp_page].
  set (m := SearchRoute.matched _ _ us ps xs).
  set (key := SearchRoute.score _).
  pose proof (sort_perm key m) as Hperm.
  split; [ reflexivity | ].
  split; [ symmetry; apply count_perm; exact Hperm | ].
  split; [ symmetry; apply count_perm; exact Hperm | ].
  split; [ symmetry; apply count_perm; exact Hperm | ].
  split; [ | reflexivity ].
  rewrite (Permutation_length Hperm). apply count_partition.
Qed.

Lemma POST_counts_consistent_witness :
  let body := Samples.bodyOf
                (fst (SearchRoute.POST Samples.fullEnv
                        (Samples.request "#FF0000"))) in
  SearchRoute.total body = 2%nat
  /\ (SearchRoute.n_unsplash (SearchRoute.sources body)
      + SearchRoute.n_pexels (SearchRoute.sources body)
      + SearchRoute.n_pixabay (SearchRoute.sources body)
      = SearchRoute.total body)%nat.
Proof.
  intro body.
  destruct (POST_counts_consistent Samples.fullEnv (Samples.request "#FF0000")
              body (snd (SearchRoute.POST Samples.fullEnv
                           (Samples.request "#FF0000"))))
    as (_ & _ & _ & _ & Hsum & _).
  - vm_compute. reflexivity.
  - split; [ vm_compute; reflexivity | exact Hsum ].
Defined.

(** X11.  The sort is stable: among the returned images, those with the
    same score stand in the order in which the provider loops retained
    them (Unsplash before Pexels, each in delivery order). *)
Theorem POST_ties_keep_arrival_order :
  forall (env : Adapters.Env) (request : SearchRoute.SearchImagesRequestBody)
         (body : SearchRoute.SearchImagesResponseBody)
         (calls : list SearchRoute.AdapterCall),
    SearchRoute.POST env request = (SearchRoute.Json body, calls) ->
    exists q1 q2 q3 c us ps xs,
      calls = [ SearchRoute.CallUnsplash q1 (SearchRoute.pageOf request) 20 c;
                SearchRoute.CallPexels q2 (SearchRoute.pageOf request) 20;
                SearchRoute.CallPixabay q3 (SearchRoute.pageOf request) 30 ]
      /\ Adapters.searchUnsplash env q1 (SearchRoute.pageOf request) 20 c
         = Some us
      /\ Adapters.searchPexels env q2 (SearchRoute.pageOf request) 20 = Some ps
      /\ Adapters.searchPixabay env q3 (SearchRoute.pageOf request) 30 = Some xs
      /\ forall k : SearchRoute.Score,
           let key := SearchRoute.score (SearchRoute.targetColors request) in
           let tie := fun img => SearchRoute.score_leb (key img) k
                                 && SearchRoute.score_leb k (key img) in
           List.filter tie (SearchRoute.images body)
           = List.filter tie
               (SearchRoute.matched (SearchRoute.targetColors request)
                  (SearchRoute.thresholdOf request) us ps xs).
Proof.
  intros env request body calls H.
  destruct (POST_Json env request body calls H)
    as (q1 & q2 & q3 & c1 & us & ps & xs & Hc & Hu & Hp & Hx & _ & ->).
  exists q1, q2, q3, c1, us, ps, xs.
  split; [ exact Hc | ]. split; [ exact Hu | ]. split; [ exact Hp | ].
  split; [ exact Hx | ].
  intro k. cbv zeta. cbn [SearchRoute.images]. apply sort_tie.
Qed.

Lemma POST_ties_keep_arrival_order_witness :
  let request := Samples.request "#FF0000" in
  let res := SearchRoute.POST Samples.fullEnv request in
  exists us ps xs,
    forall k : SearchRoute.Score,
      let key := SearchRoute.score (SearchRoute.targetColors request) in
      let tie := fun img => SearchRoute.score_leb (key img) k
                            && SearchRoute.score_leb k (key img) in
      List.filter tie (SearchRoute.images (Samples.bodyOf (fst res)))
      = List.filter tie
          (SearchRoute.matched (SearchRoute.targetColors request)
             (SearchRoute.thresholdOf request) us ps xs).
Proof.
  intros request res.
  assert (E : res = (SearchRoute.Json (Samples.bodyOf (fst res)), snd res))
    by (vm_compute; reflexivity).
  destruct (POST_ties_keep_arrival_order _ _ _ _ E)
    as (q1 & q2 & q3 & c & us & ps & xs & _ & _ & _ & _ & Hk).
  exists us, ps, xs. exact Hk.
Defined.

(* ------------------------------------------------------------------ *)
(** ** lib/image-api: printing, reading and adjusting colours *)

Section PaletteArithmetic.

(** A Color is in [normalizeHex]'s normal form. *)
Lemma color_normal (s : string) :
  Spec.isColor s -> ColorUtils.normalizeHex s = Some s.
Proof.
  intros [c H]. destruct (rgbOfHex_spec s c H)
    as (c1 & c2 & c3 & c4 & c5 & c6 & -> & H1 & H2 & H3 & H4 & H5 & H6 & _).
  apply (normalizeHex_hash6 c1 c2 c3 c4 c5 c6); assumption.
Qed.

Lemma color_length (s : string) : Spec.isColor s -> String.length s = 7%nat.
Proof.
  intros [c H]. destruct (rgbOfHex_spec s c H)
    as (c1 & c2 & c3 & c4 & c5 & c6 & -> & _). reflexivity.
Qed.

Lemma hexToRgb_rgbToHex (x y z : Z) :
  0 <= x <= 255 -> 0 <= y <= 255 -> 0 <= z <= 255 ->
  ImageApi.hexToRgb (ImageApi.rgbToHex x y z) = mkRGB x y z.
Proof.
  intros Hx Hy Hz. apply ImageApi_hexToRgb_color.
  apply rgbToHex_color; assumption.
Qed.

Lemma adjustBrightness_rgb (h : string) (n : Z) :
  ImageApi.hexToRgb (ImageApi.adjustBrightness h n)
  = let c := ImageApi.hexToRgb h in
    let adjust (v : Z) :=
      mathRound (ImageApi.clamp255
                   (inject_Z v + inject_Z v * inject_Z n / 100)%Q) in
    mkRGB (adjust (r c)) (adjust (g c)) (adjust (b c)).
Proof.
  unfold ImageApi.adjustBrightness. cbv zeta.
  apply hexToRgb_rgbToHex; apply round_clamp255.
Qed.

Lemma clamp255_ge (q : Q) (v : Z) :
  0 <= v <= 255 -> (inject_Z v <= q)%Q ->
  v <= mathRound (ImageApi.clamp255 q).
Proof.
  intros Hv Hq. apply mathRound_ge. unfold ImageApi.clamp255.
  assert (H255 : (inject_Z v <= 255)%Q).
  { change 255%Q with (inject_Z 255). rewrite <- Zle_Qle. lia. }
  destruct (Qmax_spec 0 (Qmin 255 q)) as (_ & H2 & _).
  destruct (Qmin_spec 255 q) as (_ & _ & [E | E]); lra.
Qed.

Lemma clamp255_le (q : Q) (v : Z) :
  0 <= v <= 255 -> (q <= inject_Z v)%Q ->
  mathRound (ImageApi.clamp255 q) <= v.
Proof.
  intros Hv Hq. apply mathRound_le. unfold ImageApi.clamp255.
  assert (H0 : (0 <= inject_Z v)%Q).
  { change 0%Q with (inject_Z 0). rewrite <- Zle_Qle. lia. }
  destruct (Qmin_spec 255 q) as (_ & H2 & _).
  destruct (Qmax_spec 0 (Qmin 255 q)) as (_ & _ & [E | E]); lra.
Qed.

Lemma brighten_channel (v n : Z) :
  0 <= v <= 255 ->
  let v' := mathRound (ImageApi.clamp255
                         (inject_Z v + inject_Z v * inject_Z n / 100)%Q) in
  (0 <= n -> v <= v') /\ (n <= 0 -> v' <= v).
Proof.
  intros Hv v'. unfold v'.
  assert (H0 : (0 <= inject_Z v)%Q).
  { change 0%Q with (inject_Z 0). rewrite <- Zle_Qle. lia. }
  split; intro Hn.
  - apply clamp255_ge; [ exact Hv | ].
    assert (Hp : (0 <= inject_Z v * inject_Z n)%Q).
    { apply Qmult_le_0_compat; [ exact H0 | ].
      change 0%Q with (inject_Z 0). rewrite <- Zle_Qle. exact Hn. }
    set (P := (inject_Z v * inject_Z n)%Q) in *. qlra.
  - apply clamp255_le; [ exact Hv | ].
    assert (Hp : (inject_Z v * inject_Z n <= 0)%Q).
    { rewrite <- inject_Z_mult. change 0%Q with (inject_Z 0).
      rewrite <- Zle_Qle. nia. }
    set (P := (inject_Z v * inject_Z n)%Q) in *. qlra.
Qed.

End PaletteArithmetic.

(** X12.  Channels in [0, 255] round-trip through [rgbToHex]: the string
    it prints is seven characters long, is read back as the same RGB
    triple by both readers of the code base, and is in [normalizeHex]'s
    normal form. *)
Theorem rgbToHex_round_trip :
  forall x y z : Z,
    0 <= x <= 255 -> 0 <= y <= 255 -> 0 <= z <= 255 ->
    ImageApi.hexToRgb (ImageApi.rgbToHex x y z) = mkRGB x y z
    /\ ColorUtils.hexToRgb (Some (ImageApi.rgbToHex x y z)) = mkRGB x y z
    /\ ColorUtils.normalizeHex (ImageApi.rgbToHex x y z)
       = Some (ImageApi.rgbToHex x y z)
    /\ String.length (ImageApi.rgbToHex x y z) = 7%nat.
Proof.
  intros x y z Hx Hy Hz.
  pose proof (rgbToHex_color x y z Hx Hy Hz) as H.
  assert (Hc : Spec.isColor (ImageApi.rgbToHex x y z))
    by (eexists; exact H).
  split; [ apply ImageApi_hexToRgb_color; exact H | ].
  split; [ apply ColorUtils_hexToRgb_color; exact H | ].
  split; [ apply color_normal; exact Hc | apply color_length; exact Hc ].
Qed.

Lemma rgbToHex_round_trip_witness :
  ImageApi.hexToRgb (ImageApi.rgbToHex 255 0 10) = mkRGB 255 0 10
  /\ ColorUtils.hexToRgb (Some (ImageApi.rgbToHex 255 0 10)) = mkRGB 255 0 10
  /\ ColorUtils.normalizeHex (ImageApi.rgbToHex 255 0 10)
     = Some (ImageApi.rgbToHex 255 0 10)
  /\ String.length (ImageApi.rgbToHex 255 0 10) = 7%nat.
Proof. apply rgbToHex_round_trip; lia. Defined.

(** X13.  Whatever string a provider supplies as an image's colour, the
    eight derived slots of its palette are well-formed [#RRGGBB] strings,
    in [normalizeHex]'s normal form; only the first slot, the colour
    itself, is passed through unchecked. *)
Theorem derived_slots_well_formed :
  forall primary p : string,
    In p (ImageApi.values (ImageApi.buildDerivedPalette primary)) ->
    p = primary
    \/ (Spec.isColor p /\ ColorUtils.normalizeHex p = Some p).
Proof.
  intros primary p Hin.
  assert (Hb : forall h n, Spec.isColor (ImageApi.adjustBrightness h n)).
  { intros h n. eexists. unfold ImageApi.adjustBrightness.
    apply rgbToHex_color; apply round_clamp255. }
  assert (Hs : forall h n, Spec.isColor (ImageApi.adjustSaturation h n)).
  { intros h n. eexists. unfold ImageApi.adjustSaturation.
    apply rgbToHex_color; apply round_clamp255. }
  assert (Hk : forall h, Spec.isColor (ImageApi.getComplementaryColor h)).
  { intro h. eexists. unfold ImageApi.getComplementaryColor.
    destruct (ImageApi_hexToRgb_range h) as (R1 & R2 & R3).
    apply rgbToHex_color; lia. }
  unfold ImageApi.buildDerivedPalette, ImageApi.values,
    ImageApi.getAnalogousColors in Hin.
  cbn [ImageApi.vibrant ImageApi.darkVibrant ImageApi.lightVibrant
       ImageApi.muted ImageApi.darkMuted ImageApi.lightMuted
       ImageApi.complementary ImageApi.analogous1 ImageApi.analogous2
       fst snd] in Hin.
  destruct Hin as [<- | [<- | [<- | [<- | [<- | [<- | [<- | [<- | [<- | []]]]]]]]]];
    [ left; reflexivity | right .. ];
    (split; [ | apply color_normal ]); auto.
Qed.

Lemma derived_slots_well_formed_witness :
  "#000000" = "not a colour"
  \/ (Spec.isColor "#000000"
      /\ ColorUtils.normalizeHex "#000000" = Some "#000000").
Proof.
  apply (derived_slots_well_formed "not a colour" "#000000").
  vm_compute. right. left. reflexivity.
Defined.

(** X14.  [getComplementaryColor] inverts each channel, and applying it
    twice gives back the colour its argument denotes, for every string. *)
Theorem getComplementaryColor_involutive :
  forall h : string,
    let c := ImageApi.hexToRgb h in
    ImageApi.hexToRgb (ImageApi.getComplementaryColor h)
    = mkRGB (255 - r c) (255 - g c) (255 - b c)
    /\ ImageApi.hexToRgb
         (ImageApi.getComplementaryColor (ImageApi.getComplementaryColor h))
       = c.
Proof.
  intros h c. destruct (ImageApi_hexToRgb_range h) as (R1 & R2 & R3).
  fold c in R1, R2, R3.
  assert (E : ImageApi.hexToRgb (ImageApi.getComplementaryColor h)
              = mkRGB (255 - r c) (255 - g c) (255 - b c)).
  { unfold ImageApi.getComplementaryColor. fold c.
    apply hexToRgb_rgbToHex; lia. }
  split; [ exact E | ].
  unfold ImageApi.getComplementaryColor at 1. rewrite E. cbn [r g b].
  rewrite hexToRgb_rgbToHex by lia.
  destruct c as [x y z]. cbn [r g b]. f_equal; lia.
Qed.

(** X15.  [adjustBrightness] moves every channel in the direction of the
    percentage, or leaves it: the change of a channel, multiplied by the
    percentage, is never negative (so a percentage of 0 changes
    nothing). *)
Theorem adjustBrightness_direction :
  forall (h : string) (n : Z),
    let c := ImageApi.hexToRgb h in
    let c' := ImageApi.hexToRgb (ImageApi.adjustBrightness h n) in
    0 <= (r c' - r c) * n /\ 0 <= (g c' - g c) * n /\ 0 <= (b c' - b c) * n
    /\ (n = 0 -> c' = c).
Proof.
  intros h n c c'. unfold c'. rewrite adjustBrightness_rgb. fold c.
  cbv zeta. cbn [r g b].
  destruct (ImageApi_hexToRgb_range h) as (R1 & R2 & R3). fold c in R1, R2, R3.
  destruct (brighten_channel (r c) n R1) as [A1 A2].
  destruct (brighten_channel (g c) n R2) as [B1 B2].
  destruct (brighten_channel (b c) n R3) as [C1 C2].
  cbv zeta in A1, A2, B1, B2, C1, C2.
  split; [ | split; [ | split ] ].
  - destruct (Z_le_gt_dec 0 n) as [Hn | Hn]; [ specialize (A1 Hn) | specialize (A2 ltac:(lia)) ]; nia.
  - destruct (Z_le_gt_dec 0 n) as [Hn | Hn]; [ specialize (B1 Hn) | specialize (B2 ltac:(lia)) ]; nia.
  - destruct (Z_le_gt_dec 0 n) as [Hn | Hn]; [ specialize (C1 Hn) | specialize (C2 ltac:(lia)) ]; nia.
  - intro Hn. specialize (A1 ltac:(lia)). specialize (A2 ltac:(lia)).
    specialize (B1 ltac:(lia)). specialize (B2 ltac:(lia)).
    specialize (C1 ltac:(lia)). specialize (C2 ltac:(lia)).
    destruct c as [x y z]. cbn [r g b] in *. f_equal; lia.
Qed.

(* ------------------------------------------------------------------ *)
(** ** Colour names and the provider's colour parameter *)

Section Names.

Lemma getColorName_vocabulary (hex : string) :
  In (ColorUtils.getColorName hex)
     ["black"; "white"; "gray"; "red"; "orange"; "yellow"; "green"; "teal";
      "blue"; "purple"; "pink"].
Proof.
  unfold ColorUtils.getColorName.
  destruct (TinyColor.toHsl (TinyColor.of_string hex)) as [[h s] l].
  repeat match goal with
         | |- context [if ?b then _ else _] => destruct b
         end;
    cbn [In]; tauto.
Qed.

End Names.

(** X16.  [getColorName] answers with one of eleven names, and
    [getUnsplashColorParam] with one of the ten colour names the provider
    supports: the name itself, [magenta] for pink, and nothing exactly
    for gray. *)
Theorem getUnsplashColorParam_supported :
  forall hex : string,
    In (ColorUtils.getColorName hex)
       ["black"; "white"; "gray"; "red"; "orange"; "yellow"; "green"; "teal";
        "blue"; "purple"; "pink"]
    /\ match ColorUtils.getUnsplashColorParam hex with
       | Some c =>
           In c ["black"; "white"; "yellow"; "orange"; "red"; "purple";
                 "magenta"; "green"; "teal"; "blue"]
           /\ (c = ColorUtils.getColorName hex
               \/ (c = "magenta" /\ ColorUtils.getColorName hex = "pink"))
       | None => ColorUtils.getColorName hex = "gray"
       end.
Proof.
  intro hex. pose proof (getColorName_vocabulary hex) as Hv.
  split; [ exact Hv | ].
  unfold ColorUtils.getUnsplashColorParam.
  set (name := ColorUtils.getColorName hex) in *.
  cbn [In] in Hv.
  repeat (destruct Hv as [E | Hv]; [ rewrite <- E; cbn; tauto | ]).
  contradiction.
Qed.

(* ------------------------------------------------------------------ *)
(** ** lib/color-utils: what is printed is a Color *)

Section Printed.

Import ColorUtils.

(** tinycolor prints a colour as the Color of its rounded channels. *)
Lemma toHexString_color (c : TinyColor.t) :
  Spec.settled c ->
  Spec.rgbOfHex (TinyColor.toHexString c) = Some (TinyColor.toRgb c).
Proof.
  intros (Hr & Hg & Hb). unfold TinyColor.toHexString, TinyColor.toRgb.
  destruct (hex_pair (mathRound (TinyColor._r c)))
    as (r1 & r2 & -> & Hr1 & Hr2 & Er);
    [ apply mathRound_range; apply Hr | ].
  destruct (hex_pair (mathRound (TinyColor._g c)))
    as (g1 & g2 & -> & Hg1 & Hg2 & Eg);
    [ apply mathRound_range; apply Hg | ].
  destruct (hex_pair (mathRound (TinyColor._b c)))
    as (b1 & b2 & -> & Hb1 & Hb2 & Eb);
    [ apply mathRound_range; apply Hb | ].
  cbn [String.append].
  rewrite (rgbOfHex_hash6 r1 r2 g1 g2 b1 b2) by assumption.
  rewrite Er, Eg, Eb. reflexivity.
Qed.

Lemma lighten_settled (c : TinyColor.t) (a : Q) :
  Spec.settled (TinyColor.lighten c a).
Proof.
  destruct (lighten_eq c a) as (h & s & ->). apply of_hsl_settled.
Qed.

Lemma darken_settled (c : TinyColor.t) (a : Q) :
  Spec.settled (TinyColor.darken c a).
Proof.
  destruct (darken_eq c a) as (h & s & ->). apply of_hsl_settled.
Qed.

Lemma printed_color (c : TinyColor.t) :
  Spec.settled c -> Spec.isColor (TinyColor.toHexString c).
Proof. intro H. eexists. apply toHexString_color. exact H. Qed.

Lemma applyVibeToPalette_color (hex : string) (vibe : Vibe) :
  Spec.isColor (applyVibeToPalette hex vibe).
Proof.
  unfold applyVibeToPalette.
  destruct (vibe_shifts vibe) as [sat bri].
  apply printed_color.
  destruct (0 <? bri); [ apply lighten_settled | apply darken_settled ].
Qed.

Lemma ramp_entry (f : nat -> string) (count i : nat) :
  (i < count)%nat ->
  List.nth_error (List.map f (List.seq 1 count)) i = Some (f (S i)).
Proof.
  intro H. rewrite nth_error_map, nth_error_seq.
  destruct (Nat.ltb_spec i count) as [_ | Hge]; [ reflexivity | lia ].
Qed.

(** [ensureContrast] returns its argument or a printed colour. *)
Lemma ensureContrast_form (fg bg : string) (t : R) :
  ensureContrast fg bg t = fg \/ Spec.isColor (ensureContrast fg bg t).
Proof.
  unfold ensureContrast.
  destruct (ensureContrast_run_spec bg t
              (TinyColor.isDark (TinyColor.of_string bg)) fg eq_refl)
    as [[_ H] | [_ (n & _ & H & _)]].
  - rewrite H. left. reflexivity.
  - rewrite H by lia. right. apply printed_color, stepped_settled.
    unfold TinyColor.clone. apply of_string_settled.
Qed.

Lemma clamp01_one (v : Q) : (1 <= v)%Q -> TinyColor.clamp01 v = 1%Q.
Proof.
  intro H. unfold TinyColor.clamp01, Qmax, Qmin.
  assert (H0 : Qle_bool 0 v = true) by (apply Qle_bool_iff; lra).
  rewrite H0. apply Qle_bool_iff in H. rewrite H. reflexivity.
Qed.

(** Full lightness is white, whatever the hue and the saturation. *)
Lemma of_hsl_white (h s : Q) :
  TinyColor.toRgb (TinyColor.of_hsl h s 1) = mkRGB 255 255 255.
Proof.
  destruct (of_hsl_bounds h s 1) as ((Hp & Hpq & Hq) & _ & Hb).
  cbv zeta in Hp, Hpq, Hq, Hb.
  assert (El : TinyColor.bound01 (TinyColor.convertToPercentage 1) 100 = 1%Q)
    by (vm_compute; reflexivity).
  rewrite El in *.
  assert (Elt : Qltb 1 (1 # 2) = false) by reflexivity.
  rewrite Elt in *.
  set (s' := TinyColor.bound01 (TinyColor.convertToPercentage s) 100) in *.
  assert (Hc : Spec.chanBounds (TinyColor.of_hsl h s 1)
                 ((2 * 1 - (1 + s' - 1 * s')) * 255)
                 ((1 + s' - 1 * s') * 255) ((1 + s' - 1 * s') * 255)
                 ((2 * 1 - (1 + s' - 1 * s')) * 255)) by (apply Hb; lra).
  destruct (toRgb_bounds _ _ _ _ _ 255 255 Hc) as (H1 & H2 & H3);
    [ change (inject_Z 255) with 255%Q; lra
    | change (inject_Z 255) with 255%Q; lra | ].
  destruct (TinyColor.toRgb (TinyColor.of_hsl h s 1)) as [x y z].
  cbn [r g b] in *. f_equal; lia.
Qed.

Lemma toHexString_of_toRgb (c c' : TinyColor.t) :
  TinyColor.toRgb c = TinyColor.toRgb c' ->
  TinyColor.toHexString c = TinyColor.toHexString c'.
Proof.
  unfold TinyColor.toRgb, TinyColor.toHexString. intro H.
  injection H as -> -> ->. reflexivity.
Qed.

Lemma lighten_full (c : TinyColor.t) (a : Q) :
  Spec.settled c -> (100 <= a)%Q ->
  TinyColor.toHexString (TinyColor.lighten c a) = "#ffffff".
Proof.
  intros Hs Ha. destruct (lighten_eq c a) as (h & s & ->).
  destruct (settled_lightness c Hs) as [Hl _].
  rewrite clamp01_one by qlra.
  rewrite (toHexString_of_toRgb _ (TinyColor.mk 255 255 255));
    [ reflexivity | ].
  rewrite of_hsl_white. reflexivity.
Qed.

Lemma darken_full (c : TinyColor.t) (a : Q) :
  Spec.settled c -> (102 <= a)%Q ->
  TinyColor.toHexString (TinyColor.darken c a) = "#000000".
Proof.
  intros Hs Ha. destruct (darken_eq c a) as (h & s & ->).
  destruct (settled_lightness c Hs) as [_ Hl].
  rewrite (toHexString_of_toRgb _ (TinyColor.mk 0 0 0));
    [ reflexivity | ].
  rewrite of_hsl_black; [ reflexivity | ].
  destruct (clamp01_spec (Spec.lightness c - a / 100)) as (_ & H0 & _).
  assert (Spec.lightness c - a / 100 <= 0)%Q by qlra.
  specialize (H0 H). lra.
Qed.

End Printed.

(** X17.  [generateTints] and [generateShades] return [count] entries,
    each a well-formed [#RRGGBB] Color; from the ninth entry on (an
    amount of 108) the tints are white and the shades black, whatever the
    base colour. *)
Theorem ramps_are_colors :
  forall (base : string) (count : nat),
    List.length (ColorUtils.generateTints base count) = count
    /\ List.length (ColorUtils.generateShades base count) = count
    /\ (forall s, In s (ColorUtils.generateTints base count)
                  \/ In s (ColorUtils.generateShades base count) ->
                  Spec.isColor s)
    /\ (forall i, (8 <= i < count)%nat ->
          List.nth_error (ColorUtils.generateTints base count) i
          = Some "#ffffff"
          /\ List.nth_error (ColorUtils.generateShades base count) i
             = Some "#000000").
Proof.
  intros base count. unfold ColorUtils.generateTints, ColorUtils.generateShades.
  split; [ rewrite length_map, length_seq; reflexivity | ].
  split; [ rewrite length_map, length_seq; reflexivity | ].
  split.
  - intros s [H | H]; apply in_map_iff in H; destruct H as (i & <- & _);
      apply printed_color;
      [ apply lighten_settled | apply darken_settled ].
  - intros i Hi.
    assert (Ha : (102 <= inject_Z (Z.of_nat (S i) * 12))%Q).
    { change 102%Q with (inject_Z 102). rewrite <- Zle_Qle. lia. }
    split.
    + rewrite (ramp_entry
                 (fun i => TinyColor.toHexString
                             (TinyColor.lighten (TinyColor.of_string base)
                                (inject_Z (Z.of_nat i * 12)))))
        by lia.
      f_equal. apply lighten_full; [ apply of_string_settled | lra ].
    + rewrite (ramp_entry
                 (fun i => TinyColor.toHexString
                             (TinyColor.darken (TinyColor.of_string base)
                                (inject_Z (Z.of_nat i * 12)))))
        by lia.
      f_equal. apply darken_full; [ apply of_string_settled | exact Ha ].
Qed.

(** X18.  [ensureContrast] never returns anything but its foreground
    argument, untouched, or a well-formed [#RRGGBB] Color. *)
Theorem ensureContrast_result_form :
  forall (fg bg : string) (targetRatio : R),
    ColorUtils.ensureContrast fg bg targetRatio = fg
    \/ (Spec.isColor (ColorUtils.ensureContrast fg bg targetRatio)
        /\ ColorUtils.normalizeHex (ColorUtils.ensureContrast fg bg targetRatio)
           = Some (ColorUtils.ensureContrast fg bg targetRatio)).
Proof.
  intros fg bg t. destruct (ensureContrast_form fg bg t) as [H | H].
  - left. exact H.
  - right. split; [ exact H | apply color_normal; exact H ].
Qed.

(** X19.  The role assignment keeps the base as given and fills the five
    other slots with well-formed [#RRGGBB] Colors, for every input
    string, vibe, brightness preference and threshold. *)
Theorem applyFromBase_slots_are_colors :
  forall (hex : string) (vibe : ColorUtils.Vibe)
         (brightness : PalettePage.Brightness) (threshold : R),
    let slots := PalettePage.applyFromBase hex vibe brightness threshold in
    PalettePage.base slots = hex
    /\ Spec.isColor (PalettePage.background slots)
    /\ Spec.isColor (PalettePage.illustration slots)
    /\ Spec.isColor (PalettePage.accent slots)
    /\ Spec.isColor (PalettePage.textHeading slots)
    /\ Spec.isColor (PalettePage.textBody slots).
Proof.
  intros hex vibe brightness threshold.
  unfold PalettePage.applyFromBase. cbv zeta.
  cbn [PalettePage.base PalettePage.background PalettePage.illustration
       PalettePage.accent PalettePage.textHeading PalettePage.textBody].
  set (vibeBase := ColorUtils.applyVibeToPalette hex vibe).
  set (bg := PalettePage.backgroundFor vibeBase vibe brightness).
  set (dark := TinyColor.isDark (TinyColor.of_string bg)).
  assert (Hvb : Spec.isColor vibeBase) by apply applyVibeToPalette_color.
  assert (Hkeep : forall cand t, Spec.isColor cand ->
                    Spec.isColor (ColorUtils.ensureContrast cand bg t)).
  { intros cand t Hc. destruct (ensureContrast_form cand bg t) as [-> | H];
      assumption. }
  split; [ reflexivity | ].
  split.
  { unfold bg, PalettePage.backgroundFor.
    destruct (TinyColor.toHsl (TinyColor.of_string vibeBase)) as [[h s] l].
    destruct brightness.
    - apply printed_color, of_hsl_settled.
    - apply printed_color, of_hsl_settled.
    - destruct vibe; eexists; reflexivity. }
  split.
  { destruct dark; [ | exact Hvb ].
    unfold PalettePage.nth_or, ColorUtils.generateTints.
    rewrite ramp_entry by lia.
    unfold TinyColor.toHexString at 1. cbn [or_default].
    apply (printed_color (TinyColor.lighten _ _)), lighten_settled. }
  split.
  { apply Hkeep. unfold ColorUtils.generateHarmony.
    cbn [ColorUtils.h_complementary ColorUtils.h_triadic].
    assert (Hcomp : Spec.isColor
                      (TinyColor.toHexString
                         (TinyColor.complement (TinyColor.of_string vibeBase)))).
    { apply printed_color. unfold TinyColor.complement.
      destruct (TinyColor.toHsl _) as [[h s] l]. apply of_hsl_settled. }
    destruct vibe; try exact Hcomp.
    unfold PalettePage.nth_or, TinyColor.triad.
    destruct (TinyColor.toHsl (TinyColor.of_string vibeBase)) as [[h s] l].
    cbn [List.map List.nth_error].
    unfold TinyColor.toHexString at 1. cbn [or_default].
    apply (printed_color (TinyColor.of_hsl _ _ _)), of_hsl_settled. }
  split.
  - apply Hkeep. rewrite headingCandidate_eq. apply printed_color.
    destruct dark; [ apply lighten_settled | apply darken_settled ].
  - apply Hkeep. rewrite bodyCandidate_eq. apply printed_color.
    destruct dark; [ apply lighten_settled | apply darken_settled ].
Qed.

(* ------------------------------------------------------------------ *)
(** ** /api/generate-palette *)

Section PaletteRoute.

Import GeneratePalette.

Lemma industryColors_tables (ind : option string) :
  In (lookupOrTech industryColors ind)
     [ ["#667eea"; "#764ba2"; "#00d4ff"; "#5f72bd"];
       ["#ff6b9d"; "#c44569"; "#f8b500"; "#3c40c6"];
       ["#ff6348"; "#ffa502"; "#26de81"; "#fc5c65"];
       ["#45aaf2"; "#4bcffa"; "#20bf6b"; "#0fb9b1"];
       ["#2c3e50"; "#3498db"; "#16a085"; "#2980b9"];
       ["#f39c12"; "#e67e22"; "#3498db"; "#9b59b6"];
       ["#e74c3c"; "#fd79a8"; "#fdcb6e"; "#6c5ce7"];
       ["#00b894"; "#0984e3"; "#fdcb6e"; "#00cec9"];
       ["#2d3436"; "#636e72"; "#b2bec3"; "#74b9ff"];
       ["#00b894"; "#ff7675"; "#fdcb6e"; "#74b9ff"] ].
Proof.
  unfold lookupOrTech.
  assert (Et : industryColors "tech"
               = Some ["#667eea"; "#764ba2"; "#00d4ff"; "#5f72bd"])
    by reflexivity.
  rewrite Et. unfold industryColors.
  repeat match goal with
         | |- context [if String.eqb ?a ?b then _ else _] =>
             destruct (String.eqb a b)
         end;
    cbv beta iota; cbn [In];
    repeat (first [ left; reflexivity | right ]).
Qed.

(** Every base colour of the table is a Color that tinycolor prints back
    unchanged, and every industry has four of them. *)
Lemma baseColor_fixed (ind : option string) (i : nat) :
  let baseColors := lookupOrTech industryColors ind in
  let base := List.nth (i mod List.length baseColors) baseColors "" in
  List.length baseColors = 4%nat
  /\ Spec.isColor base
  /\ TinyColor.toHexString (TinyColor.of_string base) = base.
Proof.
  cbv zeta. pose proof (industryColors_tables ind) as H.
  set (l := lookupOrTech industryColors ind) in *.
  assert (Hi : (i mod 4 < 4)%nat) by (apply Nat.mod_upper_bound; lia).
  cbn [In] in H.
  repeat (destruct H as [<- | H];
          [ cbn [List.length];
            split; [ reflexivity | ];
            destruct (i mod 4)%nat as [| [| [| [| k]]]]; [ | | | | lia ];
            (split; [ eexists; reflexivity | vm_compute; reflexivity ])
          | ]).
  contradiction.
Qed.

Lemma paletteNames_length (ind : option string) :
  List.length (lookupOrTech paletteNames ind) = 4%nat.
Proof.
  unfold lookupOrTech.
  assert (Et : paletteNames "tech"
               = Some ["Digital Dream"; "Future Forward"; "Cyber Pulse";
                       "Innovation Wave"])
    by reflexivity.
  rewrite Et. unfold paletteNames.
  repeat match goal with
         | |- context [if String.eqb ?a ?b then _ else _] =>
             destruct (String.eqb a b)
         end;
    reflexivity.
Qed.

Lemma harmonyAnalogous_shape (base : string) :
  exists a1 a2,
    harmonyAnalogous base
    = [ TinyColor.toHexString (TinyColor.of_string base); a1; a2 ]
    /\ Spec.isColor a1 /\ Spec.isColor a2.
Proof.
  unfold harmonyAnalogous, analogous3.
  destruct (TinyColor.toHsl (TinyColor.of_string base)) as [[h s] l].
  cbn [List.map]. eexists. eexists. split; [ reflexivity | ].
  split; apply printed_color, of_hsl_settled.
Qed.

Lemma triadic_shape (base : string) :
  exists t1 t2,
    ColorUtils.h_triadic (ColorUtils.generateHarmony base)
    = [ TinyColor.toHexString (TinyColor.of_string base); t1; t2 ]
    /\ Spec.isColor t1 /\ Spec.isColor t2.
Proof.
  unfold ColorUtils.generateHarmony, TinyColor.triad.
  cbn [ColorUtils.h_triadic].
  destruct (TinyColor.toHsl (TinyColor.of_string base)) as [[h s] l].
  cbn [List.map]. eexists. eexists. split; [ reflexivity | ].
  split; apply printed_color, of_hsl_settled.
Qed.

Lemma complementary_color (base : string) :
  Spec.isColor (ColorUtils.h_complementary (ColorUtils.generateHarmony base)).
Proof.
  unfold ColorUtils.generateHarmony. cbn [ColorUtils.h_complementary].
  apply printed_color. unfold TinyColor.complement.
  destruct (TinyColor.toHsl _) as [[h s] l]. apply of_hsl_settled.
Qed.

Lemma ramp_colors (base : string) (count : nat) (x : string) :
  In x (ColorUtils.generateShades base count)
  \/ In x (ColorUtils.generateTints base count) ->
  Spec.isColor x.
Proof.
  unfold ColorUtils.generateShades, ColorUtils.generateTints.
  intros [H | H]; apply in_map_iff in H; destruct H as (i & <- & _);
    apply printed_color; [ apply darken_settled | apply lighten_settled ].
Qed.

(** The six shapes of the colour list before the vibe is applied; [b] is
    the base colour as tinycolor prints it. *)
Lemma harmonyColors_shape (harmony : option string) (base : string) :
  let b := TinyColor.toHexString (TinyColor.of_string base) in
  exists x1 x2 x3 x4 rest,
    Spec.isColor x1 /\ Spec.isColor x2 /\ Spec.isColor x3 /\ Spec.isColor x4
    /\ (forall x, In x rest -> Spec.isColor x)
    /\ ((harmony = Some "complementary"
         /\ harmonyColors harmony base = [base; x1; b; b; x2] /\ rest = [])
        \/ (harmony = Some "analogous"
            /\ harmonyColors harmony base = base :: b :: x1 :: x2 :: x3 :: rest)
        \/ (harmony = Some "triadic"
            /\ harmonyColors harmony base = base :: b :: x1 :: x2 :: x3 :: rest)
        \/ (harmony = Some "tetradic"
            /\ harmonyColors harmony base = [base; x1; b; x2; b] /\ rest = [])
        \/ (harmony <> Some "complementary" /\ harmony <> Some "analogous"
            /\ harmony <> Some "triadic" /\ harmony <> Some "tetradic"
            /\ harmonyColors harmony base = [base; x1; x2; x3; x4]
            /\ rest = [])).
Proof.
  intro b.
  destruct (harmonyAnalogous_shape base) as (a1 & a2 & Ea & Ha1 & Ha2).
  destruct (triadic_shape base) as (t1 & t2 & Et & Ht1 & Ht2).
  pose proof (complementary_color base) as Hc.
  pose proof (ramp_colors base 2) as Hr2.
  pose proof (ramp_colors base 4) as Hr4.
  assert (Hb : Spec.isColor b)
    by (apply printed_color, of_string_settled).
  unfold harmonyColors. rewrite Ea, Et. cbn [List.nth]. fold b.
  set (comp := ColorUtils.h_complementary (ColorUtils.generateHarmony base))
    in *.
  assert (Es2 : exists s1 s2, ColorUtils.generateShades base 2 = [s1; s2]).
  { unfold ColorUtils.generateShades. cbn [List.seq List.map].
    eexists. eexists. reflexivity. }
  assert (Et2 : exists s1 s2, ColorUtils.generateTints base 2 = [s1; s2]).
  { unfold ColorUtils.generateTints. cbn [List.seq List.map].
    eexists. eexists. reflexivity. }
  assert (Es4 : exists s1 s2 s3 s4,
             ColorUtils.generateShades base 4 = [s1; s2; s3; s4]).
  { unfold ColorUtils.generateShades. cbn [List.seq List.map].
    do 4 eexists. reflexivity. }
  destruct Es2 as (sh1 & sh2 & Esh). destruct Et2 as (ti1 & ti2 & Eti).
  destruct Es4 as (f1 & f2 & f3 & f4 & Ef).
  rewrite Esh, Eti in Hr2. rewrite Ef in Hr4. rewrite Esh, Eti, Ef.
  assert (Hsh1 : Spec.isColor sh1) by (apply Hr2; left; left; reflexivity).
  assert (Hsh2 : Spec.isColor sh2)
    by (apply Hr2; left; right; left; reflexivity).
  assert (Hti1 : Spec.isColor ti1) by (apply Hr2; right; left; reflexivity).
  assert (Hti2 : Spec.isColor ti2)
    by (apply Hr2; right; right; left; reflexivity).
  assert (Hf : forall x, In x [f1; f2; f3; f4] -> Spec.isColor x)
    by (intros x Hx; apply Hr4; left; exact Hx).
  destruct harmony as [v |].
  - destruct (String.eqb_spec v "complementary") as [-> | N1].
    { exists comp, t1, b, b, []. repeat split; try assumption;
        try (intros x []). left. auto. }
    destruct (String.eqb_spec v "analogous") as [-> | N2].
    { exists a1, a2, sh1, b, [sh2]. repeat split; try assumption.
      - intros x [<- | []]. exact Hsh2.
      - right. left. auto. }
    destruct (String.eqb_spec v "triadic") as [-> | N3].
    { exists t1, t2, ti1, b, [ti2]. repeat split; try assumption.
      - intros x [<- | []]. exact Hti2.
      - right. right. left. auto. }
    destruct (String.eqb_spec v "tetradic") as [-> | N4].
    { exists comp, t1, b, b, []. repeat split; try assumption;
        try (intros x []). right. right. right. left. auto. }
    destruct (String.eqb_spec v "monochromatic") as [-> | N5].
    { exists sh1, sh2, ti1, ti2, []. repeat split; try assumption;
        try (intros x []).
      right. right. right. right.
      repeat split; try discriminate; reflexivity. }
    exists f1, f2, f3, f4, [].
    repeat split; try (apply Hf; cbn [In]; tauto); try (intros x []).
    right. right. right. right.
    repeat split; try congruence; reflexivity.
  - exists f1, f2, f3, f4, [].
    repeat split; try (apply Hf; cbn [In]; tauto); try (intros x []).
    right. right. right. right.
    repeat split; try discriminate; reflexivity.
Qed.

Lemma shiftTowardsGreen_rgb (hex : string) :
  let c := ImageApi.hexToRgb hex in
  Spec.rgbOfHex (shiftTowardsGreen hex)
  = Some (mkRGB (Z.max 0 (r c - 10)) (Z.min 255 (g c + 20))
                (Z.max 0 (b c - 10))).
Proof.
  intro c. unfold shiftTowardsGreen. fold c.
  destruct (ImageApi_hexToRgb_range hex) as (R1 & R2 & R3).
  fold c in R1, R2, R3. apply rgbToHex_color; lia.
Qed.


Lemma POST_palette (now : nat -> Z) (request : Request)
  (palettes : list Palette) (i : nat) (p : Palette) :
  POST now request = Some palettes ->
  List.nth_error palettes i = Some p ->
  (i < 4)%nat /\ p = paletteAt now request i.
Proof.
  intros H Hn.
  assert (Hlt : (i < List.length palettes)%nat)
    by (apply nth_error_Some; rewrite Hn; discriminate).
  unfold POST in H. destruct (inherited _); [ discriminate | ].
  assert (E : palettes = List.map (paletteAt now request) (List.seq 0 4))
    by congruence.
  subst palettes. rewrite length_map, length_seq in Hlt.
  split; [ exact Hlt | ].
  rewrite nth_error_map, nth_error_seq in Hn.
  destruct (Nat.ltb_spec i 4) as [_ | Hge]; [ | lia ].
  cbn in Hn. congruence.
Qed.




Lemma paletteAt_colors (now : nat -> Z) (request : Request) (i : nat) :
  (i < 4)%nat ->
  let base := List.nth i (lookupOrTech industryColors (req_industry request))
                       "" in
  Spec.isColor base
  /\ TinyColor.toHexString (TinyColor.of_string base) = base
  /\ colors (paletteAt now request i)
     = List.firstn 5 (List.map (applyVibe (req_vibe request))
                               (harmonyColors (req_harmony request) base)).
Proof.
  intros Hi base.
  destruct (baseColor_fixed (req_industry request) i) as (Hl & Hc & Hp).
  unfold paletteAt. cbn [colors]. rewrite Hl in *.
  rewrite (Nat.mod_small i 4 Hi) in *. fold base in Hc, Hp. fold base.
  auto.
Qed.

(** X20.  For every industry that is not the name of an inherited object
    property, the route answers with exactly four palettes; palette [i]
    has exactly five colours, carries the [i]-th name of the industry's
    list (the list of [tech] when the industry is unknown or absent),
    echoes the three request fields, and starts with the [i]-th base
    colour of the industry as the vibe adjusts it. *)
Theorem generate_palette_shape :
  forall (now : nat -> Z) (request : Request),
    inherited (keyOf (req_industry request)) = false ->
    exists palettes,
      POST now request = Some palettes
      /\ List.length palettes = 4%nat
      /\ forall i p,
           List.nth_error palettes i = Some p ->
           List.length (colors p) = 5%nat
           /\ name p
              = List.nth i (lookupOrTech paletteNames (req_industry request))
                         ""
           /\ industry p = req_industry request
           /\ vibe p = req_vibe request
           /\ harmony p = req_harmony request
           /\ List.nth_error (colors p) 0
              = Some (applyVibe (req_vibe request)
                        (List.nth i (lookupOrTech industryColors
                                       (req_industry request)) "")).
Proof.
  intros now request Hin.
  exists (List.map (paletteAt now request) (List.seq 0 4)).
  assert (HP : POST now request
               = Some (List.map (paletteAt now request) (List.seq 0 4)))
    by (unfold POST; rewrite Hin; reflexivity).
  split; [ exact HP | ]. split; [ reflexivity | ].
  intros i p Hn. destruct (POST_palette _ _ _ _ _ HP Hn) as (Hi & ->).
  destruct (paletteAt_colors now request i Hi) as (_ & _ & Ec).
  rewrite Ec.
  destruct (harmonyColors_shape (req_harmony request)
              (List.nth i (lookupOrTech industryColors (req_industry request))
                        ""))
    as (x1 & x2 & x3 & x4 & rest & _ & _ & _ & _ & _ & Hs).
  assert (En : name (paletteAt now request i)
               = List.nth i (lookupOrTech paletteNames (req_industry request))
                          "").
  { unfold paletteAt. cbn [name]. rewrite paletteNames_length.
    rewrite (Nat.mod_small i 4 Hi). reflexivity. }
  destruct Hs as [(_ & -> & _) | [(_ & ->) | [(_ & ->) | [(_ & -> & _)
                 | (_ & _ & _ & _ & -> & _)]]]];
    (split; [ reflexivity | ]); (split; [ exact En | ]);
    repeat split; reflexivity.
Qed.

Lemma generate_palette_shape_witness :
  exists palettes,
    POST (fun _ => 1700000000000)
         (mkRequest (Some "food") (Some "eco") (Some "triadic"))
    = Some palettes
    /\ List.length palettes = 4%nat
    /\ List.map name palettes
       = ["Culinary Delight"; "Taste Sensation"; "Fresh Flavors";
          "Gourmet Palette"]
    /\ List.map (fun p => List.length (colors p)) palettes
       = [5; 5; 5; 5]%nat.
Proof.
  destruct (generate_palette_shape (fun _ => 1700000000000)
              (mkRequest (Some "food") (Some "eco") (Some "triadic")))
    as (palettes & HP & Hl & _).
  - reflexivity.
  - exists palettes. split; [ exact HP | ]. split; [ exact Hl | ].
    assert (E : Some palettes
                = Some (List.map
                          (paletteAt (fun _ => 1700000000000)
                             (mkRequest (Some "food") (Some "eco")
                                        (Some "triadic")))
                          (List.seq 0 4)))
      by (rewrite <- HP; reflexivity).
    assert (E' : palettes
                 = List.map
                     (paletteAt (fun _ => 1700000000000)
                        (mkRequest (Some "food") (Some "eco")
                                   (Some "triadic")))
                     (List.seq 0 4)) by congruence.
    rewrite E'. split; vm_compute; reflexivity.
Defined.





(** X23.  The "eco" vibe moves a Color by a fixed amount per channel: red
    and blue 10 down, green 20 up, each kept inside 0..255; the result is
    a Color again. *)
Theorem shiftTowardsGreen_channels :
  forall (hex : string) (c : ColorRGB),
    Spec.rgbOfHex hex = Some c ->
    Spec.rgbOfHex (shiftTowardsGreen hex)
    = Some (mkRGB (Z.max 0 (r c - 10)) (Z.min 255 (g c + 20))
                  (Z.max 0 (b c - 10))).
Proof.
  intros hex c H. rewrite shiftTowardsGreen_rgb.
  rewrite (ImageApi_hexToRgb_color hex c H). reflexivity.
Qed.

Lemma shiftTowardsGreen_channels_witness :
  Spec.rgbOfHex (shiftTowardsGreen "#05f0ff") = Some (mkRGB 0 255 245).
Proof.
  exact (shiftTowardsGreen_channels "#05f0ff" (mkRGB 5 240 255) eq_refl).
Defined.



End PaletteRoute.
